(** * RSA padding codecs of SymCrypt (lib/rsa_padding.c)

    A shallow embedding of the ten functions of [rsa_padding.c]: the MGF1
    mask generator, PKCS#1 v1.5 encryption padding (apply / remove),
    PKCS#1 v1.5 signature padding (apply / check / verify), RSAES-OAEP
    (apply / remove) and RSASSA-PSS (apply / verify).

    Conventions of the embedding.
    - A [BYTE] is a [Z]; casts to [BYTE] are written [to_BYTE] (reduction
      modulo 256).  Byte buffers are [list Z].
    - A pointer/length pair [(pb, cb)] annotated [_In_reads_bytes_(cb)] or
      [_Out_writes_bytes_(cb)] is a list whose length is [cb].  A pointer
      that the code compares with [NULL] is an [option]; when the code also
      looks at the length while the pointer is [NULL], the length is kept
      as a separate argument.
    - Writes go through [store], [memcpy], [memset]; a write outside the
      buffer (undefined in C) leaves the list unchanged, a read outside
      the buffer yields 0.
    - The scratch area is ONE list; the regions the code carves out of it
      are offsets into that list, so that reads which run from one region
      into the next see what the C code sees.
    - Sizes are [nat].  Sums of buffer sizes do not wrap in [SIZE_T];
      the [SIZE_T] subtractions which the code does not guard are written
      with their wrap-around ([SIZE_T_sub]).  [UINT32] loop counters range
      over buffer indices, which are below [2^32]: the statements about
      the loops counted in [UINT32] (the zero scan of the encryption
      remove path, the xor loops of OAEP, the loop over the OID array)
      carry that bound as a hypothesis.  The counter of the mask
      generator, whose bytes are hashed, is a [Z] with its wrap-around.
    - A function returns its error code together with the buffers and
      cells a caller reads afterwards; the scratch area is returned only
      where a caller passes it on.
    - The hash primitive, the random callback, the flag constants,
      [SymCryptEqual] and [SymCryptWipe] live outside [rsa_padding.c]; they
      are parameters or small models, each marked where it is introduced.
    - The definitions under "Closed forms" are not code: they name the
      blocks and values that the lemmas show the code to compute. *)

From Stdlib Require Import ZArith Lia List Bool.
From stdpp Require Import base numbers option list.
Import ListNotations.

Local Open Scope nat_scope.

(** ** Machine integers *)

Definition to_BYTE (x : Z) : Z := (x mod 256)%Z.

Definition UINT32_wrap (x : Z) : Z := (x mod 2 ^ 32)%Z.

(** [SIZE_T] is 64 bits wide. *)
Definition SIZE_T_wrap (x : Z) : Z := (x mod 2 ^ 64)%Z.

Definition SIZE_T_sub (a b : Z) : Z := SIZE_T_wrap (a - b).

(** [~x] on a [UINT32]. *)
Definition UINT32_not (x : Z) : Z := Z.lxor x (2 ^ 32 - 1).

(** The bytes of a [UINT32] as they lie in memory ([(BYTE * ) &i]) on the
    little-endian targets of the library: byte [j] holds bits
    [8j .. 8j+7]. *)
Definition UINT32_bytes (i : Z) : list Z :=
  [ Z.land i 255;
    Z.land (Z.shiftr i 8) 255;
    Z.land (Z.shiftr i 16) 255;
    Z.land (Z.shiftr i 24) 255 ].

(** ** Buffers *)

Definition load (p : list Z) (i : nat) : Z := default 0%Z (p !! i).

Definition store (p : list Z) (i : nat) (v : Z) : list Z := <[i := v]> p.

(** [memcpy (dst + off, src, n)]. *)
Definition memcpy (dst : list Z) (off : nat) (src : list Z) (n : nat) : list Z :=
  list_inserts off (take n src) dst.

(** [memset (dst + off, v, n)]. *)
Definition memset (dst : list Z) (off : nat) (v : Z) (n : nat) : list Z :=
  list_inserts off (replicate n v) dst.

(** [n] bytes read at [p + off]. *)
Definition bytes_at (p : list Z) (off n : nat) : list Z := take n (drop off p).

(** Modelled from the spec: [SymCryptWipe] is defined outside
    [rsa_padding.c]; the spec describes it as a memory wipe, the callers
    rely on the wiped bytes being zero. *)
Definition SymCryptWipe (dst : list Z) (off n : nat) : list Z := memset dst off 0%Z n.

(** Modelled from the spec: [SymCryptEqual] is defined outside
    [rsa_padding.c]; the spec describes it as byte-slice equality over the
    full length, without short-circuit.  Timing is not modelled, the
    result is the equality of the first [n] bytes. *)
Definition SymCryptEqual (a b : list Z) (n : nat) : bool :=
  bool_decide (take n a = take n b).

(** ** Error codes *)

(** The codes [rsa_padding.c] produces, and the codes the random callback
    may hand back, which the apply paths pass on unchanged. *)
Inductive SYMCRYPT_ERROR : Type :=
  | SYMCRYPT_NO_ERROR
  | SYMCRYPT_INVALID_ARGUMENT
  | SYMCRYPT_BUFFER_TOO_SMALL
  | SYMCRYPT_SIGNATURE_VERIFICATION_FAILURE
  | SYMCRYPT_CALLBACK_FAILURE (code : nat).

Definition is_no_error (e : SYMCRYPT_ERROR) : bool :=
  match e with SYMCRYPT_NO_ERROR => true | _ => false end.

(** ** Hash adapter *)

(** The hash primitives are external.  A [SYMCRYPT_HASH] carries what the
    codecs use: the result size, the state size and the digest function.
    The streaming interface accumulates the appended bytes; the result is
    the digest of what was appended since the last init. *)
Record SYMCRYPT_HASH : Type := {
  SymCryptHashResultSize : nat;
  SymCryptHashStateSize : nat;
  hashFn : list Z -> list Z
}.

(** Modelled from the spec: the constant is defined in a header outside
    [rsa_padding.c]; the largest digest the spec lists is SHA-512, with a
    64-byte result. *)
Definition SYMCRYPT_HASH_MAX_RESULT_SIZE : nat := 64.

Definition hash_wf (h : SYMCRYPT_HASH) : Prop :=
  0 < SymCryptHashResultSize h /\
  SymCryptHashResultSize h <= SYMCRYPT_HASH_MAX_RESULT_SIZE /\
  forall x, length (hashFn h x) = SymCryptHashResultSize h.

Definition SymCryptHashInit : list Z := [].

Definition SymCryptHashAppend (st : list Z) (pbData : list Z) : list Z := st ++ pbData.

(** [SymCryptHashResult (h, st, dst + off, cbResult)]. *)
Definition SymCryptHashResult (h : SYMCRYPT_HASH) (st : list Z)
    (dst : list Z) (off cbResult : nat) : list Z :=
  memcpy dst off (hashFn h st) cbResult.

(** [SymCryptHash (h, pbData, cbData, dst + off, cbResult)]. *)
Definition SymCryptHash (h : SYMCRYPT_HASH) (pbData : list Z)
    (dst : list Z) (off cbResult : nat) : list Z :=
  memcpy dst off (hashFn h pbData) cbResult.

(** ** MGF1: [SymCryptRsaPaddingMaskGeneration] *)

(** The inner loop [for j < sizeof(UINT32): rgbCount[j] = pbCount[4-j-1]]. *)
Definition reverse_count (pbCount rgbCount : list Z) : list Z :=
  fold_left (fun rgb j => store rgb j (load pbCount (4 - j - 1))) [0; 1; 2; 3] rgbCount.

(** The body of [for (UINT32 i = 0; i < cIterations; i++)].  [n] is the
    number of iterations left ([cIterations - i]); the other arguments
    are the variables of the source the loop reads and writes. *)
Fixpoint mgf_loop (h : SYMCRYPT_HASH) (pbSrc : list Z) (fAvoidDWORDReverse : bool)
    (n : nat) (i : Z) (rgbCount : list Z) (cbMaskRemaining pbMaskIndex : nat)
    (pbDst : list Z) : list Z :=
  match n with
  | O => pbDst
  | S n' =>
      let cbHashAlg := SymCryptHashResultSize h in
      let st := SymCryptHashInit in
      let st := SymCryptHashAppend st pbSrc in
      let pbCount := UINT32_bytes i in
      let rgbCount :=
        if fAvoidDWORDReverse then store rgbCount 3 (load pbCount 0)
        else reverse_count pbCount rgbCount in
      let st := SymCryptHashAppend st rgbCount in
      if cbHashAlg <=? cbMaskRemaining then
        let pbDst := SymCryptHashResult h st pbDst pbMaskIndex cbHashAlg in
        mgf_loop h pbSrc fAvoidDWORDReverse n' (UINT32_wrap (i + 1)) rgbCount
          (cbMaskRemaining - cbHashAlg) (pbMaskIndex + cbHashAlg) pbDst
      else
        let rgbHash := replicate SYMCRYPT_HASH_MAX_RESULT_SIZE 0%Z in
        let rgbHash := SymCryptHashResult h st rgbHash 0 cbHashAlg in
        memcpy pbDst pbMaskIndex rgbHash cbMaskRemaining
  end.

Definition SymCryptRsaPaddingMaskGeneration (hashAlgorithm : SYMCRYPT_HASH)
    (pbSrc : list Z) (pbDst : list Z) : list Z :=
  let cbDst := length pbDst in
  let rgbCount := [0; 0; 0; 0]%Z in
  let cbHashAlg := SymCryptHashResultSize hashAlgorithm in
  let cIterations := (cbDst + (cbHashAlg - 1)) / cbHashAlg in
  let fAvoidDWORDReverse := cIterations <? 256 in
  mgf_loop hashAlgorithm pbSrc fAvoidDWORDReverse cIterations 0%Z rgbCount cbDst 0 pbDst.

(** *** MGF1 as PKCS#1 v2.2 defines it *)

(** I2OSP: the big-endian representation of [x] on [xLen] octets;
    "integer too large" is [None]. *)
Fixpoint I2OSP_digits (xLen : nat) (x : Z) : list Z :=
  match xLen with
  | O => []
  | S n => I2OSP_digits n (x / 256)%Z ++ [(x mod 256)%Z]
  end.

Definition I2OSP (x : Z) (xLen : nat) : option (list Z) :=
  if (256 ^ Z.of_nat xLen <=? x)%Z then None else Some (I2OSP_digits xLen x).

(** [T = T || Hash (seed || I2OSP (counter, 4))] for the given counters. *)
Fixpoint MGF1_blocks (H : list Z -> list Z) (seed : list Z) (counters : list nat)
    : option (list Z) :=
  match counters with
  | [] => Some []
  | c :: cs =>
      match I2OSP (Z.of_nat c) 4, MGF1_blocks H seed cs with
      | Some C, Some T => Some (H (seed ++ C) ++ T)
      | _, _ => None
      end
  end.

(** The canonical MGF1: counters [0 .. ceil (maskLen / hLen) - 1], the
    concatenation cut to [maskLen] octets. *)
Definition MGF1 (H : list Z -> list Z) (hLen : nat) (seed : list Z) (maskLen : nat)
    : option (list Z) :=
  match MGF1_blocks H seed (seq 0 ((maskLen + (hLen - 1)) / hLen)) with
  | Some T => Some (take maskLen T)
  | None => None
  end.

(** ** Random callback *)

(** The random source is external and may fail.  It is a function of a
    state of its own: asked for [cb] bytes it hands back an error code,
    the bytes and its next state. *)
Definition RANDOM_CALLBACK (RndState : Type) : Type :=
  RndState -> nat -> SYMCRYPT_ERROR * list Z * RndState.

(** [SymCryptCallbackRandom (buf + off, cb)]: on success the [cb] bytes
    are in the buffer. *)
Definition SymCryptCallbackRandom {RndState : Type}
    (rnd : RANDOM_CALLBACK RndState) (s : RndState)
    (buf : list Z) (off cb : nat) : SYMCRYPT_ERROR * list Z * RndState :=
  let '(e, bytes, s') := rnd s cb in
  (e, if is_no_error e then memcpy buf off bytes cb else buf, s').

(** ** PKCS#1 v1.5 encryption padding *)

Definition PKCS_BLOCKTYPE_1 : Z := 1.
Definition PKCS_BLOCKTYPE_2 : Z := 2.

(** [while (pb[idx] == 0x00) { scError = random (&pb[idx], 1); ... }].
    The loop has no bound in the source; [fuel] bounds the number of
    redraws, [None] is a run that has not left the loop yet. *)
Fixpoint redraw_loop {RndState : Type} (rnd : RANDOM_CALLBACK RndState)
    (fuel : nat) (s : RndState) (buf : list Z) (idx : nat)
    : option (SYMCRYPT_ERROR * list Z * RndState) :=
  if (load buf idx =? 0)%Z then
    match fuel with
    | O => None
    | S fuel' =>
        let '(e, buf', s') := SymCryptCallbackRandom rnd s buf idx 1 in
        if is_no_error e then redraw_loop rnd fuel' s' buf' idx
        else Some (e, buf', s')
    end
  else Some (SYMCRYPT_NO_ERROR, buf, s).

(** [for (i = 0; i < cbTmp; i++) while (pb[2 + i] == 0x00) ...];
    [n] is [cbTmp - i]. *)
Fixpoint nonzero_loop {RndState : Type} (rnd : RANDOM_CALLBACK RndState)
    (fuel : nat) (n i : nat) (s : RndState) (buf : list Z)
    : option (SYMCRYPT_ERROR * list Z * RndState) :=
  match n with
  | O => Some (SYMCRYPT_NO_ERROR, buf, s)
  | S n' =>
      match redraw_loop rnd fuel s buf (2 + i) with
      | None => None
      | Some (e, buf', s') =>
          if is_no_error e then nonzero_loop rnd fuel n' (i + 1) s' buf'
          else Some (e, buf', s')
      end
  end.

Definition SymCryptRsaPkcs1ApplyEncryptionPadding {RndState : Type}
    (rnd : RANDOM_CALLBACK RndState) (fuel : nat) (s : RndState)
    (pbPlaintext : list Z) (flags : Z) (pbPKCS1Format : list Z)
    : option (SYMCRYPT_ERROR * list Z * RndState) :=
  let cbPlaintext := length pbPlaintext in
  let cbPKCS1Format := length pbPKCS1Format in
  if negb (flags =? 0)%Z || (cbPKCS1Format <? cbPlaintext + 11) then
    Some (SYMCRYPT_INVALID_ARGUMENT, pbPKCS1Format, s)
  else
    let cbTmp := cbPKCS1Format - (cbPlaintext + 3) in
    let buf := store pbPKCS1Format 0 0%Z in
    let buf := store buf 1 PKCS_BLOCKTYPE_2 in
    let '(e, buf, s) := SymCryptCallbackRandom rnd s buf 2 cbTmp in
    if negb (is_no_error e) then Some (e, buf, s)
    else
      match nonzero_loop rnd fuel cbTmp 0 s buf with
      | None => None
      | Some (e, buf, s) =>
          if negb (is_no_error e) then Some (e, buf, s)
          else
            let buf := store buf (2 + cbTmp) 0%Z in
            let buf := memcpy buf (3 + cbTmp) pbPlaintext cbPlaintext in
            Some (SYMCRYPT_NO_ERROR, buf, s)
      end.

(** [for (i = start; i < cb; i++) if (pb[i] == 0x00) break;] gives the
    final [i]; [n] is [cb - i].  The source counts with a [UINT32 i]
    against the [SIZE_T] size: the definition is the loop for blocks of
    fewer than [2^32] bytes, where [i] does not wrap. *)
Fixpoint scan_zero (pb : list Z) (n i : nat) : nat :=
  match n with
  | O => i
  | S n' => if (load pb i =? 0)%Z then i else scan_zero pb n' (i + 1)
  end.

(** The result of a remove call: the error code, the plaintext buffer
    and the cell [*pcbPlaintext] as the call leaves them. *)
Definition REMOVE_RESULT : Type := SYMCRYPT_ERROR * option (list Z) * Z.

Definition SymCryptRsaPkcs1RemoveEncryptionPadding
    (pbPKCS1Format : list Z) (flags : Z)
    (pbPlaintext : option (list Z)) (pcbPlaintext : Z) : REMOVE_RESULT :=
  let cbPKCS1Format := length pbPKCS1Format in
  if negb (flags =? 0)%Z || (cbPKCS1Format <? 2) then
    (SYMCRYPT_INVALID_ARGUMENT, pbPlaintext, pcbPlaintext)
  else
    let bValidPadding := true in
    let bValidPadding := bValidPadding && (load pbPKCS1Format 0 =? 0)%Z in
    let bValidPadding := bValidPadding && (load pbPKCS1Format 1 =? PKCS_BLOCKTYPE_2)%Z in
    let i := scan_zero pbPKCS1Format (cbPKCS1Format - 2) 2 in
    let bValidPadding := bValidPadding && (i <? cbPKCS1Format) in
    if negb bValidPadding then
      (SYMCRYPT_INVALID_ARGUMENT, pbPlaintext, pcbPlaintext)
    else
      let i := i + 1 in
      let pcbPlaintext := SIZE_T_sub (Z.of_nat cbPKCS1Format) (Z.of_nat i) in
      match pbPlaintext with
      | None => (SYMCRYPT_NO_ERROR, None, pcbPlaintext)
      | Some out =>
          if (Z.of_nat (length out) <? pcbPlaintext)%Z then
            (SYMCRYPT_BUFFER_TOO_SMALL, Some out, pcbPlaintext)
          else
            (SYMCRYPT_NO_ERROR,
             Some (memcpy out 0 (drop i pbPKCS1Format) (Z.to_nat pcbPlaintext)),
             pcbPlaintext)
      end.

(** ** OAEP encryption padding *)

(** A call [SymCryptRsaPaddingMaskGeneration (h, pHashState, src + srcOff,
    cbSrc, dst + dstOff, cbDst)] on buffers given with their offsets. *)
Definition call_mgf (h : SYMCRYPT_HASH) (src : list Z) (srcOff cbSrc : nat)
    (dst : list Z) (dstOff cbDst : nat) : list Z :=
  memcpy dst dstOff
    (SymCryptRsaPaddingMaskGeneration h (bytes_at src srcOff cbSrc)
       (bytes_at dst dstOff cbDst))
    cbDst.

(** The result of an apply call: the error code, the output block and the
    state of the random source as the call leaves them.  The scratch area
    holds nothing a caller reads, it is not part of the result.

    The two xor loops of the OAEP paths are
    [for (UINT32 i = 0; i < cbDB; i++)] with a [SIZE_T cbDB]; they are
    written as folds over [seq 0 cbDB], which is the loop for blocks of
    fewer than [2^32] bytes (from [cbDB = 2^32] on the counter wraps and
    the source does not leave the loop). *)
Definition APPLY_RESULT (RndState : Type) : Type :=
  SYMCRYPT_ERROR * list Z * RndState.

Definition SymCryptRsaOaepApplyEncryptionPadding {RndState : Type}
    (rnd : RANDOM_CALLBACK RndState) (s : RndState)
    (pbPlaintext : list Z) (hashAlgorithm : SYMCRYPT_HASH) (pbLabel : list Z)
    (pbSeed : option (list Z)) (cbSeed : nat) (flags : Z)
    (pbOAEPFormat : list Z) (pbScratch : list Z) : APPLY_RESULT RndState :=
  let cbPlaintext := length pbPlaintext in
  let cbOAEPFormat := length pbOAEPFormat in
  let cbHashAlg := SymCryptHashResultSize hashAlgorithm in
  let cbHashState := SymCryptHashStateSize hashAlgorithm in
  if negb (flags =? 0)%Z
     || (cbOAEPFormat <? cbPlaintext + cbHashAlg * 2 + 2)
     || (match pbSeed with Some _ => cbHashAlg <? cbSeed | None => false end)
     || (match pbSeed with None => negb (cbSeed =? 0) | Some _ => false end)
  then (SYMCRYPT_INVALID_ARGUMENT, pbOAEPFormat, s)
  else
    let cbPS := cbOAEPFormat - (cbPlaintext + cbHashAlg * 2 + 2) in
    let cbDB := cbOAEPFormat - (cbHashAlg + 1) in
    let pbSeedInternal := cbHashState in
    let pbSeedMask := pbSeedInternal + cbHashAlg in
    let pbDB := pbSeedMask + cbHashAlg in
    let pbDBMask := pbDB + cbDB in
    let scr := SymCryptHash hashAlgorithm pbLabel pbScratch pbDB cbHashAlg in
    let scr := SymCryptWipe scr (pbDB + cbHashAlg) cbPS in
    let scr := store scr (pbDB + (cbHashAlg + cbPS)) 1%Z in
    let scr := memcpy scr (pbDB + (cbHashAlg + cbPS + 1)) pbPlaintext cbPlaintext in
    let '(e, scr, s) :=
      match pbSeed with
      | None => SymCryptCallbackRandom rnd s scr pbSeedInternal cbHashAlg
      | Some seed =>
          let scr := SymCryptWipe scr pbSeedInternal cbHashAlg in
          (SYMCRYPT_NO_ERROR, memcpy scr pbSeedInternal seed cbSeed, s)
      end in
    if negb (is_no_error e) then (e, pbOAEPFormat, s)
    else
      let scr := call_mgf hashAlgorithm scr pbSeedInternal cbHashAlg scr pbDBMask cbDB in
      let out := store pbOAEPFormat 0 0%Z in
      let out :=
        fold_left
          (fun out i =>
             store out (cbHashAlg + 1 + i)
               (Z.lxor (load scr (pbDB + i)) (load scr (pbDBMask + i))))
          (seq 0 cbDB) out in
      let scr := call_mgf hashAlgorithm out (cbHashAlg + 1) cbDB scr pbSeedMask cbHashAlg in
      let out :=
        fold_left
          (fun out i =>
             store out (1 + i)
               (Z.lxor (load scr (pbSeedInternal + i)) (load scr (pbSeedMask + i))))
          (seq 0 cbHashAlg) out in
      (SYMCRYPT_NO_ERROR, out, s).

(** [for (cnt = start; cnt < cbDB; cnt++)] of the PS check: [Some cnt] is
    the value of [cnt] when the loop is left, [None] the jump to cleanup
    with [SYMCRYPT_INVALID_ARGUMENT]; [n] is [cbDB - cnt]. *)
Fixpoint oaep_ps_loop (scr : list Z) (pbDB : nat) (n cnt : nat) : option nat :=
  match n with
  | O => Some cnt
  | S n' =>
      if (load scr (pbDB + cnt) =? 1)%Z then Some (cnt + 1)
      else if negb (load scr (pbDB + cnt) =? 0)%Z then None
      else oaep_ps_loop scr pbDB n' (cnt + 1)
  end.

Definition SymCryptRsaOaepRemoveEncryptionPadding
    (pbOAEPFormat : list Z) (hashAlgorithm : SYMCRYPT_HASH) (pbLabel : list Z)
    (flags : Z) (pbPlaintext : option (list Z)) (pcbPlaintext : Z)
    (pbScratch : list Z) : REMOVE_RESULT :=
  let cbOAEPFormat := length pbOAEPFormat in
  let cbHashAlg := SymCryptHashResultSize hashAlgorithm in
  let cbHashState := SymCryptHashStateSize hashAlgorithm in
  if negb (flags =? 0)%Z then (SYMCRYPT_INVALID_ARGUMENT, pbPlaintext, pcbPlaintext)
  else if (cbOAEPFormat <? cbHashAlg + 1) || negb (load pbOAEPFormat 0 =? 0)%Z then
    (SYMCRYPT_INVALID_ARGUMENT, pbPlaintext, pcbPlaintext)
  else
    let cbDB := cbOAEPFormat - (cbHashAlg + 1) in
    let pbSeedMask := cbHashState in
    let pbSeed := pbSeedMask + cbHashAlg in
    let pbDBMask := pbSeed + cbHashAlg in
    let pbDB := pbDBMask + cbDB in
    let pbLabelHash := pbDB + cbDB in
    let scr :=
      call_mgf hashAlgorithm pbOAEPFormat (cbHashAlg + 1) cbDB pbScratch pbSeedMask cbHashAlg in
    let scr :=
      fold_left
        (fun scr i =>
           store scr (pbSeed + i)
             (Z.lxor (load pbOAEPFormat (1 + i)) (load scr (pbSeedMask + i))))
        (seq 0 cbHashAlg) scr in
    let scr := call_mgf hashAlgorithm scr pbSeed cbHashAlg scr pbDBMask cbDB in
    let scr :=
      fold_left
        (fun scr i =>
           store scr (pbDB + i)
             (Z.lxor (load pbOAEPFormat (cbHashAlg + 1 + i)) (load scr (pbDBMask + i))))
        (seq 0 cbDB) scr in
    let scr := SymCryptHash hashAlgorithm pbLabel scr pbLabelHash cbHashAlg in
    if existsb
         (fun i => negb (load scr (pbLabelHash + i) =? load scr (pbDB + i))%Z)
         (seq 0 cbHashAlg)
    then (SYMCRYPT_INVALID_ARGUMENT, pbPlaintext, pcbPlaintext)
    else
      match oaep_ps_loop scr pbDB (cbDB - cbHashAlg) cbHashAlg with
      | None => (SYMCRYPT_INVALID_ARGUMENT, pbPlaintext, pcbPlaintext)
      | Some cnt =>
          let pcbPlaintext := SIZE_T_sub (Z.of_nat cbDB) (Z.of_nat cnt) in
          match pbPlaintext with
          | None => (SYMCRYPT_NO_ERROR, None, pcbPlaintext)
          | Some out =>
              if (Z.of_nat (length out) <? pcbPlaintext)%Z then
                (SYMCRYPT_BUFFER_TOO_SMALL, Some out, pcbPlaintext)
              else
                (SYMCRYPT_NO_ERROR,
                 Some (memcpy out 0 (drop (pbDB + cnt) scr) (Z.to_nat pcbPlaintext)),
                 pcbPlaintext)
          end
      end.

(** ** PKCS#1 v1.5 signature padding *)

Definition ASN1_SEQUENCE_BYTE : Z := 48.
Definition ASN1_OCTET_STRING_BYTE : Z := 4.

(** Modelled from the spec: the two flag constants are defined in a header
    outside [rsa_padding.c]; the spec asks for one recognised bit each.
    No statement below depends on which bits they are. *)
Definition SYMCRYPT_FLAG_RSA_PKCS1_NO_ASN1 : Z := 1.
Definition SYMCRYPT_FLAG_RSA_PKCS1_OPTIONAL_HASH_OID : Z := 2.

Definition SymCryptRsaPkcs1ApplySignaturePadding
    (pbHash : list Z) (pbHashOid : option (list Z)) (cbHashOid : nat)
    (flags : Z) (pbPKCS1Format : list Z) : SYMCRYPT_ERROR * list Z :=
  let cbHash := length pbHash in
  let cbPKCS1Format := length pbPKCS1Format in
  if negb (Z.land flags (UINT32_not SYMCRYPT_FLAG_RSA_PKCS1_NO_ASN1) =? 0)%Z then
    (SYMCRYPT_INVALID_ARGUMENT, pbPKCS1Format)
  else
    let fInsertASN1 := (Z.land flags SYMCRYPT_FLAG_RSA_PKCS1_NO_ASN1 =? 0)%Z in
    (* (pbHashOid != NULL) && (cbHashOid > 0) *)
    let fHaveOid :=
      match pbHashOid with Some _ => 0 <? cbHashOid | None => false end in
    (* [None]: the jump to cleanup for a NULL OID with a nonzero size *)
    match
      (if fInsertASN1 then
         if fHaveOid then Some (6 + cbHashOid + cbHash)
         else if 0 <? cbHashOid then None
         else Some (2 + cbHash)
       else Some cbHash)
    with
    | None => (SYMCRYPT_INVALID_ARGUMENT, pbPKCS1Format)
    | Some cbEncoding =>
        if 128 <? cbEncoding then (SYMCRYPT_INVALID_ARGUMENT, pbPKCS1Format)
        else if cbPKCS1Format <? 3 + 8 + cbEncoding then
          (SYMCRYPT_INVALID_ARGUMENT, pbPKCS1Format)
        else
          let cbPadding := cbPKCS1Format - 3 - cbEncoding in
          let buf := store pbPKCS1Format 0 0%Z in
          let buf := store buf 1 1%Z in
          let buf := store buf (2 + cbPadding) 0%Z in
          let buf := memset buf 2 255%Z cbPadding in
          if fInsertASN1 then
            let cbOidOffset := 1 in
            let '(buf, cbOidOffset) :=
              match pbHashOid with
              | Some oid =>
                  if 0 <? cbHashOid then
                    let buf := store buf (2 + cbPadding + 1) ASN1_SEQUENCE_BYTE in
                    let buf :=
                      store buf (2 + cbPadding + 2)
                        (to_BYTE (to_BYTE (Z.of_nat cbEncoding) - 2)) in
                    let buf := store buf (2 + cbPadding + 3) ASN1_SEQUENCE_BYTE in
                    let buf :=
                      store buf (2 + cbPadding + 4) (to_BYTE (Z.of_nat cbHashOid)) in
                    let cbOidOffset := cbOidOffset + 4 in
                    (memcpy buf (2 + cbPadding + cbOidOffset) oid cbHashOid, cbOidOffset)
                  else (buf, cbOidOffset)
              | None => (buf, cbOidOffset)
              end in
            let buf :=
              store buf (2 + cbPadding + cbOidOffset + cbHashOid) ASN1_OCTET_STRING_BYTE in
            let buf :=
              store buf (2 + cbPadding + cbOidOffset + cbHashOid + 1)
                (to_BYTE (Z.of_nat cbHash)) in
            let buf :=
              memcpy buf (2 + cbPadding + cbOidOffset + cbHashOid + 2) pbHash cbHash in
            (SYMCRYPT_NO_ERROR, buf)
          else
            (SYMCRYPT_NO_ERROR, memcpy buf (3 + cbPadding) pbHash cbHash)
    end.

Definition SymCryptRsaPkcs1CheckSignaturePadding
    (pbHash : list Z) (pbHashOid : option (list Z)) (cbHashOid : nat)
    (pbPKCS1Format : list Z) (flags : Z) (pbScratch : list Z)
    : SYMCRYPT_ERROR * list Z :=
  let cbPKCS1Format := length pbPKCS1Format in
  let scr := SymCryptWipe pbScratch 0 cbPKCS1Format in
  let '(scError, scr) :=
    SymCryptRsaPkcs1ApplySignaturePadding pbHash pbHashOid cbHashOid flags scr in
  if negb (is_no_error scError) then (scError, scr)
  else if SymCryptEqual scr pbPKCS1Format cbPKCS1Format then (SYMCRYPT_NO_ERROR, scr)
  else (SYMCRYPT_SIGNATURE_VERIFICATION_FAILURE, scr).

Record SYMCRYPT_OID : Type := { cbOID : nat; pbOID : option (list Z) }.

(** [for (i = 0; i < nOIDCount; i++) { scError = Check (...); if
    (scError == SYMCRYPT_NO_ERROR) break; }] over the entries not yet
    tried; [scError] is the value the variable holds on entry.  The
    source counts with a [UINT32 i] against the [SIZE_T nOIDCount]: the
    definition is the loop for arrays of fewer than [2^32] entries. *)
Fixpoint verify_oid_loop (pbHash : list Z) (oids : list SYMCRYPT_OID)
    (pbPKCS1Format : list Z) (pbScratch : list Z) (scError : SYMCRYPT_ERROR)
    : SYMCRYPT_ERROR * list Z :=
  match oids with
  | [] => (scError, pbScratch)
  | oid :: rest =>
      let '(scError, scr) :=
        SymCryptRsaPkcs1CheckSignaturePadding pbHash (pbOID oid) (cbOID oid)
          pbPKCS1Format 0%Z pbScratch in
      if is_no_error scError then (scError, scr)
      else verify_oid_loop pbHash rest pbPKCS1Format scr scError
  end.

(** [pHashOIDs] is [None] for the [NULL] pointer and [Some oids] for an
    array of [nOIDCount = length oids] entries.  The scratch area has at
    least [cbPKCS1Format] bytes, of which the first [cbPKCS1Format] are
    handed to the check. *)
Definition SymCryptRsaPkcs1VerifySignaturePadding
    (pbHash : list Z) (pHashOIDs : option (list SYMCRYPT_OID))
    (pbPKCS1Format : list Z) (flags : Z) (pbScratch : list Z) : SYMCRYPT_ERROR :=
  let cbPKCS1Format := length pbPKCS1Format in
  let scError := SYMCRYPT_NO_ERROR in
  if negb (Z.land flags (UINT32_not SYMCRYPT_FLAG_RSA_PKCS1_OPTIONAL_HASH_OID) =? 0)%Z then
    SYMCRYPT_INVALID_ARGUMENT
  else
    let scr := take cbPKCS1Format pbScratch in
    let '(scError, scr) :=
      match pHashOIDs with
      | Some oids => verify_oid_loop pbHash oids pbPKCS1Format scr scError
      | None => (scError, scr)
      end in
    if match pHashOIDs with None => true | Some _ => false end
       || (negb (is_no_error scError)
           && negb (Z.land flags SYMCRYPT_FLAG_RSA_PKCS1_OPTIONAL_HASH_OID =? 0)%Z)
    then
      fst (SymCryptRsaPkcs1CheckSignaturePadding pbHash None 0 pbPKCS1Format
             SYMCRYPT_FLAG_RSA_PKCS1_NO_ASN1 scr)
    else scError.

(** ** PSS signature padding *)

(** The block of a PSS call is a pointer the code compares with [NULL];
    after [pbPSSFormat++; cbPSSFormat--] the code works at offset [off = 1]
    of the same buffer, with [cbPSSFormat] one less. *)
Definition SymCryptRsaPssApplySignaturePadding {RndState : Type}
    (rnd : RANDOM_CALLBACK RndState) (s : RndState)
    (pbHash : list Z) (hashAlgorithm : SYMCRYPT_HASH)
    (pbSalt : option (list Z)) (cbSalt : nat)
    (nBitsOfModulus : Z) (flags : Z)
    (pbPSSFormat : option (list Z)) (pbScratch : list Z)
    : SYMCRYPT_ERROR * option (list Z) * RndState :=
  let cbHash := length pbHash in
  let cbHashAlg := SymCryptHashResultSize hashAlgorithm in
  let cbHashState := SymCryptHashStateSize hashAlgorithm in
  match pbPSSFormat with
  | None => (SYMCRYPT_INVALID_ARGUMENT, None, s)
  | Some out =>
      let cbPSSFormat := length out in
      if cbPSSFormat =? 0 then (SYMCRYPT_INVALID_ARGUMENT, Some out, s)
      else
        let '(out, off, cbPSSFormat) :=
          if (nBitsOfModulus mod 8 =? 1)%Z
          then (store out 0 0%Z, 1, cbPSSFormat - 1)
          else (out, 0, cbPSSFormat) in
        if negb (flags =? 0)%Z || (cbPSSFormat <? cbHashAlg + cbSalt + 2) then
          (SYMCRYPT_INVALID_ARGUMENT, Some out, s)
        else
          let cbDB := cbPSSFormat - (cbHashAlg + 1) in
          let cbPadding2 := cbDB - cbSalt - 1 in
          let cbMPrime := 8 + cbHash + cbSalt in
          let pbMPrime := cbHashState in
          let pbDB := pbMPrime + cbMPrime in
          let pbDBMask := pbDB + cbDB in
          let scr := SymCryptWipe pbScratch pbMPrime 8 in
          let scr := memcpy scr (pbMPrime + 8) pbHash cbHash in
          let '(e, scr, s) :=
            match pbSalt with
            | None => SymCryptCallbackRandom rnd s scr (pbMPrime + 8 + cbHash) cbSalt
            | Some salt =>
                (SYMCRYPT_NO_ERROR, memcpy scr (pbMPrime + 8 + cbHash) salt cbSalt, s)
            end in
          if negb (is_no_error e) then (e, Some out, s)
          else
            let out :=
              SymCryptHash hashAlgorithm (bytes_at scr pbMPrime cbMPrime)
                out (off + cbDB) cbHashAlg in
            let scr := SymCryptWipe scr pbDB cbPadding2 in
            let scr := store scr (pbDB + cbPadding2) 1%Z in
            let scr :=
              memcpy scr (pbDB + cbPadding2 + 1) (drop (pbMPrime + 8 + cbHash) scr) cbSalt in
            let scr := call_mgf hashAlgorithm out (off + cbDB) cbHashAlg scr pbDBMask cbDB in
            let out :=
              fold_left
                (fun out i =>
                   store out (off + i)
                     (Z.lxor (load scr (pbDB + i)) (load scr (pbDBMask + i))))
                (seq 0 cbDB) out in
            let dwZeroBits :=
              SIZE_T_sub (8 * Z.of_nat cbPSSFormat + 1) nBitsOfModulus in
            let out :=
              store out off (Z.land (load out off) (to_BYTE (Z.shiftr 255 dwZeroBits))) in
            let out := store out (off + (cbPSSFormat - 1)) 188%Z in
            (SYMCRYPT_NO_ERROR, Some out, s)
  end.

Definition SymCryptRsaPssVerifySignaturePadding
    (pbHash : list Z) (hashAlgorithm : SYMCRYPT_HASH) (cbSalt : nat)
    (pbPSSFormat : option (list Z)) (nBitsOfModulus : Z) (flags : Z)
    (pbScratch : list Z) : SYMCRYPT_ERROR :=
  let cbHash := length pbHash in
  let cbHashAlg := SymCryptHashResultSize hashAlgorithm in
  let cbHashState := SymCryptHashStateSize hashAlgorithm in
  match pbPSSFormat with
  | None => SYMCRYPT_INVALID_ARGUMENT
  | Some em =>
      let cbPSSFormat := length em in
      if negb (flags =? 0)%Z || (cbPSSFormat =? 0) then SYMCRYPT_INVALID_ARGUMENT
      else if (nBitsOfModulus mod 8 =? 1)%Z && negb (load em 0 =? 0)%Z then
        SYMCRYPT_INVALID_ARGUMENT
      else
        let '(off, cbPSSFormat) :=
          if (nBitsOfModulus mod 8 =? 1)%Z then (1, cbPSSFormat - 1)
          else (0, cbPSSFormat) in
        let dwZeroBits := SIZE_T_sub (8 * Z.of_nat cbPSSFormat + 1) nBitsOfModulus in
        if negb (Z.land (load em off)
                   (to_BYTE (Z.shiftl 255 (SIZE_T_sub 8 dwZeroBits))) =? 0)%Z
           || negb (load em (off + cbPSSFormat - 1) =? 188)%Z
           || (cbPSSFormat <? cbHashAlg + cbSalt + 2)
        then SYMCRYPT_INVALID_ARGUMENT
        else
          let cbDB := cbPSSFormat - (cbHashAlg + 1) in
          let cbMPrime := 8 + cbHash + cbSalt in
          let pbDBMask := cbHashState in
          let pbMPrime := pbDBMask + cbDB in
          let pbMPrimeHash := pbMPrime + cbMPrime in
          let pbHashOfMPrimeIndex := off + (cbPSSFormat - (cbHashAlg + 1)) in
          let scr :=
            call_mgf hashAlgorithm em pbHashOfMPrimeIndex cbHashAlg pbScratch pbDBMask cbDB in
          let scr :=
            fold_left
              (fun scr i =>
                 store scr (pbDBMask + i)
                   (Z.lxor (load em (off + i)) (load scr (pbDBMask + i))))
              (seq 0 cbDB) scr in
          let scr :=
            store scr pbDBMask
              (Z.land (load scr pbDBMask) (to_BYTE (Z.shiftr 255 dwZeroBits))) in
          if existsb (fun i => negb (load scr (pbDBMask + i) =? 0)%Z)
               (seq 0 (cbDB - cbSalt - 1))
          then SYMCRYPT_INVALID_ARGUMENT
          else if negb (load scr (pbDBMask + (cbDB - cbSalt - 1)) =? 1)%Z then
            SYMCRYPT_INVALID_ARGUMENT
          else
            let scr := SymCryptWipe scr pbMPrime 8 in
            let scr := memcpy scr (pbMPrime + 8) pbHash cbHash in
            let scr :=
              memcpy scr (pbMPrime + 8 + cbHash)
                (drop (pbDBMask + (cbDB - cbSalt)) scr) cbSalt in
            let scr :=
              SymCryptHash hashAlgorithm (bytes_at scr pbMPrime cbMPrime)
                scr pbMPrimeHash cbHashAlg in
            if negb (SymCryptEqual (drop (off + cbDB) em) (drop pbMPrimeHash scr) cbHashAlg)
            then SYMCRYPT_INVALID_ARGUMENT
            else SYMCRYPT_NO_ERROR
  end.

(** ** Closed forms used in the statements *)

(** The four bytes of a counter, most significant first. *)
Definition BE32 (c : Z) : list Z :=
  [ Z.land (Z.shiftr c 24) 255;
    Z.land (Z.shiftr c 16) 255;
    Z.land (Z.shiftr c 8) 255;
    Z.land c 255 ].

(** The digest the mask generator takes for counter [c]. *)
Definition mgf_block (h : SYMCRYPT_HASH) (seed : list Z) (c : nat) : list Z :=
  hashFn h (seed ++ BE32 (Z.of_nat c)).

(** The [n] mask bytes the generator leaves in its output buffer. *)
Definition mgf_mask (h : SYMCRYPT_HASH) (seed : list Z) (n : nat) : list Z :=
  take n
    (concat
       (map (mgf_block h seed)
          (seq 0 ((n + (SymCryptHashResultSize h - 1)) / SymCryptHashResultSize h)))).

(** Bytewise exclusive or of two buffers. *)
Definition xor_bytes (a b : list Z) : list Z := zip_with Z.lxor a b.

(** The encoding [T] the signature apply path places after the padding,
    for the three shapes the code distinguishes. *)
Definition sig_encoding (pbHash : list Z) (pbHashOid : option (list Z))
    (cbHashOid : nat) (flags : Z) : list Z :=
  let cbHash := length pbHash in
  let octets := [ASN1_OCTET_STRING_BYTE; to_BYTE (Z.of_nat cbHash)] ++ pbHash in
  if (Z.land flags SYMCRYPT_FLAG_RSA_PKCS1_NO_ASN1 =? 0)%Z then
    match pbHashOid with
    | Some oid =>
        if 0 <? cbHashOid then
          [ASN1_SEQUENCE_BYTE;
           to_BYTE (to_BYTE (Z.of_nat (6 + cbHashOid + cbHash)) - 2);
           ASN1_SEQUENCE_BYTE;
           to_BYTE (Z.of_nat cbHashOid)] ++ take cbHashOid oid ++ octets
        else octets
    | None => octets
    end
  else pbHash.

(** [0x00 || 0x01 || PS || 0x00 || T] on [k] bytes, [PS] all [0xFF]. *)
Definition pkcs1_sig_block (k : nat) (T : list Z) : list Z :=
  [0; 1]%Z ++ replicate (k - 3 - length T) 255%Z ++ [0%Z] ++ T.

(** The OID pointer gives access to at least [cbHashOid] bytes. *)
Definition oid_readable (pbHashOid : option (list Z)) (cbHashOid : nat) : Prop :=
  match pbHashOid with
  | Some oid => cbHashOid <= length oid
  | None => True
  end.

(** The arguments pass every check of the signature apply path on a block
    of [k] bytes. *)
Definition sig_args_ok (pbHash : list Z) (pbHashOid : option (list Z))
    (cbHashOid : nat) (flags : Z) (k : nat) : bool :=
  let cbEncoding := length (sig_encoding pbHash pbHashOid cbHashOid flags) in
  (Z.land flags (UINT32_not SYMCRYPT_FLAG_RSA_PKCS1_NO_ASN1) =? 0)%Z
  && negb ((Z.land flags SYMCRYPT_FLAG_RSA_PKCS1_NO_ASN1 =? 0)%Z
           && match pbHashOid with None => 0 <? cbHashOid | Some _ => false end)
  && (cbEncoding <=? 128)
  && (3 + 8 + cbEncoding <=? k).

(** ** The OID lists of [rsa_padding.c] *)

Definition SymCryptMd5OidList : list SYMCRYPT_OID :=
  [ {| cbOID := 12; pbOID := Some [6; 8; 42; 134; 72; 134; 247; 13; 2; 5; 5; 0]%Z |};
    {| cbOID := 10; pbOID := Some [6; 8; 42; 134; 72; 134; 247; 13; 2; 5]%Z |} ].

Definition SymCryptSha1OidList : list SYMCRYPT_OID :=
  [ {| cbOID := 9; pbOID := Some [6; 5; 43; 14; 3; 2; 26; 5; 0]%Z |};
    {| cbOID := 7; pbOID := Some [6; 5; 43; 14; 3; 2; 26]%Z |} ].

Definition SymCryptSha256OidList : list SYMCRYPT_OID :=
  [ {| cbOID := 13; pbOID := Some [6; 9; 96; 134; 72; 1; 101; 3; 4; 2; 1; 5; 0]%Z |};
    {| cbOID := 11; pbOID := Some [6; 9; 96; 134; 72; 1; 101; 3; 4; 2; 1]%Z |} ].

Definition SymCryptSha384OidList : list SYMCRYPT_OID :=
  [ {| cbOID := 13; pbOID := Some [6; 9; 96; 134; 72; 1; 101; 3; 4; 2; 2; 5; 0]%Z |};
    {| cbOID := 11; pbOID := Some [6; 9; 96; 134; 72; 1; 101; 3; 4; 2; 2]%Z |} ].

Definition SymCryptSha512OidList : list SYMCRYPT_OID :=
  [ {| cbOID := 13; pbOID := Some [6; 9; 96; 134; 72; 1; 101; 3; 4; 2; 3; 5; 0]%Z |};
    {| cbOID := 11; pbOID := Some [6; 9; 96; 134; 72; 1; 101; 3; 4; 2; 3]%Z |} ].

(** ** Concrete inputs *)

(** A two-byte checksum that stands for a digest on concrete inputs; no
    general statement depends on it. *)
Definition demo_digest (x : list Z) : list Z :=
  [ fold_left (fun acc b => (acc * 31 + b + 1) mod 256)%Z x 7%Z;
    fold_left (fun acc b => Z.lxor ((acc * 5 + 3) mod 256) (b mod 256))%Z x 90%Z ].

Definition demo_hash : SYMCRYPT_HASH :=
  {| SymCryptHashResultSize := 2; SymCryptHashStateSize := 4; hashFn := demo_digest |}.

(** A random source reading from a tape of bytes; it fails when the tape
    runs short. *)
Definition tape_random : RANDOM_CALLBACK (list Z) :=
  fun tape cb =>
    if length tape <? cb then (SYMCRYPT_CALLBACK_FAILURE 1, [], tape)
    else (SYMCRYPT_NO_ERROR, take cb tape, drop cb tape).

(** The long SHA-256 identifier of [SymCryptSha256OidList]. *)
Definition sha256_oid_long : list Z := [6; 9; 96; 134; 72; 1; 101; 3; 4; 2; 1; 5; 0]%Z.

(** The OAEP block [0x00 || maskedSeed || maskedDB] for a data block
    [DB] and a seed. *)
Definition oaep_encode (h : SYMCRYPT_HASH) (DB seed : list Z) : list Z :=
  let maskedDB := xor_bytes DB (mgf_mask h seed (length DB)) in
  [0%Z] ++ xor_bytes seed (mgf_mask h maskedDB (length seed)) ++ maskedDB.

(** The data block [lHash || PS || 0x01 || M] of a [k]-byte OAEP block. *)
Definition oaep_DB (h : SYMCRYPT_HASH) (pbLabel M : list Z) (k : nat) : list Z :=
  hashFn h pbLabel
  ++ replicate (k - (length M + SymCryptHashResultSize h * 2 + 2)) 0%Z
  ++ [1%Z] ++ M.

(** The data block that OAEP remove recovers from [maskedSeed] and
    [maskedDB]. *)
Definition oaep_recovered_DB (h : SYMCRYPT_HASH) (maskedSeed maskedDB : list Z) : list Z :=
  let seed := xor_bytes maskedSeed (mgf_mask h maskedDB (length maskedSeed)) in
  xor_bytes maskedDB (mgf_mask h seed (length maskedDB)).

(** The PS scan of OAEP remove on the bytes that follow the label hash:
    the number of bytes the scan passes before it stops, [None] when it
    meets a byte other than 0x00 and 0x01. *)
Fixpoint ps_parse (l : list Z) : option nat :=
  match l with
  | [] => Some 0
  | b :: l' =>
      if (b =? 1)%Z then Some 1
      else if negb (b =? 0)%Z then None
      else option_map S (ps_parse l')
  end.

(** The first byte of a region and-ed with a mask
    ([pb[0] &= mask]). *)
Definition mask_first (m : Z) (l : list Z) : list Z :=
  match l with
  | [] => []
  | b :: l' => Z.land b m :: l'
  end.

(** [dwZeroBits = 8 * cbPSSFormat + 1 - nBitsOfModulus]. *)
Definition pss_zero_bits (cbPSSFormat : nat) (nBitsOfModulus : Z) : Z :=
  SIZE_T_sub (8 * Z.of_nat cbPSSFormat + 1) nBitsOfModulus.

(** The byte length [k] of a modulus of [nBits] bits, and the length
    [emLen = ceil ((nBits - 1) / 8)] of the PSS encoded message. *)
Definition modulus_bytes (nBits : Z) : nat := Z.to_nat ((nBits + 7) / 8).
Definition pss_emLen (nBits : Z) : nat := Z.to_nat ((nBits - 1 + 7) / 8).

(** The PSS encoded message [maskedDB || H' || 0xbc] on [emLen] bytes. *)
Definition pss_encode (h : SYMCRYPT_HASH) (mHash salt : list Z) (emLen : nat) (nBits : Z)
    : list Z :=
  let hLen := SymCryptHashResultSize h in
  let H' := hashFn h (replicate 8 0%Z ++ mHash ++ salt) in
  let cbDB := emLen - (hLen + 1) in
  let DB := replicate (cbDB - length salt - 1) 0%Z ++ [1%Z] ++ salt in
  mask_first (to_BYTE (Z.shiftr 255 (pss_zero_bits emLen nBits)))
    (xor_bytes DB (mgf_mask h H' cbDB))
  ++ H' ++ [188%Z].

(** The block as handed to the exponentiation: one more leading zero
    byte when [nBits mod 8 = 1]. *)
Definition pss_block (h : SYMCRYPT_HASH) (mHash salt : list Z) (nBits : Z) : list Z :=
  (if (nBits mod 8 =? 1)%Z then [0%Z] else [])
  ++ pss_encode h mHash salt (pss_emLen nBits) nBits.

(** What OAEP remove does with a block [0x00 || maskedSeed || maskedDB]
    once the block has passed the first two checks, in terms of the
    recovered data block: the label hash is compared with the [hLen] bytes
    at the start of the data block (which run into the label hash itself
    when the data block is shorter), then the PS scan runs on what follows
    the first [hLen] bytes. *)
Definition oaep_remove_outcome (h : SYMCRYPT_HASH) (pbLabel ms mdb pbScratch : list Z)
    (pbPlaintext : option (list Z)) (pcb0 : Z) : REMOVE_RESULT :=
  let hl := SymCryptHashResultSize h in
  let DB' := oaep_recovered_DB h ms mdb in
  let lh := hashFn h pbLabel in
  if bool_decide (take hl (DB' ++ lh) = lh) then
    match ps_parse (drop hl DB') with
    | None => (SYMCRYPT_INVALID_ARGUMENT, pbPlaintext, pcb0)
    | Some c =>
        let pcb := SIZE_T_sub (Z.of_nat (length mdb)) (Z.of_nat (hl + c)) in
        match pbPlaintext with
        | None => (SYMCRYPT_NO_ERROR, None, pcb)
        | Some out =>
            if (Z.of_nat (length out) <? pcb)%Z then
              (SYMCRYPT_BUFFER_TOO_SMALL, Some out, pcb)
            else
              (SYMCRYPT_NO_ERROR,
               Some (memcpy out 0
                       (drop (hl + c)
                          (DB' ++ lh
                           ++ drop (SymCryptHashStateSize h + hl * 3 + length mdb * 2)
                                pbScratch))
                       (Z.to_nat pcb)),
               pcb)
        end
    end
  else (SYMCRYPT_INVALID_ARGUMENT, pbPlaintext, pcb0).

(** ** Further concrete inputs and closed forms *)

(** A random source that succeeds and hands back zero bytes only. *)
Definition zero_random : RANDOM_CALLBACK unit :=
  fun s cb => (SYMCRYPT_NO_ERROR, replicate cb 0%Z, s).

(** A random source that never fails and hands back, in turn, a zero
    byte and the byte 0xFF; its state counts the bytes handed out. *)
Definition alternating_random : RANDOM_CALLBACK nat :=
  fun s cb =>
    (SYMCRYPT_NO_ERROR,
     map (fun i => if Nat.even (s + i) then 0%Z else 255%Z) (seq 0 cb),
     s + cb).

(** Asked for single bytes from the state [s] on, the random source
    succeeds and hands back a nonzero byte within [n] requests. *)
Fixpoint nonzero_within {RndState : Type} (rnd : RANDOM_CALLBACK RndState)
    (n : nat) (s : RndState) : Prop :=
  match n with
  | O => False
  | S n' =>
      let '(e, bytes, s') := rnd s 1 in
      e = SYMCRYPT_NO_ERROR /\ (load bytes 0 <> 0%Z \/ nonzero_within rnd n' s')
  end.

(** An OID entry is readable when its pointer gives access to the bytes
    its size announces. *)
Definition oids_readable (oids : list SYMCRYPT_OID) : Prop :=
  Forall (fun o => oid_readable (pbOID o) (cbOID o)) oids.

(** The data block [PS || 0x01 || salt] of a PSS encoded message of
    [emLen] bytes. *)
Definition pss_DB (h : SYMCRYPT_HASH) (salt : list Z) (emLen : nat) : list Z :=
  replicate (emLen - (SymCryptHashResultSize h + 1) - length salt - 1) 0%Z
  ++ [1%Z] ++ salt.

(** What PSS verify, called for the hash value [pbHash] and the salt
    length [cbSalt], does with an encoded message of [emLen] bytes that
    has passed the checks of its first and last byte, in terms of the data
    block [DB] it unmasks and of the digest [H] the message carries. *)
Definition pss_verify_outcome (h : SYMCRYPT_HASH) (pbHash : list Z) (cbSalt : nat)
    (DB H : list Z) (emLen : nat) : SYMCRYPT_ERROR :=
  let cbDB := emLen - (SymCryptHashResultSize h + 1) in
  if emLen <? SymCryptHashResultSize h + cbSalt + 2 then SYMCRYPT_INVALID_ARGUMENT
  else if negb (bool_decide (take (cbDB - cbSalt - 1) DB
                             = replicate (cbDB - cbSalt - 1) 0%Z))
  then SYMCRYPT_INVALID_ARGUMENT
  else if negb (load DB (cbDB - cbSalt - 1) =? 1)%Z then SYMCRYPT_INVALID_ARGUMENT
  else if bool_decide (H = hashFn h (replicate 8 0%Z ++ pbHash ++ drop (cbDB - cbSalt) DB))
  then SYMCRYPT_NO_ERROR
  else SYMCRYPT_INVALID_ARGUMENT.

(** The integer a block stands for, most significant byte first. *)
Definition OS2IP (l : list Z) : Z := fold_left (fun acc b => (acc * 256 + b)%Z) l 0%Z.

(** Every element is the value of a byte. *)
Definition is_bytes (l : list Z) : Prop := Forall (fun b => (0 <= b < 256)%Z) l.

(** * Proofs *)

(** * Buffers: reads after writes *)

Lemma length_store p i v : length (store p i v) = length p.
Proof. apply length_insert. Qed.

Lemma length_memcpy dst off src n : length (memcpy dst off src n) = length dst.
Proof. apply length_inserts. Qed.

Lemma length_memset dst off v n : length (memset dst off v n) = length dst.
Proof. apply length_inserts. Qed.

Lemma length_bytes_at p off n : off + n <= length p -> length (bytes_at p off n) = n.
Proof. intros H. unfold bytes_at. rewrite length_take, length_drop. lia. Qed.

Lemma store_inserts p i v : store p i v = list_inserts i [v] p.
Proof. reflexivity. Qed.

Lemma inserts_take_drop (data p : list Z) off :
  off + length data <= length p ->
  list_inserts off data p = take off p ++ data ++ drop (off + length data) p.
Proof.
  intros H.
  rewrite <- (take_drop off p) at 1.
  assert (Hl : length (take off p) = off) by (rewrite length_take; lia).
  rewrite <- Hl at 1. rewrite <- (Nat.add_0_r (length (take off p))).
  rewrite list_inserts_app_r.
  f_equal.
  rewrite <- (take_drop (length data) (drop off p)).
  rewrite list_inserts_0_r.
  - f_equal. rewrite drop_drop. reflexivity.
  - rewrite length_take, length_drop. lia.
Qed.

Lemma bytes_at_inserts_same (data p : list Z) off :
  off + length data <= length p ->
  bytes_at (list_inserts off data p) off (length data) = data.
Proof.
  intros H. rewrite inserts_take_drop by done. unfold bytes_at.
  rewrite drop_app_length'; [ | rewrite length_take; lia ].
  apply take_app_length.
Qed.

Lemma bytes_at_inserts_before (data p : list Z) off off' n :
  off' + n <= off ->
  bytes_at (list_inserts off data p) off' n = bytes_at p off' n.
Proof.
  intros H. unfold bytes_at. apply list_eq. intros i.
  rewrite !lookup_take, !lookup_drop.
  destruct (decide (i < n)) as [Hi|Hi]; simpl; [ | reflexivity].
  apply list_lookup_inserts_lt. lia.
Qed.

Lemma bytes_at_inserts_after (data p : list Z) off off' n :
  off + length data <= off' ->
  bytes_at (list_inserts off data p) off' n = bytes_at p off' n.
Proof.
  intros H. unfold bytes_at. apply list_eq. intros i.
  rewrite !lookup_take, !lookup_drop.
  destruct (decide (i < n)) as [Hi|Hi]; simpl; [ | reflexivity].
  apply list_lookup_inserts_ge. lia.
Qed.

Lemma bytes_at_split p off a b :
  bytes_at p off (a + b) = bytes_at p off a ++ bytes_at p (off + a) b.
Proof.
  unfold bytes_at. rewrite <- drop_drop. rewrite <- take_take_drop. reflexivity.
Qed.

Lemma bytes_at_all p : bytes_at p 0 (length p) = p.
Proof. unfold bytes_at. rewrite drop_0. apply firstn_all. Qed.

Lemma load_inserts_in (data p : list Z) off j :
  off <= j < off + length data -> off + length data <= length p ->
  load (list_inserts off data p) j = load data (j - off).
Proof.
  intros H1 H2. unfold load. rewrite list_lookup_inserts by lia. reflexivity.
Qed.

Lemma load_inserts_out (data p : list Z) off j :
  j < off \/ off + length data <= j ->
  load (list_inserts off data p) j = load p j.
Proof.
  intros [H|H]; unfold load.
  - rewrite list_lookup_inserts_lt by lia. reflexivity.
  - rewrite list_lookup_inserts_ge by lia. reflexivity.
Qed.

Lemma load_bytes_at p off n i : i < n -> load (bytes_at p off n) i = load p (off + i).
Proof.
  intros H. unfold load, bytes_at. rewrite lookup_take_lt by lia. rewrite lookup_drop. reflexivity.
Qed.

Lemma load_app_l (a b : list Z) i : i < length a -> load (a ++ b) i = load a i.
Proof. intros H. unfold load. rewrite lookup_app_l by lia. reflexivity. Qed.

Lemma load_app_r (a b : list Z) i : length a <= i -> load (a ++ b) i = load b (i - length a).
Proof. intros H. unfold load. rewrite lookup_app_r by lia. reflexivity. Qed.

Lemma map_load_seq p off n :
  off + n <= length p ->
  map (fun i => load p (off + i)) (seq 0 n) = bytes_at p off n.
Proof.
  intros H. apply list_eq. intros i. unfold bytes_at.
  rewrite list_lookup_fmap.
  destruct (decide (i < n)) as [Hi|Hi].
  - rewrite lookup_seq_lt by lia. simpl.
    rewrite lookup_take_lt by lia. rewrite lookup_drop.
    unfold load. destruct (lookup_lt_is_Some_2 p (off + i)) as [x Hx]; [lia|].
    rewrite Hx. reflexivity.
  - rewrite lookup_seq_ge by lia. simpl.
    symmetry. apply lookup_ge_None_2. rewrite length_take, length_drop. lia.
Qed.

Lemma memcpy_full dst off src n :
  length src = n -> memcpy dst off src n = list_inserts off src dst.
Proof. intros H. unfold memcpy. rewrite take_ge by lia. reflexivity. Qed.

Lemma take_inserts_end (data p : list Z) off :
  off + length data <= length p ->
  take (off + length data) (list_inserts off data p) = take off p ++ data.
Proof.
  intros H. rewrite inserts_take_drop by done.
  rewrite take_app_add' by (rewrite length_take; lia).
  rewrite take_app_length. reflexivity.
Qed.

Lemma inserts_to_end (data p : list Z) off :
  off + length data = length p ->
  list_inserts off data p = take off p ++ data.
Proof.
  intros H. rewrite inserts_take_drop by lia.
  rewrite drop_ge by lia. rewrite app_nil_r. reflexivity.
Qed.

Lemma bytes_at_inserts_eq (data p : list Z) off off' n :
  off' = off -> n = length data -> off + n <= length p ->
  bytes_at (list_inserts off data p) off' n = data.
Proof. intros -> -> H. by apply bytes_at_inserts_same. Qed.

Lemma bytes_at_insert_eq (p : list Z) i i' v :
  i' = i -> i < length p -> bytes_at (<[i := v]> p) i' 1 = [v].
Proof. intros -> H. apply (bytes_at_inserts_eq [v] p i i 1); simpl; lia. Qed.

Lemma bytes_at_insert_ne (p : list Z) i off n v :
  (off + n <= i \/ i < off) -> bytes_at (<[i := v]> p) off n = bytes_at p off n.
Proof.
  intros [H|H].
  - apply (bytes_at_inserts_before [v] p i off n). lia.
  - apply (bytes_at_inserts_after [v] p i off n). simpl. lia.
Qed.

Lemma bytes_at_inserts_ne (data p : list Z) off off' n :
  (off' + n <= off \/ off + length data <= off') ->
  bytes_at (list_inserts off data p) off' n = bytes_at p off' n.
Proof.
  intros [H|H]; [by apply bytes_at_inserts_before | by apply bytes_at_inserts_after].
Qed.

Lemma bytes_at_0 p off : bytes_at p off 0 = [].
Proof. reflexivity. Qed.

Create Rewrite HintDb len.

#[export] Hint Rewrite @length_inserts @length_insert @length_take @length_drop
  @length_replicate @length_app @length_cons @length_nil length_store length_memcpy
  length_memset : len.

Ltac len := autorewrite with len in *; cbn [length] in *; lia.

Ltac rd :=
  repeat first
    [ rewrite bytes_at_insert_eq by len
    | rewrite bytes_at_insert_ne by len
    | rewrite bytes_at_inserts_eq by len
    | rewrite bytes_at_inserts_ne by len ].

Lemma bytes_cover (r : list Z) n : length r = n -> r = bytes_at r 0 n.
Proof. intros <-. symmetry. apply bytes_at_all. Qed.

Lemma bytes_at_1 (p : list Z) i x : p !! i = Some x -> bytes_at p i 1 = [x].
Proof.
  intros H. unfold bytes_at.
  rewrite (drop_S p x i H). reflexivity.
Qed.

Lemma bytes_at_inserts_sub (data p : list Z) off off' n :
  off <= off' -> off' + n <= off + length data -> off + length data <= length p ->
  bytes_at (list_inserts off data p) off' n = bytes_at data (off' - off) n.
Proof.
  intros H1 H2 H3. unfold bytes_at. apply list_eq. intros i.
  rewrite !lookup_take, !lookup_drop.
  destruct (decide (i < n)) as [Hi|Hi]; simpl; [ | reflexivity].
  rewrite list_lookup_inserts by lia. f_equal. lia.
Qed.

Lemma bytes_at_replicate (v : Z) m off n :
  off + n <= m -> bytes_at (replicate m v) off n = replicate n v.
Proof.
  intros H. unfold bytes_at. rewrite drop_replicate, take_replicate. f_equal. lia.
Qed.

(** * MGF1 *)

Lemma land_shiftr_wrap x k :
  (0 <= k <= 24)%Z ->
  Z.land (Z.shiftr (UINT32_wrap x) k) 255 = Z.land (Z.shiftr x k) 255.
Proof.
  intros Hk. unfold UINT32_wrap. apply Z.bits_inj'. intros n Hn.
  rewrite !Z.land_spec, !Z.shiftr_spec by lia.
  destruct (Z.ltb_spec n 8) as [Hlt|Hge].
  - rewrite Z.mod_pow2_bits_low by lia. reflexivity.
  - change 255%Z with (Z.ones 8). rewrite Z.ones_spec_high by lia.
    rewrite !andb_false_r. reflexivity.
Qed.

Lemma BE32_wrap x : BE32 (UINT32_wrap x) = BE32 x.
Proof.
  unfold BE32.
  rewrite !land_shiftr_wrap by lia.
  rewrite <- (Z.shiftr_0_r (UINT32_wrap x)), <- (Z.shiftr_0_r x) at 1.
  rewrite land_shiftr_wrap by lia. rewrite !Z.shiftr_0_r. reflexivity.
Qed.

Lemma reverse_count_BE32 i rgb :
  length rgb = 4 -> reverse_count (UINT32_bytes i) rgb = BE32 i.
Proof.
  intros H. destruct rgb as [|a [|b [|c [|d [|e rgb]]]]]; simpl in H; try lia.
  reflexivity.
Qed.

Lemma land_255_small c : (0 <= c < 256)%Z -> Z.land c 255 = c.
Proof.
  intros H. change 255%Z with (Z.ones 8). rewrite Z.land_ones by lia.
  apply Z.mod_small. lia.
Qed.

Lemma BE32_small c : (0 <= c < 256)%Z -> BE32 c = [0; 0; 0; c]%Z.
Proof.
  intros H. unfold BE32.
  rewrite !Z.shiftr_div_pow2 by lia.
  rewrite !Z.div_small by lia.
  rewrite (land_255_small c) by done. reflexivity.
Qed.

Lemma avoid_reverse_BE32 c rgb :
  (0 <= c < 256)%Z -> length rgb = 4 -> take 3 rgb = [0; 0; 0]%Z ->
  store rgb 3 (load (UINT32_bytes c) 0) = BE32 c.
Proof.
  intros Hc Hl Ht.
  destruct rgb as [|a [|b [|d [|e [|f rgb]]]]]; simpl in Hl; try lia.
  simpl in Ht. injection Ht as -> -> ->.
  rewrite BE32_small by done. unfold store, load, UINT32_bytes. cbn [lookup list_lookup default].
  rewrite (land_255_small c) by done. reflexivity.
Qed.

Lemma length_BE32 c : length (BE32 c) = 4.
Proof. reflexivity. Qed.

Lemma ceil_zero rem h : 0 < h -> (rem + (h - 1)) / h = 0 -> rem = 0.
Proof.
  intros Hh H. apply Nat.div_small_iff in H; lia.
Qed.

Lemma ceil_step rem h n :
  0 < h -> h <= rem -> (rem + (h - 1)) / h = S n -> (rem - h + (h - 1)) / h = n.
Proof.
  intros Hh Hle H.
  replace (rem + (h - 1)) with ((rem - h + (h - 1)) + 1 * h) in H by lia.
  rewrite Nat.div_add in H by lia. lia.
Qed.

Lemma ceil_last rem h n :
  0 < h -> rem < h -> (rem + (h - 1)) / h = S n -> n = 0 /\ 0 < rem.
Proof.
  intros Hh Hlt H.
  destruct (decide (rem = 0)) as [->|Hne].
  - rewrite Nat.div_small in H by lia. lia.
  - assert ((rem + (h - 1)) / h < 2); [ | lia].
    apply Nat.Div0.div_lt_upper_bound. lia.
Qed.

Lemma mgf_loop_spec (h : SYMCRYPT_HASH) (src : list Z) (fAvoid : bool) :
  hash_wf h ->
  forall n c i rgb rem idx dst,
    idx + rem = length dst ->
    n = (rem + (SymCryptHashResultSize h - 1)) / SymCryptHashResultSize h ->
    length rgb = 4 ->
    i = UINT32_wrap (Z.of_nat c) ->
    (fAvoid = true -> c + n <= 256 /\ take 3 rgb = [0; 0; 0]%Z) ->
    mgf_loop h src fAvoid n i rgb rem idx dst =
    take idx dst ++ take rem (concat (map (mgf_block h src) (seq c n))).
Proof.
  intros (Hpos & Hmax & Hlen).
  induction n as [|n IH]; intros c i rgb rem idx dst Hidx Hn Hrgb Hi Hav.
  - symmetry in Hn. apply ceil_zero in Hn; [ | done]. subst rem.
    cbn [mgf_loop]. rewrite take_0, app_nil_r. rewrite firstn_all2 by lia. reflexivity.
  - cbn [mgf_loop]. cbv zeta.
    set (rgb' := if fAvoid then store rgb 3 (load (UINT32_bytes i) 0)
                 else reverse_count (UINT32_bytes i) rgb).
    assert (Hrgb' : rgb' = BE32 (Z.of_nat c)).
    { subst rgb'. destruct fAvoid.
      - destruct (Hav eq_refl) as [Hc Ht].
        assert (Hi' : i = Z.of_nat c).
        { subst i. unfold UINT32_wrap. apply Z.mod_small. lia. }
        rewrite Hi'. apply avoid_reverse_BE32; [lia | done | done].
      - rewrite reverse_count_BE32 by done. subst i. apply BE32_wrap. }
    rewrite Hrgb'.
    unfold SymCryptHashAppend, SymCryptHashInit, SymCryptHashResult. simpl app.
    fold (mgf_block h src c).
    assert (Hb : length (mgf_block h src c) = SymCryptHashResultSize h) by apply Hlen.
    destruct (Nat.leb_spec (SymCryptHashResultSize h) rem) as [Hle|Hgt].
    + rewrite (IH (S c)).
      * rewrite memcpy_full by done.
        rewrite <- Hb at 1. rewrite take_inserts_end by lia.
        cbn [seq map concat].
        rewrite <- app_assoc. f_equal.
        rewrite (take_app _ _ rem). rewrite (take_ge (mgf_block h src c)) by lia.
        rewrite Hb. reflexivity.
      * rewrite length_memcpy. lia.
      * symmetry. apply ceil_step; [done | done | congruence].
      * reflexivity.
      * subst i. unfold UINT32_wrap. rewrite Zplus_mod_idemp_l. f_equal. lia.
      * intros Hf. destruct (Hav Hf) as [Hc Ht]. split; [lia | ].
        rewrite BE32_small by lia. reflexivity.
    + symmetry in Hn. destruct (ceil_last _ _ _ Hpos Hgt Hn) as [-> Hrem].
      cbn [seq map concat]. rewrite app_nil_r.
      rewrite (memcpy_full _ 0 (mgf_block h src c)) by done.
      rewrite inserts_take_drop
        by (rewrite length_replicate; unfold SYMCRYPT_HASH_MAX_RESULT_SIZE in *; lia).
      rewrite take_0. cbn [app].
      unfold memcpy. rewrite take_app_le by lia.
      rewrite inserts_to_end by (rewrite length_take; lia).
      reflexivity.
Qed.

Lemma mgf_generation_mask (h : SYMCRYPT_HASH) (src dst : list Z) :
  hash_wf h ->
  SymCryptRsaPaddingMaskGeneration h src dst = mgf_mask h src (length dst).
Proof.
  intros Hwf. unfold SymCryptRsaPaddingMaskGeneration, mgf_mask.
  rewrite (mgf_loop_spec h src _ Hwf _ 0 0%Z [0; 0; 0; 0]%Z (length dst) 0 dst);
    try reflexivity.
  intros Hf. apply Nat.ltb_lt in Hf. split; [lia | reflexivity].
Qed.

Lemma length_mgf_mask h src n : hash_wf h -> length (mgf_mask h src n) = n.
Proof.
  intros (Hpos & Hmax & Hlen). unfold mgf_mask.
  rewrite length_take. apply Nat.min_l.
  set (hl := SymCryptHashResultSize h) in *.
  assert (Hc : forall k c, length (concat (map (mgf_block h src) (seq c k))) = k * hl).
  { induction k as [|k IHk]; intros c; [reflexivity|].
    cbn [seq map concat]. rewrite length_app, IHk. unfold mgf_block. rewrite Hlen. lia. }
  rewrite Hc.
  pose proof (Nat.div_mod (n + (hl - 1)) hl ltac:(lia)) as Hd.
  pose proof (Nat.mod_upper_bound (n + (hl - 1)) hl ltac:(lia)) as Hm.
  nia.
Qed.

#[export] Hint Rewrite length_mgf_mask using assumption : len.

(** * PKCS#1 v1.5 signature padding *)

Lemma length_sig_encoding pbHash pbHashOid cbHashOid flags :
  oid_readable pbHashOid cbHashOid ->
  length (sig_encoding pbHash pbHashOid cbHashOid flags) =
  if (Z.land flags SYMCRYPT_FLAG_RSA_PKCS1_NO_ASN1 =? 0)%Z then
    if match pbHashOid with Some _ => 0 <? cbHashOid | None => false end
    then 6 + cbHashOid + length pbHash else 2 + length pbHash
  else length pbHash.
Proof.
  intros Hoid. unfold sig_encoding.
  destruct (Z.land flags SYMCRYPT_FLAG_RSA_PKCS1_NO_ASN1 =? 0)%Z; [ | reflexivity].
  destruct pbHashOid as [oid|]; [ | reflexivity].
  destruct (0 <? cbHashOid); [ | reflexivity].
  simpl in Hoid. len.
Qed.

Lemma apply_sig_result pbHash pbHashOid cbHashOid flags buf :
  oid_readable pbHashOid cbHashOid ->
  SymCryptRsaPkcs1ApplySignaturePadding pbHash pbHashOid cbHashOid flags buf =
  if sig_args_ok pbHash pbHashOid cbHashOid flags (length buf)
  then (SYMCRYPT_NO_ERROR,
        pkcs1_sig_block (length buf) (sig_encoding pbHash pbHashOid cbHashOid flags))
  else (SYMCRYPT_INVALID_ARGUMENT, buf).
Proof.
  intros Hoid.
  unfold SymCryptRsaPkcs1ApplySignaturePadding, sig_args_ok.
  rewrite length_sig_encoding by done.
  destruct (Z.land flags (UINT32_not SYMCRYPT_FLAG_RSA_PKCS1_NO_ASN1) =? 0)%Z;
    [ | reflexivity].
  cbn [negb andb].
  unfold pkcs1_sig_block. rewrite length_sig_encoding by done. unfold sig_encoding.
  destruct (Z.land flags SYMCRYPT_FLAG_RSA_PKCS1_NO_ASN1 =? 0)%Z.
  - destruct pbHashOid as [oid|].
    + simpl in Hoid. destruct (Nat.ltb_spec 0 cbHashOid) as [Hpos|Hz]; cbn [negb andb].
      * set (tLen := 6 + cbHashOid + length pbHash).
        destruct (Nat.ltb_spec 128 tLen), (Nat.leb_spec tLen 128); try lia;
          [reflexivity | ].
        destruct (Nat.ltb_spec (length buf) (3 + 8 + tLen)),
                 (Nat.leb_spec (3 + 8 + tLen) (length buf)); try lia; [reflexivity | ].
        cbn [andb]. f_equal.
        set (pad := length buf - 3 - tLen).
        assert (Hbuf : length buf = 3 + pad + tLen) by (subst pad; lia).
        assert (HtLen : tLen = 6 + cbHashOid + length pbHash) by reflexivity.
        clearbody pad tLen.
        unfold memcpy, memset, store.
        rewrite (take_ge pbHash) by lia.
        rewrite (bytes_cover _
                   (1 + (1 + (pad + (1 + (1 + (1 + (1 + (1 + (cbHashOid
                    + (1 + (1 + length pbHash)))))))))))) at 1 by len.
        rewrite !bytes_at_split.
        rd. reflexivity.
      * assert (cbHashOid = 0) as -> by lia.
        set (tLen := 2 + length pbHash).
        destruct (Nat.ltb_spec 128 tLen), (Nat.leb_spec tLen 128); try lia;
          [reflexivity | ].
        destruct (Nat.ltb_spec (length buf) (3 + 8 + tLen)),
                 (Nat.leb_spec (3 + 8 + tLen) (length buf)); try lia; [reflexivity | ].
        cbn [andb]. f_equal.
        set (pad := length buf - 3 - tLen).
        assert (Hbuf : length buf = 3 + pad + tLen) by (subst pad; lia).
        assert (HtLen : tLen = 2 + length pbHash) by reflexivity.
        clearbody pad tLen.
        unfold memcpy, memset, store.
        rewrite (take_ge pbHash) by lia.
        rewrite (bytes_cover _ (1 + (1 + (pad + (1 + (1 + (1 + length pbHash))))))) at 1 by len.
        rewrite !bytes_at_split.
        rd. reflexivity.
    + destruct (Nat.ltb_spec 0 cbHashOid) as [Hpos|Hz]; cbn [negb andb]; [reflexivity | ].
      assert (cbHashOid = 0) as -> by lia.
      set (tLen := 2 + length pbHash).
      destruct (Nat.ltb_spec 128 tLen), (Nat.leb_spec tLen 128); try lia;
        [reflexivity | ].
      destruct (Nat.ltb_spec (length buf) (3 + 8 + tLen)),
               (Nat.leb_spec (3 + 8 + tLen) (length buf)); try lia; [reflexivity | ].
      cbn [andb]. f_equal.
      set (pad := length buf - 3 - tLen).
      assert (Hbuf : length buf = 3 + pad + tLen) by (subst pad; lia).
      assert (HtLen : tLen = 2 + length pbHash) by reflexivity.
      clearbody pad tLen.
      unfold memcpy, memset, store.
      rewrite (take_ge pbHash) by lia.
      rewrite (bytes_cover _ (1 + (1 + (pad + (1 + (1 + (1 + length pbHash))))))) at 1 by len.
      rewrite !bytes_at_split.
      rd. reflexivity.
  - cbn [negb andb].
    set (tLen := length pbHash).
    destruct (Nat.ltb_spec 128 tLen), (Nat.leb_spec tLen 128); try lia;
      [reflexivity | ].
    destruct (Nat.ltb_spec (length buf) (3 + 8 + tLen)),
             (Nat.leb_spec (3 + 8 + tLen) (length buf)); try lia; [reflexivity | ].
    cbn [andb]. f_equal.
    set (pad := length buf - 3 - tLen).
    assert (Hbuf : length buf = 3 + pad + tLen) by (subst pad; lia).
    assert (HtLen : tLen = length pbHash) by reflexivity.
    clearbody pad tLen.
    unfold memcpy, memset, store.
    rewrite (take_ge pbHash) by lia.
    rewrite (bytes_cover _ (1 + (1 + (pad + (1 + length pbHash))))) at 1 by len.
    rewrite !bytes_at_split.
    rd. reflexivity.
Qed.

Lemma to_BYTE_small x : (0 <= x < 256)%Z -> to_BYTE x = x.
Proof. intros H. unfold to_BYTE. apply Z.mod_small. lia. Qed.

Lemma wipe_all (scr : list Z) : SymCryptWipe scr 0 (length scr) = replicate (length scr) 0%Z.
Proof.
  unfold SymCryptWipe, memset. rewrite inserts_to_end by len.
  rewrite take_0. reflexivity.
Qed.

(** C6: with NO_ASN1 clear and an OID of [oLen > 0] bytes supplied, a
    successful signature apply leaves [0x00 || 0x01 || PS || 0x00 || T] in
    the block, [PS] all [0xFF] and [T = 0x30 || tLen-2 || 0x30 || oLen ||
    OID || 0x04 || hLen || hash] with [tLen = 6 + oLen + hLen]; the call
    returns [SYMCRYPT_INVALID_ARGUMENT] whenever [tLen > 0x80], or
    [k < 3 + 8 + tLen], or a flag bit other than NO_ASN1 is set. *)
Theorem pkcs1_sig_apply_digestinfo (pbHash oid : list Z) (flags : Z) (buf : list Z) :
  0 < length oid ->
  Z.land flags SYMCRYPT_FLAG_RSA_PKCS1_NO_ASN1 = 0%Z ->
  (Z.land flags (UINT32_not SYMCRYPT_FLAG_RSA_PKCS1_NO_ASN1) = 0%Z ->
   6 + length oid + length pbHash <= 128 ->
   3 + 8 + (6 + length oid + length pbHash) <= length buf ->
   SymCryptRsaPkcs1ApplySignaturePadding pbHash (Some oid) (length oid) flags buf =
   (SYMCRYPT_NO_ERROR,
    [0; 1]%Z
    ++ replicate (length buf - 3 - (6 + length oid + length pbHash)) 255%Z
    ++ [0%Z]
    ++ [48%Z; (Z.of_nat (6 + length oid + length pbHash) - 2)%Z; 48%Z;
        Z.of_nat (length oid)]
    ++ oid
    ++ [4%Z; Z.of_nat (length pbHash)]
    ++ pbHash))
  /\
  (Z.land flags (UINT32_not SYMCRYPT_FLAG_RSA_PKCS1_NO_ASN1) <> 0%Z
   \/ 128 < 6 + length oid + length pbHash
   \/ length buf < 3 + 8 + (6 + length oid + length pbHash) ->
   fst (SymCryptRsaPkcs1ApplySignaturePadding pbHash (Some oid) (length oid) flags buf)
   = SYMCRYPT_INVALID_ARGUMENT).
Proof.
  intros Hpos Hno.
  assert (Hlen : length (sig_encoding pbHash (Some oid) (length oid) flags)
                 = 6 + length oid + length pbHash).
  { rewrite length_sig_encoding by (simpl; lia). rewrite Hno. simpl.
    destruct (Nat.ltb_spec 0 (length oid)); [reflexivity | lia]. }
  rewrite apply_sig_result by (simpl; lia).
  unfold sig_args_ok. rewrite Hlen, Hno. cbn [Z.eqb andb negb].
  split.
  - intros Hfl Ht Hk. rewrite Hfl. cbn [Z.eqb andb].
    destruct (Nat.leb_spec (6 + length oid + length pbHash) 128); [ | lia].
    destruct (Nat.leb_spec (3 + 8 + (6 + length oid + length pbHash)) (length buf)); [ | lia].
    cbn [andb]. f_equal. unfold pkcs1_sig_block. rewrite Hlen.
    unfold sig_encoding. rewrite Hno. cbn [Z.eqb].
    destruct (Nat.ltb_spec 0 (length oid)); [ | lia].
    rewrite take_ge by lia.
    unfold ASN1_SEQUENCE_BYTE, ASN1_OCTET_STRING_BYTE.
    rewrite (to_BYTE_small (Z.of_nat (6 + length oid + length pbHash))) by lia.
    rewrite !to_BYTE_small by lia.
    reflexivity.
  - intros Hbad.
    destruct (Z.eqb_spec (Z.land flags (UINT32_not SYMCRYPT_FLAG_RSA_PKCS1_NO_ASN1)) 0);
      [ | reflexivity].
    cbn [andb].
    destruct (Nat.leb_spec (6 + length oid + length pbHash) 128); [ | reflexivity].
    destruct (Nat.leb_spec (3 + 8 + (6 + length oid + length pbHash)) (length buf));
      [ | reflexivity].
    lia.
Qed.

(** C6 at scenario S2 of the spec: SHA-256 long OID, a digest of 32 zero
    bytes, a block of 256 bytes. *)
Lemma pkcs1_sig_apply_digestinfo_witness :
  0 < length sha256_oid_long /\
  Z.land 0 SYMCRYPT_FLAG_RSA_PKCS1_NO_ASN1 = 0%Z /\
  SymCryptRsaPkcs1ApplySignaturePadding (replicate 32 0%Z) (Some sha256_oid_long) 13 0%Z
    (replicate 256 7%Z)
  = (SYMCRYPT_NO_ERROR,
     [0; 1]%Z ++ replicate 202 255%Z
     ++ [0; 48; 49; 48; 13; 6; 9; 96; 134; 72; 1; 101; 3; 4; 2; 1; 5; 0; 4; 32]%Z
     ++ replicate 32 0%Z).
Proof.
  split; [vm_compute; lia | ]. split; [reflexivity | ].
  apply (pkcs1_sig_apply_digestinfo (replicate 32 0%Z) sha256_oid_long 0%Z (replicate 256 7%Z));
    [vm_compute; lia | reflexivity | reflexivity | vm_compute; lia | vm_compute; lia].
Defined.

(** C9: signature apply is a function of the digest, the OID, the flags
    and the block length alone.  The embedded function takes no random
    source (the source calls none); what is left to vary between two
    calls with equal inputs is the prior content of the output block, and
    neither the result nor the block written depends on it.  The check,
    which re-encodes into the scratch block, is therefore independent of
    what the scratch block held. *)
Theorem pkcs1_sig_apply_deterministic
    (pbHash : list Z) (pbHashOid : option (list Z)) (cbHashOid : nat) (flags : Z)
    (buf1 buf2 : list Z) :
  oid_readable pbHashOid cbHashOid ->
  length buf1 = length buf2 ->
  fst (SymCryptRsaPkcs1ApplySignaturePadding pbHash pbHashOid cbHashOid flags buf1)
  = fst (SymCryptRsaPkcs1ApplySignaturePadding pbHash pbHashOid cbHashOid flags buf2)
  /\
  (fst (SymCryptRsaPkcs1ApplySignaturePadding pbHash pbHashOid cbHashOid flags buf1)
   = SYMCRYPT_NO_ERROR ->
   snd (SymCryptRsaPkcs1ApplySignaturePadding pbHash pbHashOid cbHashOid flags buf1)
   = snd (SymCryptRsaPkcs1ApplySignaturePadding pbHash pbHashOid cbHashOid flags buf2)
   /\ length (snd (SymCryptRsaPkcs1ApplySignaturePadding pbHash pbHashOid cbHashOid flags buf1))
      = length buf1)
  /\
  (forall pbPKCS1Format,
     length pbPKCS1Format = length buf1 ->
     SymCryptRsaPkcs1CheckSignaturePadding pbHash pbHashOid cbHashOid pbPKCS1Format flags buf1
     = SymCryptRsaPkcs1CheckSignaturePadding pbHash pbHashOid cbHashOid pbPKCS1Format flags buf2).
Proof.
  intros Hoid Hlen.
  rewrite !apply_sig_result by done. rewrite <- Hlen.
  split; [ | split].
  - destruct (sig_args_ok _ _ _ _ _); reflexivity.
  - destruct (sig_args_ok _ _ _ _ _) eqn:Hok; [ | discriminate].
    intros _. split; [reflexivity | ]. cbn [snd].
    unfold sig_args_ok in Hok. apply andb_prop in Hok as [_ Hk].
    apply Nat.leb_le in Hk. unfold pkcs1_sig_block. len.
  - intros block Hb. unfold SymCryptRsaPkcs1CheckSignaturePadding.
    rewrite Hb. rewrite wipe_all. rewrite Hlen. rewrite wipe_all. reflexivity.
Qed.

(** C9 on two blocks of 64 bytes with different prior contents, for a
    SHA-1 sized digest and its long OID. *)
Lemma pkcs1_sig_apply_deterministic_witness :
  oid_readable (Some [6; 5; 43; 14; 3; 2; 26; 5; 0]%Z) 9 /\
  length (replicate 64 0%Z) = length (replicate 64 170%Z) /\
  snd (SymCryptRsaPkcs1ApplySignaturePadding (replicate 20 17%Z)
         (Some [6; 5; 43; 14; 3; 2; 26; 5; 0]%Z) 9 0%Z (replicate 64 0%Z))
  = snd (SymCryptRsaPkcs1ApplySignaturePadding (replicate 20 17%Z)
           (Some [6; 5; 43; 14; 3; 2; 26; 5; 0]%Z) 9 0%Z (replicate 64 170%Z)).
Proof.
  split; [vm_compute; lia | ]. split; [reflexivity | ].
  apply (pkcs1_sig_apply_deterministic (replicate 20 17%Z)
           (Some [6; 5; 43; 14; 3; 2; 26; 5; 0]%Z) 9 0%Z
           (replicate 64 0%Z) (replicate 64 170%Z));
    [vm_compute; lia | reflexivity | reflexivity].
Defined.

(** C10: the single-OID check hands back the error of the internal
    re-apply, which is [SYMCRYPT_INVALID_ARGUMENT], whenever the re-apply
    fails; it does so on a flag bit other than NO_ASN1, on a [NULL] OID
    with a nonzero length, on an encoding [T] longer than 0x80 bytes and
    on a block shorter than [3 + 8 + tLen].
    [SYMCRYPT_SIGNATURE_VERIFICATION_FAILURE] is returned exactly when the
    re-apply succeeds and the comparison of the re-encoded block with the
    observed block fails. *)
Theorem pkcs1_sig_check_errors
    (pbHash : list Z) (pbHashOid : option (list Z)) (cbHashOid : nat)
    (pbPKCS1Format : list Z) (flags : Z) (pbScratch : list Z) :
  oid_readable pbHashOid cbHashOid ->
  length pbScratch = length pbPKCS1Format ->
  (fst (SymCryptRsaPkcs1ApplySignaturePadding pbHash pbHashOid cbHashOid flags
          (SymCryptWipe pbScratch 0 (length pbPKCS1Format))) <> SYMCRYPT_NO_ERROR ->
   fst (SymCryptRsaPkcs1CheckSignaturePadding pbHash pbHashOid cbHashOid
          pbPKCS1Format flags pbScratch)
   = fst (SymCryptRsaPkcs1ApplySignaturePadding pbHash pbHashOid cbHashOid flags
            (SymCryptWipe pbScratch 0 (length pbPKCS1Format)))
   /\ fst (SymCryptRsaPkcs1CheckSignaturePadding pbHash pbHashOid cbHashOid
             pbPKCS1Format flags pbScratch)
      = SYMCRYPT_INVALID_ARGUMENT)
  /\
  (Z.land flags (UINT32_not SYMCRYPT_FLAG_RSA_PKCS1_NO_ASN1) <> 0%Z
   \/ (Z.land flags SYMCRYPT_FLAG_RSA_PKCS1_NO_ASN1 = 0%Z
       /\ pbHashOid = None /\ 0 < cbHashOid)
   \/ 128 < length (sig_encoding pbHash pbHashOid cbHashOid flags)
   \/ length pbPKCS1Format
      < 3 + 8 + length (sig_encoding pbHash pbHashOid cbHashOid flags) ->
   fst (SymCryptRsaPkcs1CheckSignaturePadding pbHash pbHashOid cbHashOid
          pbPKCS1Format flags pbScratch)
   = SYMCRYPT_INVALID_ARGUMENT)
  /\
  (fst (SymCryptRsaPkcs1CheckSignaturePadding pbHash pbHashOid cbHashOid
          pbPKCS1Format flags pbScratch)
   = SYMCRYPT_SIGNATURE_VERIFICATION_FAILURE
   <->
   fst (SymCryptRsaPkcs1ApplySignaturePadding pbHash pbHashOid cbHashOid flags
          (SymCryptWipe pbScratch 0 (length pbPKCS1Format))) = SYMCRYPT_NO_ERROR
   /\ SymCryptEqual
        (snd (SymCryptRsaPkcs1ApplySignaturePadding pbHash pbHashOid cbHashOid flags
                (SymCryptWipe pbScratch 0 (length pbPKCS1Format))))
        pbPKCS1Format (length pbPKCS1Format) = false).
Proof.
  intros Hoid Hlen.
  unfold SymCryptRsaPkcs1CheckSignaturePadding.
  rewrite !apply_sig_result by done.
  rewrite <- Hlen. rewrite wipe_all. rewrite length_replicate.
  destruct (sig_args_ok pbHash pbHashOid cbHashOid flags (length pbScratch)) eqn:Hok;
    cbn [fst snd is_no_error negb].
  - split; [intros H; congruence | ]. split.
    + intros Hbad. exfalso. unfold sig_args_ok in Hok.
      apply andb_prop in Hok as [Hok Hk]. apply andb_prop in Hok as [Hok Ht].
      apply andb_prop in Hok as [Hfl Hnull].
      apply Z.eqb_eq in Hfl. apply Nat.leb_le in Ht, Hk.
      destruct Hbad as [Hb|[(Hno & -> & Hpos)|[Hb|Hb]]]; [done | | lia | lia].
      rewrite Hno in Hnull. cbn [Z.eqb andb] in Hnull.
      destruct (Nat.ltb_spec 0 cbHashOid); [discriminate | lia].
    + destruct (SymCryptEqual _ _ _); cbn [fst]; split; intros H;
        try discriminate; try reflexivity; try (split; reflexivity).
      destruct H as [_ H]. discriminate.
  - split; [intros _; split; reflexivity | ]. split; [intros _; reflexivity | ].
    split; [discriminate | intros [H _]; discriminate].
Qed.

(** C10 on a block too short for a SHA-512 sized digest with its long
    OID (the re-apply fails) . *)
Lemma pkcs1_sig_check_errors_witness :
  oid_readable (Some [6; 9; 96; 134; 72; 1; 101; 3; 4; 2; 3; 5; 0]%Z) 13 /\
  length (replicate 64 9%Z) = length (replicate 64 1%Z) /\
  fst (SymCryptRsaPkcs1CheckSignaturePadding (replicate 64 5%Z)
         (Some [6; 9; 96; 134; 72; 1; 101; 3; 4; 2; 3; 5; 0]%Z) 13
         (replicate 64 1%Z) 0%Z (replicate 64 9%Z))
  = SYMCRYPT_INVALID_ARGUMENT.
Proof.
  split; [vm_compute; lia | ]. split; [reflexivity | ].
  apply (proj1 (proj2 (pkcs1_sig_check_errors (replicate 64 5%Z)
                         (Some [6; 9; 96; 134; 72; 1; 101; 3; 4; 2; 3; 5; 0]%Z) 13
                         (replicate 64 1%Z) 0%Z (replicate 64 9%Z)
                         ltac:(vm_compute; lia) ltac:(reflexivity)))).
  right. right. right. vm_compute. lia.
Defined.

(** With the [NULL] OID pointer and no flag, verification is the single
    check of the block against the padding without DigestInfo. *)
Lemma pkcs1_verify_null_oids (pbHash pbPKCS1Format pbScratch : list Z) :
  SymCryptRsaPkcs1VerifySignaturePadding pbHash None pbPKCS1Format 0%Z pbScratch
  = fst (SymCryptRsaPkcs1CheckSignaturePadding pbHash None 0 pbPKCS1Format
           SYMCRYPT_FLAG_RSA_PKCS1_NO_ASN1 (take (length pbPKCS1Format) pbScratch)).
Proof. reflexivity. Qed.

(** C1 fails on the code: handed an OID array that is not [NULL] but has
    no entry, and no flag, verification runs no check at all and returns
    [SYMCRYPT_NO_ERROR], whatever the block holds. *)
Theorem pkcs1_verify_empty_oid_array_accepts (pbHash pbPKCS1Format pbScratch : list Z) :
  SymCryptRsaPkcs1VerifySignaturePadding pbHash (Some []) pbPKCS1Format 0%Z pbScratch
  = SYMCRYPT_NO_ERROR.
Proof. reflexivity. Qed.

(** The block of 32 zero bytes is not a padding of the digest [1; 2; 3; 4]:
    the fallback check rejects it, verification with an empty array
    accepts it. *)
Example pkcs1_verify_empty_oid_array_diverges :
  fst (SymCryptRsaPkcs1CheckSignaturePadding [1; 2; 3; 4]%Z None 0 (replicate 32 0%Z)
         SYMCRYPT_FLAG_RSA_PKCS1_NO_ASN1 (replicate 32 0%Z))
  = SYMCRYPT_SIGNATURE_VERIFICATION_FAILURE
  /\ SymCryptRsaPkcs1VerifySignaturePadding [1; 2; 3; 4]%Z (Some []) (replicate 32 0%Z) 0%Z
       (replicate 32 0%Z)
     = SYMCRYPT_NO_ERROR.
Proof. split; vm_compute; reflexivity. Qed.

(** * PKCS#1 v1.5 encryption padding *)

Section RandomSource.

Context {RndState : Type} (rnd : RANDOM_CALLBACK RndState).

Lemma callback_random_frame s buf off cb e buf' s' :
  SymCryptCallbackRandom rnd s buf off cb = (e, buf', s') ->
  length buf' = length buf /\
  forall j, (j < off \/ off + cb <= j) -> buf' !! j = buf !! j.
Proof.
  unfold SymCryptCallbackRandom. destruct (rnd s cb) as [[e0 bytes] s0].
  intros [= <- <- <-].
  destruct (is_no_error e0); [ | split; [reflexivity | intros; reflexivity]].
  unfold memcpy. split; [apply length_inserts | ].
  intros j [H|H].
  - apply list_lookup_inserts_lt. lia.
  - apply list_lookup_inserts_ge. rewrite length_take. lia.
Qed.

Lemma redraw_loop_ok fuel : forall s buf idx buf' s',
  redraw_loop rnd fuel s buf idx = Some (SYMCRYPT_NO_ERROR, buf', s') ->
  length buf' = length buf /\
  load buf' idx <> 0%Z /\
  forall j, j <> idx -> buf' !! j = buf !! j.
Proof.
  induction fuel as [|fuel IH]; intros s buf idx buf' s'; cbn [redraw_loop].
  - destruct (Z.eqb_spec (load buf idx) 0) as [Hz|Hnz]; [discriminate | ].
    intros [= <- <-]. auto.
  - destruct (Z.eqb_spec (load buf idx) 0) as [Hz|Hnz].
    + destruct (SymCryptCallbackRandom rnd s buf idx 1) as [[e b1] s1] eqn:Hcb.
      apply callback_random_frame in Hcb as [Hl Hfr].
      destruct e; cbn [is_no_error]; try (intros Hx; discriminate Hx).
      intros Hrec. apply IH in Hrec as (Hl' & Hnz' & Hfr').
      split; [congruence | ]. split; [done | ].
      intros j Hj. rewrite Hfr' by done. apply Hfr. lia.
    + intros [= <- <-]. auto.
Qed.

Lemma nonzero_loop_ok fuel : forall n i s buf buf' s',
  nonzero_loop rnd fuel n i s buf = Some (SYMCRYPT_NO_ERROR, buf', s') ->
  length buf' = length buf /\
  (forall j, 2 + i <= j < 2 + i + n -> load buf' j <> 0%Z) /\
  (forall j, (j < 2 + i \/ 2 + i + n <= j) -> buf' !! j = buf !! j).
Proof.
  induction n as [|n IH]; intros i s buf buf' s'; cbn [nonzero_loop].
  - intros [= <- <-]. split; [done | ]. split; [intros; lia | done].
  - destruct (redraw_loop rnd fuel s buf (2 + i)) as [[[e b1] s1]|] eqn:Hrd;
      [ | discriminate].
    destruct e; cbn [is_no_error]; try (intros Hx; discriminate Hx).
    apply redraw_loop_ok in Hrd as (Hl1 & Hnz1 & Hfr1).
    intros Hrec. apply IH in Hrec as (Hl2 & Hnz2 & Hfr2).
    split; [congruence | ]. split.
    + intros j Hj. destruct (decide (j = 2 + i)) as [->|Hne].
      * unfold load. rewrite Hfr2 by lia. exact Hnz1.
      * apply Hnz2. lia.
    + intros j Hj. rewrite Hfr2 by lia. apply Hfr1. lia.
Qed.

(** Fuel only bounds the redraws: a run that has ended is the same run
    under any larger bound. *)
Lemma redraw_loop_mono fuel : forall fuel' s buf idx r,
  redraw_loop rnd fuel s buf idx = Some r -> fuel <= fuel' ->
  redraw_loop rnd fuel' s buf idx = Some r.
Proof.
  induction fuel as [|fuel IH]; intros fuel' s buf idx r; cbn [redraw_loop].
  - destruct (load buf idx =? 0)%Z eqn:Hz; [discriminate | ].
    intros Hr _. destruct fuel'; cbn [redraw_loop]; rewrite Hz; exact Hr.
  - destruct (load buf idx =? 0)%Z eqn:Hz.
    + intros Hr Hle. destruct fuel' as [|fuel']; [lia | ].
      cbn [redraw_loop]. rewrite Hz.
      destruct (SymCryptCallbackRandom rnd s buf idx 1) as [[e b1] s1].
      destruct (is_no_error e); [ | exact Hr].
      apply IH; [exact Hr | lia].
    + intros Hr _. destruct fuel'; cbn [redraw_loop]; rewrite Hz; exact Hr.
Qed.

Lemma nonzero_loop_mono fuel fuel' : forall n i s buf r,
  nonzero_loop rnd fuel n i s buf = Some r -> fuel <= fuel' ->
  nonzero_loop rnd fuel' n i s buf = Some r.
Proof.
  induction n as [|n IH]; intros i s buf r; cbn [nonzero_loop]; [intros; done | ].
  destruct (redraw_loop rnd fuel s buf (2 + i)) as [[[e b1] s1]|] eqn:Hrd;
    [ | discriminate].
  intros Hr Hle. rewrite (redraw_loop_mono fuel fuel' _ _ _ _ Hrd Hle).
  destruct (is_no_error e); [ | exact Hr].
  apply IH; done.
Qed.

Lemma pkcs1_enc_apply_mono fuel fuel' s M flags buf r :
  SymCryptRsaPkcs1ApplyEncryptionPadding rnd fuel s M flags buf = Some r ->
  fuel <= fuel' ->
  SymCryptRsaPkcs1ApplyEncryptionPadding rnd fuel' s M flags buf = Some r.
Proof.
  unfold SymCryptRsaPkcs1ApplyEncryptionPadding.
  destruct (negb (flags =? 0)%Z || (length buf <? length M + 11)); [intros; done | ].
  destruct (SymCryptCallbackRandom rnd s (store (store buf 0 0%Z) 1 PKCS_BLOCKTYPE_2) 2
              (length buf - (length M + 3))) as [[e b0] s0].
  destruct (negb (is_no_error e)); [intros; done | ].
  destruct (nonzero_loop rnd fuel (length buf - (length M + 3)) 0 s0 b0)
    as [r1|] eqn:Hnz; [ | discriminate].
  intros Hr Hle. rewrite (nonzero_loop_mono fuel fuel' _ _ _ _ _ Hnz Hle). exact Hr.
Qed.

(** A successful apply leaves [0x00 || 0x02 || PS || 0x00 || M] in the
    block, with [PS] free of zero bytes. *)
Lemma pkcs1_enc_apply_shape fuel s M flags buf EM s' :
  SymCryptRsaPkcs1ApplyEncryptionPadding rnd fuel s M flags buf
  = Some (SYMCRYPT_NO_ERROR, EM, s') ->
  length M + 11 <= length buf /\
  exists PS, EM = [0; 2]%Z ++ PS ++ [0%Z] ++ M
             /\ length PS = length buf - (length M + 3)
             /\ Forall (fun b => b <> 0%Z) PS.
Proof.
  unfold SymCryptRsaPkcs1ApplyEncryptionPadding.
  destruct (Z.eqb_spec flags 0) as [Hf|Hf]; cbn [negb orb]; [ | discriminate].
  destruct (Nat.ltb_spec (length buf) (length M + 11)) as [Hk|Hk]; [discriminate | ].
  set (cbTmp := length buf - (length M + 3)).
  assert (HcbTmp : length buf = 3 + cbTmp + length M) by (subst cbTmp; lia).
  clearbody cbTmp.
  destruct (SymCryptCallbackRandom rnd s (store (store buf 0 0%Z) 1 PKCS_BLOCKTYPE_2)
              2 cbTmp) as [[e b0] s0] eqn:Hcb.
  apply callback_random_frame in Hcb as [Hl0 Hfr0].
  destruct e; cbn [is_no_error negb]; try (intros Hx; discriminate Hx).
  destruct (nonzero_loop rnd fuel cbTmp 0 s0 b0) as [[[e b1] s1]|] eqn:Hnz;
    [ | discriminate].
  destruct e; cbn [is_no_error negb]; try (intros Hx; discriminate Hx).
  apply nonzero_loop_ok in Hnz as (Hl1 & Hnz1 & Hfr1).
  intros [= <- <-]. split; [lia | ].
  assert (Hlb1 : length b1 = 3 + cbTmp + length M).
  { rewrite Hl1, Hl0. unfold store. len. }
  exists (bytes_at b1 2 cbTmp).
  split; [ | split].
  - unfold memcpy, store. rewrite take_ge by lia.
    rewrite (bytes_cover _ (1 + (1 + (cbTmp + (1 + length M))))) at 1 by len.
    rewrite !bytes_at_split. rd.
    assert (H0 : bytes_at b1 0 1 = [0%Z]).
    { apply bytes_at_1. rewrite Hfr1 by lia. rewrite Hfr0 by lia.
      unfold store. destruct buf as [|y [|z buf]]; simpl in HcbTmp; try lia.
      reflexivity. }
    assert (H1 : bytes_at b1 (0 + 1) 1 = [2%Z]).
    { apply bytes_at_1. rewrite Hfr1 by lia. rewrite Hfr0 by lia.
      unfold store. destruct buf as [|y [|z buf]]; simpl in HcbTmp; try lia.
      reflexivity. }
    rewrite H0, H1. reflexivity.
  - apply length_bytes_at. lia.
  - apply Forall_forall. intros x Hx.
    apply list_elem_of_lookup in Hx as [j Hj].
    assert (Hjlt : j < cbTmp).
    { apply lookup_lt_Some in Hj. rewrite length_bytes_at in Hj by lia. done. }
    specialize (Hnz1 (2 + j) ltac:(lia)).
    unfold bytes_at in Hj. rewrite lookup_take_lt in Hj by lia.
    rewrite lookup_drop in Hj. unfold load in Hnz1. rewrite Hj in Hnz1. exact Hnz1.
Qed.
(** A redraw loop leaves with [SYMCRYPT_NO_ERROR] once the random source
    hands back a nonzero byte within the bound. *)
Lemma redraw_loop_ends n : forall s buf idx,
  idx < length buf ->
  load buf idx <> 0%Z \/ nonzero_within rnd n s ->
  exists buf' s',
    redraw_loop rnd n s buf idx = Some (SYMCRYPT_NO_ERROR, buf', s')
    /\ length buf' = length buf.
Proof.
  induction n as [|n IH]; intros s buf idx Hidx Hnz; cbn [redraw_loop].
  - destruct Hnz as [Hnz|[]].
    destruct (Z.eqb_spec (load buf idx) 0) as [?|_]; [done | ].
    exists buf, s. done.
  - destruct (Z.eqb_spec (load buf idx) 0) as [Hz|_]; [ | exists buf, s; done].
    destruct Hnz as [?|Hnz]; [done | ].
    cbn [nonzero_within] in Hnz. unfold SymCryptCallbackRandom.
    destruct (rnd s 1) as [[e bytes] s1]. destruct Hnz as [-> Hnz].
    cbn [is_no_error].
    destruct (IH s1 (memcpy buf idx bytes 1) idx) as (buf' & s' & Hrd & Hl).
    + rewrite length_memcpy. exact Hidx.
    + destruct Hnz as [Hb|Hw]; [left | right; exact Hw].
      destruct bytes as [|b bytes]; [done | ].
      unfold memcpy. cbn [take]. rewrite take_0.
      rewrite load_inserts_in by (cbn [length]; lia).
      rewrite Nat.sub_diag. exact Hb.
    + exists buf', s'. split; [exact Hrd | ]. rewrite Hl. apply length_memcpy.
Qed.

Lemma nonzero_loop_ends N :
  (forall s2, nonzero_within rnd N s2) ->
  forall n i s buf,
  2 + i + n <= length buf ->
  exists buf' s',
    nonzero_loop rnd N n i s buf = Some (SYMCRYPT_NO_ERROR, buf', s')
    /\ length buf' = length buf.
Proof.
  intros Hrnd. induction n as [|n IH]; intros i s buf Hlen; cbn [nonzero_loop].
  - exists buf, s. done.
  - destruct (redraw_loop_ends N s buf (2 + i)) as (b1 & s1 & Hrd & Hl1);
      [lia | right; apply Hrnd | ].
    rewrite Hrd. cbn [is_no_error].
    destruct (IH (i + 1) s1 b1) as (b2 & s2 & Hnz & Hl2); [lia | ].
    exists b2, s2. split; [exact Hnz | congruence].
Qed.

(** The run of the encryption apply path ends with [SYMCRYPT_NO_ERROR]
    when the first draw succeeds and the random source hands back a
    nonzero byte within [N] single-byte requests from every state. *)
Lemma pkcs1_enc_apply_ends N s M buf bytes s1 :
  length M + 11 <= length buf ->
  rnd s (length buf - (length M + 3)) = (SYMCRYPT_NO_ERROR, bytes, s1) ->
  (forall s2, nonzero_within rnd N s2) ->
  exists EM s',
    SymCryptRsaPkcs1ApplyEncryptionPadding rnd N s M 0%Z buf
    = Some (SYMCRYPT_NO_ERROR, EM, s').
Proof.
  intros Hk Hdraw Hrnd.
  unfold SymCryptRsaPkcs1ApplyEncryptionPadding. cbn [Z.eqb negb orb].
  destruct (Nat.ltb_spec (length buf) (length M + 11)) as [?|_]; [lia | ].
  unfold SymCryptCallbackRandom. rewrite Hdraw. cbn [is_no_error negb].
  match goal with
  | |- context [nonzero_loop rnd N ?n 0 s1 ?b] =>
      destruct (nonzero_loop_ends N Hrnd n 0 s1 b) as (b1 & s' & Hnz & _)
  end.
  { rewrite length_memcpy, !length_store. lia. }
  rewrite Hnz. cbn [is_no_error negb]. eauto.
Qed.
End RandomSource.

Lemma scan_zero_finds (PS : list Z) : forall pre rest n i,
  length pre = i -> Forall (fun b => b <> 0%Z) PS -> length PS < n ->
  scan_zero (pre ++ PS ++ 0%Z :: rest) n i = i + length PS.
Proof.
  induction PS as [|b PS IH]; intros pre rest n i Hpre Hnz Hn.
  - destruct n as [|n]; [simpl in Hn; lia | ]. cbn [scan_zero].
    rewrite load_app_r by lia. rewrite Hpre, Nat.sub_diag. cbn. lia.
  - destruct n as [|n]; [simpl in Hn; lia | ]. cbn [scan_zero].
    rewrite load_app_r by lia. rewrite Hpre, Nat.sub_diag.
    apply Forall_cons in Hnz as [Hb Hnz]. cbn [app load lookup list_lookup default from_option id].
    destruct (Z.eqb_spec b 0) as [?|_]; [done | ].
    replace (pre ++ b :: PS ++ 0%Z :: rest) with ((pre ++ [b]) ++ PS ++ 0%Z :: rest)
      by (rewrite <- app_assoc; reflexivity).
    rewrite IH; [ simpl; lia | len | done | simpl in Hn; lia ].
Qed.

Lemma memcpy_front (out src : list Z) n :
  length src = n -> n <= length out -> memcpy out 0 src n = src ++ drop n out.
Proof.
  intros Hs Hn. rewrite memcpy_full by done. rewrite inserts_take_drop by lia.
  rewrite take_0. cbn [app]. rewrite Hs. reflexivity.
Qed.

(** Remove on a block of the shape [0x00 || 0x02 || PS || 0x00 || M]. *)
Lemma pkcs1_enc_remove_shape (PS M : list Z) (pcb0 : Z) :
  Forall (fun b => b <> 0%Z) PS ->
  (Z.of_nat (length ([0; 2]%Z ++ PS ++ [0%Z] ++ M)) < 2 ^ 64)%Z ->
  SymCryptRsaPkcs1RemoveEncryptionPadding ([0; 2]%Z ++ PS ++ [0%Z] ++ M) 0%Z None pcb0
  = (SYMCRYPT_NO_ERROR, None, Z.of_nat (length M))
  /\ forall out, length M <= length out ->
     SymCryptRsaPkcs1RemoveEncryptionPadding ([0; 2]%Z ++ PS ++ [0%Z] ++ M) 0%Z (Some out) pcb0
     = (SYMCRYPT_NO_ERROR, Some (M ++ drop (length M) out), Z.of_nat (length M)).
Proof.
  intros Hnz Hk.
  unfold SymCryptRsaPkcs1RemoveEncryptionPadding.
  set (EM := [0; 2]%Z ++ PS ++ [0%Z] ++ M) in *.
  assert (HlEM : length EM = 3 + length PS + length M) by (subst EM; len).
  cbn [Z.eqb negb orb].
  destruct (Nat.ltb_spec (length EM) 2) as [?|_]; [lia | ].
  assert (Hscan : scan_zero EM (length EM - 2) 2 = 2 + length PS).
  { subst EM. apply (scan_zero_finds PS [0; 2]%Z M); [reflexivity | done | len]. }
  rewrite Hscan.
  assert (H0 : load EM 0 = 0%Z) by reflexivity.
  assert (H1 : load EM 1 = 2%Z) by reflexivity.
  rewrite H0, H1. cbn [Z.eqb andb PKCS_BLOCKTYPE_2].
  destruct (Nat.ltb_spec (2 + length PS) (length EM)) as [_|?]; [ | lia].
  cbn [negb].
  assert (Hpcb : SIZE_T_sub (Z.of_nat (length EM)) (Z.of_nat (2 + length PS + 1))
                 = Z.of_nat (length M)).
  { unfold SIZE_T_sub, SIZE_T_wrap. rewrite Z.mod_small; lia. }
  rewrite Hpcb. split; [reflexivity | ].
  intros out Hout.
  destruct (Z.ltb_spec (Z.of_nat (length out)) (Z.of_nat (length M))) as [?|_]; [lia | ].
  rewrite Nat2Z.id.
  assert (Hdrop : drop (2 + length PS + 1) EM = M).
  { subst EM. replace ([0; 2]%Z ++ PS ++ [0%Z] ++ M) with (([0; 2]%Z ++ PS ++ [0%Z]) ++ M)
      by (rewrite <- !app_assoc; reflexivity).
    apply drop_app_length'. len. }
  rewrite Hdrop. rewrite memcpy_front by lia. reflexivity.
Qed.

(** Every state of [alternating_random] is at most two single-byte
    requests away from a nonzero byte. *)
Lemma alternating_random_nonzero (s : nat) : nonzero_within alternating_random 2 s.
Proof.
  cbn [nonzero_within alternating_random seq map load].
  rewrite !Nat.add_0_r.
  replace (s + 1) with (S s) by lia. rewrite Nat.even_succ, <- Nat.negb_even.
  destruct (Nat.even s); cbn; split; auto; right; split; auto.
Qed.

(** C3: for [|M| + 11 <= k], on a block of fewer than [2^32] bytes
    (the range in which the [UINT32] counter of the zero scan in remove
    does not wrap):

    - in every run of apply that ends with [SYMCRYPT_NO_ERROR], remove
      on the block apply produced returns [SYMCRYPT_NO_ERROR], reports
      the length [|M|] and copies exactly [M]; the bound on the redraws
      does not matter, the run is the same under every larger bound;
    - such a run exists: when the first draw of the random source
      succeeds and the source hands back, from every state, a nonzero
      byte within [N] single-byte requests, apply ends with
      [SYMCRYPT_NO_ERROR] under every bound from [N] on. *)
Theorem pkcs1_enc_roundtrip {RndState : Type} (rnd : RANDOM_CALLBACK RndState)
    (s : RndState) (M buf : list Z) (pcb0 : Z) :
  length M + 11 <= length buf ->
  (Z.of_nat (length buf) < 2 ^ 32)%Z ->
  (forall fuel EM s',
     SymCryptRsaPkcs1ApplyEncryptionPadding rnd fuel s M 0%Z buf
     = Some (SYMCRYPT_NO_ERROR, EM, s') ->
     (forall fuel', fuel <= fuel' ->
        SymCryptRsaPkcs1ApplyEncryptionPadding rnd fuel' s M 0%Z buf
        = Some (SYMCRYPT_NO_ERROR, EM, s'))
     /\ SymCryptRsaPkcs1RemoveEncryptionPadding EM 0%Z None pcb0
        = (SYMCRYPT_NO_ERROR, None, Z.of_nat (length M))
     /\ forall out, length M <= length out ->
        SymCryptRsaPkcs1RemoveEncryptionPadding EM 0%Z (Some out) pcb0
        = (SYMCRYPT_NO_ERROR, Some (M ++ drop (length M) out), Z.of_nat (length M)))
  /\ (forall N bytes s1,
       rnd s (length buf - (length M + 3)) = (SYMCRYPT_NO_ERROR, bytes, s1) ->
       (forall s2, nonzero_within rnd N s2) ->
       exists EM s', forall fuel, N <= fuel ->
         SymCryptRsaPkcs1ApplyEncryptionPadding rnd fuel s M 0%Z buf
         = Some (SYMCRYPT_NO_ERROR, EM, s')).
Proof.
  intros Hk H32. split.
  - intros fuel EM s' Happly. split.
    { intros fuel' Hle. apply (pkcs1_enc_apply_mono rnd fuel fuel'); done. }
    apply pkcs1_enc_apply_shape in Happly as (_ & PS & -> & HlPS & Hnz).
    apply pkcs1_enc_remove_shape; [done | ].
    autorewrite with len. cbn [length]. lia.
  - intros N bytes s1 Hdraw Hrnd.
    destruct (pkcs1_enc_apply_ends rnd N s M buf bytes s1 Hk Hdraw Hrnd)
      as (EM & s' & Happly).
    exists EM, s'. intros fuel Hle.
    apply (pkcs1_enc_apply_mono rnd N fuel); done.
Qed.

Lemma redraw_loop_nonzero {RndState : Type} (rnd : RANDOM_CALLBACK RndState) fuel s buf idx :
  load buf idx <> 0%Z -> redraw_loop rnd fuel s buf idx = Some (SYMCRYPT_NO_ERROR, buf, s).
Proof.
  intros H. destruct fuel; cbn [redraw_loop];
    destruct (Z.eqb_spec (load buf idx) 0); done.
Qed.

Lemma nonzero_loop_nonzero {RndState : Type} (rnd : RANDOM_CALLBACK RndState)
    fuel s buf : forall n i,
  (forall j, 2 + i <= j < 2 + i + n -> load buf j <> 0%Z) ->
  nonzero_loop rnd fuel n i s buf = Some (SYMCRYPT_NO_ERROR, buf, s).
Proof.
  induction n as [|n IH]; intros i H; cbn [nonzero_loop]; [reflexivity | ].
  rewrite redraw_loop_nonzero by (apply H; lia). cbn [is_no_error].
  apply IH. intros j Hj. apply H. lia.
Qed.

(** X1: the run of the encryption apply path completes under every bound
    on the redraws, the bound 0 included, when the first draw of the
    random source is free of zero bytes: no byte is drawn again and the
    block is [0x00 || 0x02 || PS || 0x00 || M] with [PS] the bytes
    drawn. *)
Lemma pkcs1_enc_apply_completes {RndState : Type} (rnd : RANDOM_CALLBACK RndState) (fuel : nat)
    (s s1 : RndState) (M buf PS : list Z) :
  length M + 11 <= length buf ->
  rnd s (length buf - (length M + 3)) = (SYMCRYPT_NO_ERROR, PS, s1) ->
  length PS = length buf - (length M + 3) ->
  Forall (fun b => b <> 0%Z) PS ->
  SymCryptRsaPkcs1ApplyEncryptionPadding rnd fuel s M 0%Z buf
  = Some (SYMCRYPT_NO_ERROR, [0; 2]%Z ++ PS ++ [0%Z] ++ M, s1).
Proof.
  intros Hk Hrnd HlPS Hnz.
  unfold SymCryptRsaPkcs1ApplyEncryptionPadding. cbn [Z.eqb negb orb].
  destruct (Nat.ltb_spec (length buf) (length M + 11)) as [?|_]; [lia | ].
  unfold SymCryptCallbackRandom. rewrite Hrnd. cbn [is_no_error negb].
  rewrite nonzero_loop_nonzero.
  - cbn [is_no_error negb]. do 2 f_equal. f_equal.
    unfold memcpy, store. rewrite !take_ge by lia.
    rewrite (bytes_cover _ (1 + (1 + (length PS + (1 + length M))))) at 1 by len.
    rewrite !bytes_at_split. rewrite <- HlPS. rd. reflexivity.
  - intros j Hj. unfold memcpy, store. rewrite take_ge by lia.
    rewrite load_inserts_in by len.
    intros Hz. rewrite Forall_forall in Hnz. apply (Hnz (load PS (j - 2))); [ | done].
    apply list_elem_of_lookup. exists (j - 2). unfold load.
    destruct (lookup_lt_is_Some_2 PS (j - 2)) as [x Hx]; [lia | ]. rewrite Hx. reflexivity.
Qed.

(** C3 at scenario S1 of the spec, with a random source whose every
    other byte is zero: the zero bytes of the first draw are drawn
    again, and remove gives the plaintext back. *)
Lemma pkcs1_enc_roundtrip_witness :
  length [1; 2; 3; 4; 5]%Z + 11 <= length (replicate 16 0%Z) /\
  (Z.of_nat (length (replicate 16 0%Z)) < 2 ^ 32)%Z /\
  (forall s2, nonzero_within alternating_random 2 s2) /\
  exists EM s',
    SymCryptRsaPkcs1ApplyEncryptionPadding alternating_random 2 0
      [1; 2; 3; 4; 5]%Z 0%Z (replicate 16 0%Z)
    = Some (SYMCRYPT_NO_ERROR, EM, s') /\
    SymCryptRsaPkcs1RemoveEncryptionPadding EM 0%Z (Some (replicate 8 0%Z)) 0%Z
    = (SYMCRYPT_NO_ERROR, Some [1; 2; 3; 4; 5; 0; 0; 0]%Z, 5%Z).
Proof.
  split; [vm_compute; lia | ]. split; [vm_compute; reflexivity | ].
  split; [exact alternating_random_nonzero | ].
  destruct (pkcs1_enc_roundtrip alternating_random 0 [1; 2; 3; 4; 5]%Z
              (replicate 16 0%Z) 0%Z) as [Hround Hends];
    [vm_compute; lia | vm_compute; reflexivity | ].
  destruct (Hends 2 (snd (fst (alternating_random 0 8))) (snd (alternating_random 0 8)))
    as (EM & s' & Happly); [reflexivity | exact alternating_random_nonzero | ].
  exists EM, s'. split; [apply Happly; lia | ].
  destruct (Hround 2 EM s' (Happly 2 (Nat.le_refl 2))) as (_ & _ & Hout).
  apply (Hout (replicate 8 0%Z)). vm_compute. lia.
Defined.

(** * Loops that fill a region, masks *)

Lemma fold_store_seq (F : list Z -> nat -> Z) (d n : nat) (p0 : list Z) :
  d + n <= length p0 ->
  (forall i p, i < n -> length p = length p0 ->
     (forall j, (j < d \/ d + i <= j) -> p !! j = p0 !! j) -> F p i = F p0 i) ->
  fold_left (fun p i => store p (d + i) (F p i)) (seq 0 n) p0
  = list_inserts d (map (F p0) (seq 0 n)) p0.
Proof.
  induction n as [|n IH]; intros Hlen HF; [reflexivity | ].
  rewrite seq_S, fold_left_app, map_app. cbn [fold_left map plus].
  rewrite IH; [ | lia | intros i p Hi; apply HF; lia].
  rewrite HF; [ | lia | apply length_inserts | ].
  - rewrite list_inserts_app_l. rewrite length_map, length_seq.
    unfold store. cbn [list_inserts]. rewrite (Nat.add_comm n d). reflexivity.
  - intros j Hj. destruct Hj as [Hj|Hj].
    + apply list_lookup_inserts_lt. lia.
    + apply list_lookup_inserts_ge. rewrite length_map, length_seq. lia.
Qed.

Lemma zip_with_map_seq (f : Z -> Z -> Z) (g k : nat -> Z) (l : list nat) :
  zip_with f (map g l) (map k l) = map (fun i => f (g i) (k i)) l.
Proof. induction l as [|x l IH]; [reflexivity | ]. cbn. rewrite IH. reflexivity. Qed.

Lemma map_xor_loads (a b : list Z) (x y n : nat) :
  x + n <= length a -> y + n <= length b ->
  map (fun i => Z.lxor (load a (x + i)) (load b (y + i))) (seq 0 n)
  = xor_bytes (bytes_at a x n) (bytes_at b y n).
Proof.
  intros Ha Hb. unfold xor_bytes.
  rewrite <- (map_load_seq a x n), <- (map_load_seq b y n) by done.
  symmetry. apply zip_with_map_seq.
Qed.

Lemma length_xor_bytes a b : length (xor_bytes a b) = Nat.min (length a) (length b).
Proof. apply length_zip_with. Qed.

Lemma xor_bytes_cancel (a m : list Z) :
  length a = length m -> xor_bytes (xor_bytes a m) m = a.
Proof.
  revert m. induction a as [|x a IH]; intros [|y m] H; simpl in H; try lia;
    [reflexivity | ].
  cbn. rewrite IH by lia. f_equal.
  rewrite Z.lxor_assoc, Z.lxor_nilpotent, Z.lxor_0_r. reflexivity.
Qed.

(** The xor loops of the codecs: the target region is written with the
    bytewise xor of two regions that the loop does not write, or of one
    such region and the target region itself. *)
Lemma xor_loop_other (out a b : list Z) (d x y n : nat) :
  d + n <= length out -> x + n <= length a -> y + n <= length b ->
  fold_left
    (fun out i => store out (d + i) (Z.lxor (load a (x + i)) (load b (y + i))))
    (seq 0 n) out
  = list_inserts d (xor_bytes (bytes_at a x n) (bytes_at b y n)) out.
Proof.
  intros Hd Ha Hb.
  rewrite (fold_store_seq (fun _ i => Z.lxor (load a (x + i)) (load b (y + i))))
    by (done || intros; reflexivity).
  rewrite map_xor_loads by done. reflexivity.
Qed.

Lemma xor_loop_scratch (scr a : list Z) (d x y n : nat) :
  d + n <= length scr -> x + n <= length a -> y + n <= length scr ->
  (y + n <= d \/ d + n <= y \/ y = d) ->
  fold_left
    (fun scr i => store scr (d + i) (Z.lxor (load a (x + i)) (load scr (y + i))))
    (seq 0 n) scr
  = list_inserts d (xor_bytes (bytes_at a x n) (bytes_at scr y n)) scr.
Proof.
  intros Hd Ha Hb Hdisj.
  rewrite (fold_store_seq (fun p i => Z.lxor (load a (x + i)) (load p (y + i)))).
  - rewrite map_xor_loads by done. reflexivity.
  - done.
  - intros i p Hi Hl Hfr. unfold load. rewrite Hfr by lia. reflexivity.
Qed.

Lemma call_mgf_eq (h : SYMCRYPT_HASH) (src dst : list Z) (so cs d cd : nat) :
  hash_wf h -> d + cd <= length dst ->
  call_mgf h src so cs dst d cd
  = list_inserts d (mgf_mask h (bytes_at src so cs) cd) dst.
Proof.
  intros Hwf Hd. unfold call_mgf. rewrite mgf_generation_mask by done.
  rewrite length_bytes_at by done.
  apply memcpy_full. apply length_mgf_mask. done.
Qed.

Lemma hash_to_eq (h : SYMCRYPT_HASH) (data dst : list Z) (off : nat) :
  hash_wf h ->
  SymCryptHash h data dst off (SymCryptHashResultSize h)
  = list_inserts off (hashFn h data) dst.
Proof. intros (_ & _ & Hl). apply memcpy_full. apply Hl. Qed.

Lemma bytes_at_app_mid (a b c : list Z) off n :
  off = length a -> n = length b -> bytes_at (a ++ b ++ c) off n = b.
Proof.
  intros -> ->. unfold bytes_at. rewrite drop_app_length. apply take_app_length.
Qed.

Lemma bytes_at_app_end (a b : list Z) off n :
  off = length a -> n = length b -> bytes_at (a ++ b) off n = b.
Proof.
  intros -> ->. unfold bytes_at. rewrite drop_app_length. apply firstn_all.
Qed.

#[export] Hint Rewrite length_xor_bytes : len.

Lemma existsb_neq_maps (g k : nat -> Z) (l : list nat) :
  existsb (fun i => negb (g i =? k i)%Z) l = negb (bool_decide (map g l = map k l)).
Proof.
  induction l as [|x l IH]; [reflexivity | ].
  cbn [existsb map]. rewrite IH.
  destruct (Z.eqb_spec (g x) (k x)) as [He|Hne]; cbn [negb orb].
  - rewrite He. f_equal. apply bool_decide_ext. split; [congruence | ].
    intros [= H]. done.
  - symmetry. apply negb_true_iff, bool_decide_eq_false. intros [= H _]. done.
Qed.

Lemma existsb_neq_loads (a b : list Z) (x y n : nat) :
  x + n <= length a -> y + n <= length b ->
  existsb (fun i => negb (load a (x + i) =? load b (y + i))%Z) (seq 0 n)
  = negb (bool_decide (bytes_at a x n = bytes_at b y n)).
Proof.
  intros Ha Hb. rewrite (existsb_neq_maps (fun i => load a (x + i)) (fun i => load b (y + i))).
  rewrite !map_load_seq by done. reflexivity.
Qed.

Lemma bytes_at_take p off n m : bytes_at p off n = take n (bytes_at p off (n + m)).
Proof. unfold bytes_at. rewrite take_take. f_equal. lia. Qed.

Lemma bytes_at_drop p off n a : bytes_at p (off + a) (n - a) = drop a (bytes_at p off n).
Proof.
  unfold bytes_at. rewrite <- drop_drop. rewrite take_drop_commute.
  destruct (decide (a <= n)) as [H|H].
  - replace (a + (n - a)) with n by lia. reflexivity.
  - replace (a + (n - a)) with a by lia.
    rewrite !drop_ge; [reflexivity | rewrite length_take; lia | rewrite length_take; lia].
Qed.

Lemma bytes_at_S p off n :
  off < length p -> bytes_at p off (S n) = load p off :: bytes_at p (off + 1) n.
Proof.
  intros H. unfold bytes_at, load.
  destruct (lookup_lt_is_Some_2 p off H) as [x Hx]. rewrite Hx.
  rewrite (drop_S p x off Hx). cbn. rewrite Nat.add_1_r. reflexivity.
Qed.

Lemma oaep_ps_loop_parse (scr : list Z) (pbDB : nat) : forall n cnt,
  pbDB + cnt + n <= length scr ->
  oaep_ps_loop scr pbDB n cnt
  = option_map (Nat.add cnt) (ps_parse (bytes_at scr (pbDB + cnt) n)).
Proof.
  induction n as [|n IH]; intros cnt H.
  - cbn [oaep_ps_loop]. rewrite bytes_at_0. cbn [ps_parse option_map]. f_equal. lia.
  - cbn [oaep_ps_loop]. rewrite bytes_at_S by lia. cbn [ps_parse].
    destruct (load scr (pbDB + cnt) =? 1)%Z; [cbn; f_equal; lia | ].
    destruct (load scr (pbDB + cnt) =? 0)%Z; cbn [negb]; [ | reflexivity].
    rewrite IH by lia. rewrite <- Nat.add_assoc.
    destruct (ps_parse _); cbn; [f_equal; lia | reflexivity].
Qed.

(** * OAEP remove *)

Lemma length_recovered_DB (h : SYMCRYPT_HASH) (ms mdb : list Z) :
  hash_wf h -> length (oaep_recovered_DB h ms mdb) = length mdb.
Proof.
  intros Hwf. unfold oaep_recovered_DB. rewrite length_xor_bytes.
  rewrite length_mgf_mask by done. lia.
Qed.

Lemma oaep_remove_general (h : SYMCRYPT_HASH) (pbLabel ms mdb pbScratch : list Z)
    (pbPlaintext : option (list Z)) (pcb0 : Z) :
  hash_wf h ->
  length ms = SymCryptHashResultSize h ->
  SymCryptHashStateSize h + SymCryptHashResultSize h * 3 + length mdb * 2
  <= length pbScratch ->
  SymCryptRsaOaepRemoveEncryptionPadding ([0%Z] ++ ms ++ mdb) h pbLabel 0%Z
    pbPlaintext pcb0 pbScratch
  = oaep_remove_outcome h pbLabel ms mdb pbScratch pbPlaintext pcb0.
Proof.
  intros Hwf Hms Hscr.
  pose proof Hwf as (Hpos & Hmax & Hhl).
  pose proof (length_recovered_DB h ms mdb Hwf) as HlDB.
  unfold SymCryptRsaOaepRemoveEncryptionPadding, oaep_remove_outcome.
  cbv zeta. cbn [Z.eqb negb].
  set (hl := SymCryptHashResultSize h) in *.
  set (DB' := oaep_recovered_DB h ms mdb) in *.
  set (lh := hashFn h pbLabel).
  assert (Hllh : length lh = hl) by apply Hhl.
  set (st := SymCryptHashStateSize h) in *.
  assert (Hlb : length ([0%Z] ++ ms ++ mdb) = hl + 1 + length mdb) by len.
  rewrite Hlb.
  destruct (Nat.ltb_spec (hl + 1 + length mdb) (hl + 1)) as [?|_]; [lia | ].
  change (load ([0%Z] ++ ms ++ mdb) 0) with 0%Z. cbn [Z.eqb negb orb].
  replace (hl + 1 + length mdb - (hl + 1)) with (length mdb) by lia.
  set (cbDB := length mdb) in *.
  (* MGF over maskedDB *)
  rewrite (call_mgf_eq h _ pbScratch) by (done || lia).
  replace (bytes_at ([0%Z] ++ ms ++ mdb) (hl + 1) cbDB) with mdb
    by (symmetry; replace ([0%Z] ++ ms ++ mdb) with (([0%Z] ++ ms) ++ mdb)
          by (rewrite <- app_assoc; reflexivity);
        apply bytes_at_app_end; [len | reflexivity]).
  set (scr1 := list_inserts st (mgf_mask h mdb hl) pbScratch).
  assert (Hl1 : length scr1 = length pbScratch) by (subst scr1; len).
  (* seed *)
  rewrite (xor_loop_scratch scr1) by (len || lia).
  replace (bytes_at ([0%Z] ++ ms ++ mdb) 1 hl) with ms
    by (symmetry; apply bytes_at_app_mid; [reflexivity | lia]).
  replace (bytes_at scr1 st hl) with (mgf_mask h mdb hl)
    by (subst scr1; rd; reflexivity).
  set (seed := xor_bytes ms (mgf_mask h mdb hl)).
  assert (Hlseed : length seed = hl)
    by (subst seed; rewrite length_xor_bytes, length_mgf_mask by done; lia).
  set (scr2 := list_inserts (st + hl) seed scr1).
  assert (Hl2 : length scr2 = length pbScratch) by (subst scr2; len).
  (* MGF over the seed *)
  rewrite (call_mgf_eq h scr2 scr2) by (done || lia).
  replace (bytes_at scr2 (st + hl) hl) with seed
    by (subst scr2; rd; reflexivity).
  set (scr3 := list_inserts (st + hl + hl) (mgf_mask h seed cbDB) scr2).
  assert (Hl3 : length scr3 = length pbScratch) by (subst scr3; len).
  (* DB *)
  rewrite (xor_loop_scratch scr3) by (len || lia).
  replace (bytes_at ([0%Z] ++ ms ++ mdb) (hl + 1) cbDB) with mdb
    by (symmetry; replace ([0%Z] ++ ms ++ mdb) with (([0%Z] ++ ms) ++ mdb)
          by (rewrite <- app_assoc; reflexivity);
        apply bytes_at_app_end; [len | reflexivity]).
  replace (bytes_at scr3 (st + hl + hl) cbDB) with (mgf_mask h seed cbDB)
    by (subst scr3; rd; reflexivity).
  assert (HDB : xor_bytes mdb (mgf_mask h seed cbDB) = DB').
  { subst DB' seed cbDB. unfold oaep_recovered_DB. rewrite Hms. reflexivity. }
  rewrite HDB.
  set (scr4 := list_inserts (st + hl + hl + cbDB) DB' scr3).
  assert (Hl4 : length scr4 = length pbScratch) by (subst scr4; len).
  (* label hash *)
  rewrite hash_to_eq by done. fold lh.
  set (scr5 := list_inserts (st + hl + hl + cbDB + cbDB) lh scr4).
  assert (Hl5 : length scr5 = length pbScratch) by (subst scr5; len).
  assert (Hlab : bytes_at scr5 (st + hl + hl + cbDB + cbDB) hl = lh)
    by (subst scr5; rd; reflexivity).
  assert (Hdb : bytes_at scr5 (st + hl + hl + cbDB) cbDB = DB')
    by (subst scr5 scr4; rd; reflexivity).
  assert (Hall : bytes_at scr5 (st + hl + hl + cbDB) (cbDB + hl) = DB' ++ lh)
    by (rewrite bytes_at_split, Hdb, Hlab; reflexivity).
  rewrite existsb_neq_loads by lia.
  rewrite Hlab. rewrite (bytes_at_take scr5 _ hl cbDB).
  rewrite (Nat.add_comm hl cbDB), Hall.
  rewrite (bool_decide_ext (lh = take hl (DB' ++ lh)) (take hl (DB' ++ lh) = lh))
    by (split; intros; done).
  destruct (bool_decide (take hl (DB' ++ lh) = lh)); cbn [negb]; [ | reflexivity].
  rewrite oaep_ps_loop_parse by lia.
  rewrite bytes_at_drop, Hdb.
  destruct (ps_parse (drop hl DB')) as [c|]; cbn [option_map]; [ | reflexivity].
  destruct pbPlaintext as [out|]; [ | reflexivity].
  destruct (Z.of_nat (length out) <? _)%Z; [reflexivity | ].
  do 3 f_equal.
  assert (Htail : drop (st + hl + hl + cbDB + (cbDB + hl)) scr5
                  = drop (st + hl * 3 + cbDB * 2) pbScratch).
  { subst scr5 scr4 scr3 scr2 scr1.
    replace (st + hl * 3 + cbDB * 2) with (st + hl + hl + cbDB + (cbDB + hl)) by lia.
    apply list_eq. intros j. rewrite !lookup_drop.
    rewrite !list_lookup_inserts_ge by len. reflexivity. }
  rewrite <- (drop_drop scr5 (hl + c) (st + hl + hl + cbDB)). f_equal.
  rewrite <- (take_drop (cbDB + hl) (drop (st + hl + hl + cbDB) scr5)).
  fold (bytes_at scr5 (st + hl + hl + cbDB) (cbDB + hl)). rewrite Hall.
  rewrite drop_drop, Htail. rewrite <- app_assoc. reflexivity.
Qed.

(** * OAEP apply *)

Lemma length_hashFn h x : hash_wf h -> length (hashFn h x) = SymCryptHashResultSize h.
Proof. intros (_ & _ & H). apply H. Qed.

#[export] Hint Rewrite length_hashFn using assumption : len.

Lemma length_oaep_DB h pbLabel M k :
  hash_wf h -> length M + SymCryptHashResultSize h * 2 + 2 <= k ->
  length (oaep_DB h pbLabel M k) = k - (SymCryptHashResultSize h + 1).
Proof. intros Hwf Hk. unfold oaep_DB. len. Qed.

(** The steps of apply that follow the choice of the seed: both masks
    and the two xor loops, on a scratch area that holds the seed and the
    data block. *)
Lemma oaep_apply_mask_steps (h : SYMCRYPT_HASH) (scr out seed DB : list Z) :
  hash_wf h ->
  length seed = SymCryptHashResultSize h ->
  length out = SymCryptHashResultSize h + 1 + length DB ->
  SymCryptHashStateSize h + SymCryptHashResultSize h * 2 + length DB * 2 <= length scr ->
  bytes_at scr (SymCryptHashStateSize h) (SymCryptHashResultSize h) = seed ->
  bytes_at scr (SymCryptHashStateSize h + SymCryptHashResultSize h
                + SymCryptHashResultSize h) (length DB) = DB ->
  let cbHashAlg := SymCryptHashResultSize h in
  let cbDB := length DB in
  let pbSeedInternal := SymCryptHashStateSize h in
  let pbSeedMask := pbSeedInternal + cbHashAlg in
  let pbDB := pbSeedMask + cbHashAlg in
  let pbDBMask := pbDB + cbDB in
  let scr1 := call_mgf h scr pbSeedInternal cbHashAlg scr pbDBMask cbDB in
  let out1 := store out 0 0%Z in
  let out2 :=
    fold_left
      (fun out i =>
         store out (cbHashAlg + 1 + i)
           (Z.lxor (load scr1 (pbDB + i)) (load scr1 (pbDBMask + i))))
      (seq 0 cbDB) out1 in
  let scr2 := call_mgf h out2 (cbHashAlg + 1) cbDB scr1 pbSeedMask cbHashAlg in
  fold_left
    (fun out i =>
       store out (1 + i)
         (Z.lxor (load scr2 (pbSeedInternal + i)) (load scr2 (pbSeedMask + i))))
    (seq 0 cbHashAlg) out2
  = oaep_encode h DB seed.
Proof.
  intros Hwf Hseed Hout Hscr Hs Hd. cbv zeta.
  set (hl := SymCryptHashResultSize h) in *.
  set (st := SymCryptHashStateSize h) in *.
  set (cbDB := length DB) in *.
  rewrite (call_mgf_eq h scr scr) by (done || lia).
  rewrite Hs.
  set (scr1 := list_inserts (st + hl + hl + cbDB) (mgf_mask h seed cbDB) scr).
  assert (Hl1 : length scr1 = length scr) by (subst scr1; len).
  rewrite (xor_loop_other (store out 0 0%Z) scr1 scr1) by (len || lia).
  replace (bytes_at scr1 (st + hl + hl) cbDB) with DB
    by (subst scr1; rd; symmetry; exact Hd).
  replace (bytes_at scr1 (st + hl + hl + cbDB) cbDB) with (mgf_mask h seed cbDB)
    by (subst scr1; rd; reflexivity).
  set (mDB := xor_bytes DB (mgf_mask h seed cbDB)).
  assert (HlmDB : length mDB = cbDB) by (subst mDB cbDB; len).
  set (out2 := list_inserts (hl + 1) mDB (store out 0 0%Z)).
  assert (Hlo2 : length out2 = hl + 1 + cbDB) by (subst out2; len).
  rewrite (call_mgf_eq h out2 scr1) by (done || lia).
  replace (bytes_at out2 (hl + 1) cbDB) with mDB by (subst out2; rd; reflexivity).
  set (scr2 := list_inserts (st + hl) (mgf_mask h mDB hl) scr1).
  assert (Hl2 : length scr2 = length scr) by (subst scr2; len).
  rewrite (xor_loop_other out2 scr2 scr2) by (len || lia).
  replace (bytes_at scr2 st hl) with seed
    by (subst scr2 scr1; rd; symmetry; exact Hs).
  replace (bytes_at scr2 (st + hl) hl) with (mgf_mask h mDB hl)
    by (subst scr2; rd; reflexivity).
  unfold oaep_encode. fold cbDB. fold mDB. rewrite Hseed. fold hl.
  set (mseed := xor_bytes seed (mgf_mask h mDB hl)).
  assert (Hlms : length mseed = hl) by (subst mseed; len).
  rewrite (bytes_cover _ (1 + (hl + cbDB))) at 1 by len.
  rewrite !bytes_at_split. subst out2. unfold store.
  rewrite bytes_at_inserts_ne by len.
  rewrite bytes_at_inserts_ne by len.
  rewrite bytes_at_insert_eq by len.
  rewrite (bytes_at_inserts_eq mseed) by len.
  rewrite bytes_at_inserts_ne by len.
  rewrite (bytes_at_inserts_eq mDB) by len.
  reflexivity.
Qed.

Lemma oaep_apply_supplied_seed {RndState : Type} (rnd : RANDOM_CALLBACK RndState) (s : RndState)
    (h : SYMCRYPT_HASH) (M pbLabel seed : list Z) (cbSeed : nat) (buf pbScratch : list Z) :
  hash_wf h ->
  length M + SymCryptHashResultSize h * 2 + 2 <= length buf ->
  cbSeed <= SymCryptHashResultSize h ->
  cbSeed <= length seed ->
  SymCryptHashStateSize h + SymCryptHashResultSize h * 2
  + (length buf - (SymCryptHashResultSize h + 1)) * 2 <= length pbScratch ->
  SymCryptRsaOaepApplyEncryptionPadding rnd s M h pbLabel (Some seed) cbSeed 0%Z buf pbScratch
  = (SYMCRYPT_NO_ERROR,
     oaep_encode h (oaep_DB h pbLabel M (length buf))
       (take cbSeed seed ++ replicate (SymCryptHashResultSize h - cbSeed) 0%Z),
     s).
Proof.
  intros Hwf Hk Hcs Hls Hscr.
  pose proof (length_oaep_DB h pbLabel M (length buf) Hwf Hk) as HlDB.
  unfold SymCryptRsaOaepApplyEncryptionPadding.
  cbn [Z.eqb negb orb].
  set (hl := SymCryptHashResultSize h) in *.
  set (st := SymCryptHashStateSize h) in *.
  destruct (Nat.ltb_spec (length buf) (length M + hl * 2 + 2)) as [?|_]; [lia | ].
  destruct (Nat.ltb_spec hl cbSeed) as [?|_]; [lia | ].
  cbn [orb is_no_error negb].
  set (cbPS := length buf - (length M + hl * 2 + 2)) in *.
  rewrite <- HlDB.
  set (DB := oaep_DB h pbLabel M (length buf)) in *.
  set (seed' := take cbSeed seed ++ replicate (hl - cbSeed) 0%Z).
  assert (Hlseed : length seed' = hl) by (subst seed'; len).
  f_equal. f_equal.
  match goal with
  | |- context [memcpy (SymCryptWipe ?scr0 st hl) st seed cbSeed] =>
      set (scrA := scr0); set (scrB := memcpy (SymCryptWipe scrA st hl) st seed cbSeed)
  end.
  assert (HlA : length scrA = length pbScratch).
  { subst scrA. unfold SymCryptHash, SymCryptWipe, memcpy, memset, store. len. }
  assert (HlB : length scrB = length pbScratch).
  { subst scrB. unfold SymCryptWipe, memcpy, memset. len. }
  assert (HA : bytes_at scrA (st + hl + hl) (length DB) = DB).
  { subst scrA. rewrite hash_to_eq by done.
    unfold SymCryptWipe, memset, memcpy, store. rewrite take_ge by lia.
    rewrite HlDB.
    replace (length buf - (hl + 1)) with (hl + (cbPS + (1 + length M))) by lia.
    rewrite !bytes_at_split.
    rd. reflexivity. }
  apply (oaep_apply_mask_steps h scrB buf seed' DB); try done.
  - lia.
  - lia.
  - fold st hl. subst scrB. unfold SymCryptWipe, memset, memcpy.
    subst seed'.
    replace hl with (cbSeed + (hl - cbSeed)) at 2 by lia.
    rewrite bytes_at_split. rd.
    rewrite bytes_at_inserts_sub by len.
    rewrite bytes_at_replicate by lia. reflexivity.
  - fold st hl. subst scrB. unfold SymCryptWipe, memset, memcpy. rd. exact HA.
Qed.

(** With no seed supplied the seed is what the random source hands
    back. *)
Lemma oaep_apply_random_seed {RndState : Type} (rnd : RANDOM_CALLBACK RndState) (s s1 : RndState)
    (h : SYMCRYPT_HASH) (M pbLabel seed : list Z) (buf pbScratch : list Z) :
  hash_wf h ->
  length M + SymCryptHashResultSize h * 2 + 2 <= length buf ->
  rnd s (SymCryptHashResultSize h) = (SYMCRYPT_NO_ERROR, seed, s1) ->
  length seed = SymCryptHashResultSize h ->
  SymCryptHashStateSize h + SymCryptHashResultSize h * 2
  + (length buf - (SymCryptHashResultSize h + 1)) * 2 <= length pbScratch ->
  SymCryptRsaOaepApplyEncryptionPadding rnd s M h pbLabel None 0 0%Z buf pbScratch
  = (SYMCRYPT_NO_ERROR, oaep_encode h (oaep_DB h pbLabel M (length buf)) seed, s1).
Proof.
  intros Hwf Hk Hrnd Hls Hscr.
  pose proof (length_oaep_DB h pbLabel M (length buf) Hwf Hk) as HlDB.
  unfold SymCryptRsaOaepApplyEncryptionPadding, SymCryptCallbackRandom.
  cbn [Z.eqb Nat.eqb negb orb]. rewrite Hrnd.
  set (hl := SymCryptHashResultSize h) in *.
  set (st := SymCryptHashStateSize h) in *.
  destruct (Nat.ltb_spec (length buf) (length M + hl * 2 + 2)) as [?|_]; [lia | ].
  cbn [orb is_no_error negb].
  set (cbPS := length buf - (length M + hl * 2 + 2)) in *.
  rewrite <- HlDB.
  set (DB := oaep_DB h pbLabel M (length buf)) in *.
  f_equal. f_equal.
  match goal with
  | |- context [memcpy ?scr0 st seed hl] =>
      set (scrA := scr0); set (scrB := memcpy scrA st seed hl)
  end.
  assert (HlA : length scrA = length pbScratch).
  { subst scrA. unfold SymCryptHash, SymCryptWipe, memcpy, memset, store. len. }
  assert (HlB : length scrB = length pbScratch).
  { subst scrB. unfold memcpy. len. }
  assert (HA : bytes_at scrA (st + hl + hl) (length DB) = DB).
  { subst scrA. rewrite hash_to_eq by done.
    unfold SymCryptWipe, memset, memcpy, store. rewrite take_ge by lia.
    rewrite HlDB.
    replace (length buf - (hl + 1)) with (hl + (cbPS + (1 + length M))) by lia.
    rewrite !bytes_at_split.
    rd. reflexivity. }
  apply (oaep_apply_mask_steps h scrB buf seed DB); try done.
  - lia.
  - lia.
  - fold st hl. subst scrB. unfold memcpy. rewrite take_ge by lia. rd. reflexivity.
  - fold st hl. subst scrB. unfold memcpy. rd. exact HA.
Qed.

(** * OAEP: what remove recovers *)

Lemma oaep_recover_encode (h : SYMCRYPT_HASH) (DB seed : list Z) :
  hash_wf h ->
  oaep_recovered_DB h
    (xor_bytes seed (mgf_mask h (xor_bytes DB (mgf_mask h seed (length DB))) (length seed)))
    (xor_bytes DB (mgf_mask h seed (length DB)))
  = DB.
Proof.
  intros Hwf. unfold oaep_recovered_DB.
  set (mDB := xor_bytes DB (mgf_mask h seed (length DB))).
  assert (HlmDB : length mDB = length DB) by (subst mDB; len).
  assert (Hlms : length (xor_bytes seed (mgf_mask h mDB (length seed))) = length seed) by len.
  rewrite Hlms. rewrite xor_bytes_cancel by len.
  rewrite HlmDB. subst mDB. apply xor_bytes_cancel. len.
Qed.

Lemma ps_parse_zeros_one n rest : ps_parse (replicate n 0%Z ++ [1%Z] ++ rest) = Some (n + 1).
Proof.
  induction n as [|n IH]; [reflexivity | ].
  cbn [replicate app ps_parse Z.eqb negb]. cbn [app] in IH. rewrite IH. reflexivity.
Qed.

Lemma ps_parse_zeros n : ps_parse (replicate n 0%Z) = Some n.
Proof.
  induction n as [|n IH]; [reflexivity | ].
  cbn [replicate ps_parse Z.eqb negb]. rewrite IH. reflexivity.
Qed.

Lemma oaep_encode_parts (h : SYMCRYPT_HASH) (DB seed : list Z) :
  hash_wf h ->
  oaep_encode h DB seed
  = [0%Z]
    ++ xor_bytes seed (mgf_mask h (xor_bytes DB (mgf_mask h seed (length DB))) (length seed))
    ++ xor_bytes DB (mgf_mask h seed (length DB)).
Proof. reflexivity. Qed.

(** Remove on the block that encodes [lHash || PS || 0x01 || M] under any
    seed of [hLen] bytes. *)
Lemma oaep_remove_of_encode (h : SYMCRYPT_HASH) (M pbLabel seed : list Z) (k : nat)
    (pbScratch : list Z) (pcb0 : Z) :
  hash_wf h ->
  length seed = SymCryptHashResultSize h ->
  length M + SymCryptHashResultSize h * 2 + 2 <= k ->
  (Z.of_nat k < 2 ^ 64)%Z ->
  SymCryptHashStateSize h + SymCryptHashResultSize h * 3
  + (k - (SymCryptHashResultSize h + 1)) * 2 <= length pbScratch ->
  SymCryptRsaOaepRemoveEncryptionPadding (oaep_encode h (oaep_DB h pbLabel M k) seed)
    h pbLabel 0%Z None pcb0 pbScratch
  = (SYMCRYPT_NO_ERROR, None, Z.of_nat (length M))
  /\ forall out, length M <= length out ->
     SymCryptRsaOaepRemoveEncryptionPadding (oaep_encode h (oaep_DB h pbLabel M k) seed)
       h pbLabel 0%Z (Some out) pcb0 pbScratch
     = (SYMCRYPT_NO_ERROR, Some (M ++ drop (length M) out), Z.of_nat (length M)).
Proof.
  intros Hwf Hseed Hk H64 HsR.
  pose proof (length_oaep_DB h pbLabel M k Hwf Hk) as HlDB.
  set (DB := oaep_DB h pbLabel M k) in *.
  set (hl := SymCryptHashResultSize h) in *.
  set (cbPS := k - (length M + hl * 2 + 2)).
  rewrite oaep_encode_parts by done.
  set (mdb := xor_bytes DB (mgf_mask h seed (length DB))).
  set (ms := xor_bytes seed (mgf_mask h mdb (length seed))).
  assert (Hlmdb : length mdb = length DB) by (subst mdb; len).
  assert (Hlms : length ms = hl) by (subst ms; len).
  assert (Hrec : oaep_recovered_DB h ms mdb = DB)
    by (subst ms mdb; apply oaep_recover_encode; done).
  assert (Hout : forall pbPlaintext,
            SymCryptRsaOaepRemoveEncryptionPadding ([0%Z] ++ ms ++ mdb) h pbLabel 0%Z
              pbPlaintext pcb0 pbScratch
            = oaep_remove_outcome h pbLabel ms mdb pbScratch pbPlaintext pcb0).
  { intros p. apply oaep_remove_general; [done | done | ]. fold hl. lia. }
  assert (Hlab : take hl (DB ++ hashFn h pbLabel) = hashFn h pbLabel).
  { subst DB. unfold oaep_DB. rewrite <- app_assoc. apply take_app_length'. len. }
  assert (Hps : ps_parse (drop hl DB) = Some (cbPS + 1)).
  { subst DB. unfold oaep_DB. rewrite drop_app_length' by len.
    fold hl. fold cbPS. apply ps_parse_zeros_one. }
  assert (Hpcb : SIZE_T_sub (Z.of_nat (length mdb)) (Z.of_nat (hl + (cbPS + 1)))
                 = Z.of_nat (length M)).
  { unfold SIZE_T_sub, SIZE_T_wrap. rewrite Z.mod_small; subst cbPS; lia. }
  split.
  - rewrite Hout. unfold oaep_remove_outcome. rewrite Hrec. fold hl.
    rewrite Hlab. rewrite bool_decide_eq_true_2 by done.
    rewrite Hps. cbv zeta. rewrite Hpcb. reflexivity.
  - intros out Ho. rewrite Hout. unfold oaep_remove_outcome. rewrite Hrec. fold hl.
    rewrite Hlab. rewrite bool_decide_eq_true_2 by done.
    rewrite Hps. cbv zeta. rewrite Hpcb.
    destruct (Z.ltb_spec (Z.of_nat (length out)) (Z.of_nat (length M))) as [?|_]; [lia | ].
    rewrite Nat2Z.id. do 3 f_equal.
    unfold memcpy.
    assert (Hsrc : take (length M)
                     (drop (hl + (cbPS + 1))
                        (DB ++ hashFn h pbLabel
                         ++ drop (SymCryptHashStateSize h + hl * 3 + length mdb * 2) pbScratch))
                   = M).
    { subst DB. unfold oaep_DB. fold hl. fold cbPS.
      replace (hashFn h pbLabel ++ replicate cbPS 0%Z ++ [1%Z] ++ M)
        with ((hashFn h pbLabel ++ replicate cbPS 0%Z ++ [1%Z]) ++ M)
        by (rewrite <- !app_assoc; reflexivity).
      rewrite <- app_assoc. rewrite drop_app_length' by (subst hl; len).
      apply take_app_length. }
    rewrite Hsrc. rewrite inserts_take_drop by lia. rewrite take_0. reflexivity.
Qed.

(** C4: for [|M| + 2 hLen + 2 <= k] and a seed of [hLen] bytes, on a
    block of fewer than [2^32] bytes (the range in which the [UINT32]
    counters of the xor loops reach [cbDB]), apply returns
    [SYMCRYPT_NO_ERROR] and remove with the same label, on the block
    apply produced, returns [SYMCRYPT_NO_ERROR], reports the length
    [|M|] and copies exactly [M]. *)
Theorem oaep_roundtrip {RndState : Type} (rnd : RANDOM_CALLBACK RndState) (s : RndState)
    (h : SYMCRYPT_HASH) (M pbLabel seed buf scrApply scrRemove : list Z) (pcb0 : Z) :
  hash_wf h ->
  length seed = SymCryptHashResultSize h ->
  length M + SymCryptHashResultSize h * 2 + 2 <= length buf ->
  (Z.of_nat (length buf) < 2 ^ 32)%Z ->
  SymCryptHashStateSize h + SymCryptHashResultSize h * 2
  + (length buf - (SymCryptHashResultSize h + 1)) * 2 <= length scrApply ->
  SymCryptHashStateSize h + SymCryptHashResultSize h * 3
  + (length buf - (SymCryptHashResultSize h + 1)) * 2 <= length scrRemove ->
  exists EM,
    SymCryptRsaOaepApplyEncryptionPadding rnd s M h pbLabel (Some seed)
      (SymCryptHashResultSize h) 0%Z buf scrApply
    = (SYMCRYPT_NO_ERROR, EM, s)
    /\ length EM = length buf
    /\ SymCryptRsaOaepRemoveEncryptionPadding EM h pbLabel 0%Z None pcb0 scrRemove
       = (SYMCRYPT_NO_ERROR, None, Z.of_nat (length M))
    /\ forall out, length M <= length out ->
       SymCryptRsaOaepRemoveEncryptionPadding EM h pbLabel 0%Z (Some out) pcb0 scrRemove
       = (SYMCRYPT_NO_ERROR, Some (M ++ drop (length M) out), Z.of_nat (length M)).
Proof.
  intros Hwf Hseed Hk H32 HsA HsR.
  exists (oaep_encode h (oaep_DB h pbLabel M (length buf)) seed). split; [ | split].
  - rewrite oaep_apply_supplied_seed by (done || lia).
    rewrite Nat.sub_diag. cbn [replicate]. rewrite app_nil_r.
    rewrite take_ge by lia. reflexivity.
  - pose proof (length_oaep_DB h pbLabel M (length buf) Hwf Hk) as HlDB.
    unfold oaep_encode. len.
  - apply oaep_remove_of_encode; [done | done | done | lia | done].
Qed.

(** X2: the OAEP round trip with the seed drawn from the random source
    ([pbSeed = NULL]), on a block of fewer than [2^32] bytes: apply asks the callback for [hLen] bytes, and
    remove with the same label, on the block apply produced, returns
    [SYMCRYPT_NO_ERROR], reports the length [|M|] and copies exactly [M]
    to the front of the output buffer. *)
Lemma oaep_random_seed_roundtrip {RndState : Type}
    (rnd : RANDOM_CALLBACK RndState) (s s1 : RndState)
    (h : SYMCRYPT_HASH) (M pbLabel seed buf scrApply scrRemove out : list Z) (pcb0 : Z) :
  hash_wf h ->
  rnd s (SymCryptHashResultSize h) = (SYMCRYPT_NO_ERROR, seed, s1) ->
  length seed = SymCryptHashResultSize h ->
  length M + SymCryptHashResultSize h * 2 + 2 <= length buf ->
  (Z.of_nat (length buf) < 2 ^ 32)%Z ->
  SymCryptHashStateSize h + SymCryptHashResultSize h * 2
  + (length buf - (SymCryptHashResultSize h + 1)) * 2 <= length scrApply ->
  SymCryptHashStateSize h + SymCryptHashResultSize h * 3
  + (length buf - (SymCryptHashResultSize h + 1)) * 2 <= length scrRemove ->
  length M <= length out ->
  exists EM,
    SymCryptRsaOaepApplyEncryptionPadding rnd s M h pbLabel None 0 0%Z buf scrApply
    = (SYMCRYPT_NO_ERROR, EM, s1)
    /\ SymCryptRsaOaepRemoveEncryptionPadding EM h pbLabel 0%Z (Some out) pcb0 scrRemove
       = (SYMCRYPT_NO_ERROR, Some (M ++ drop (length M) out), Z.of_nat (length M)).
Proof.
  intros Hwf Hrnd Hseed Hk H32 HsA HsR Hout.
  exists (oaep_encode h (oaep_DB h pbLabel M (length buf)) seed). split.
  - apply oaep_apply_random_seed; done.
  - apply oaep_remove_of_encode; [done | done | done | lia | done | done].
Qed.

(** C2 fails on the code: a block whose data block is the label hash
    followed by zero bytes only, with no 0x01 byte, passes the PS scan,
    which leaves its loop at the end of the data block; remove returns
    [SYMCRYPT_NO_ERROR] and reports an empty plaintext. *)
Theorem oaep_remove_missing_separator_accepted
    (h : SYMCRYPT_HASH) (pbLabel seed pbScratch : list Z) (n : nat) (pcb0 : Z) :
  hash_wf h ->
  length seed = SymCryptHashResultSize h ->
  SymCryptHashStateSize h + SymCryptHashResultSize h * 3
  + (SymCryptHashResultSize h + n) * 2 <= length pbScratch ->
  (Z.of_nat (SymCryptHashResultSize h + n) < 2 ^ 64)%Z ->
  SymCryptRsaOaepRemoveEncryptionPadding
    (oaep_encode h (hashFn h pbLabel ++ replicate n 0%Z) seed) h pbLabel 0%Z None pcb0
    pbScratch
  = (SYMCRYPT_NO_ERROR, None, 0%Z).
Proof.
  intros Hwf Hseed Hscr H64.
  set (hl := SymCryptHashResultSize h) in *.
  set (DB := hashFn h pbLabel ++ replicate n 0%Z).
  assert (HlDB : length DB = hl + n) by (subst DB hl; len).
  rewrite oaep_encode_parts by done.
  set (mdb := xor_bytes DB (mgf_mask h seed (length DB))).
  set (ms := xor_bytes seed (mgf_mask h mdb (length seed))).
  assert (Hlmdb : length mdb = length DB) by (subst mdb; len).
  assert (Hlms : length ms = hl) by (subst ms; len).
  assert (Hrec : oaep_recovered_DB h ms mdb = DB)
    by (subst ms mdb; apply oaep_recover_encode; done).
  rewrite oaep_remove_general; [ | done | done | fold hl; lia].
  unfold oaep_remove_outcome. rewrite Hrec. fold hl.
  assert (Hlab : take hl (DB ++ hashFn h pbLabel) = hashFn h pbLabel).
  { subst DB. rewrite <- app_assoc. apply take_app_length'. subst hl. len. }
  rewrite Hlab. rewrite bool_decide_eq_true_2 by done.
  assert (Hps : ps_parse (drop hl DB) = Some n).
  { subst DB. rewrite drop_app_length' by (subst hl; len). apply ps_parse_zeros. }
  rewrite Hps. cbv zeta. do 2 f_equal.
  unfold SIZE_T_sub, SIZE_T_wrap. rewrite Hlmdb, HlDB. rewrite Z.sub_diag. reflexivity.
Qed.

(** C8 fails on the code: on a block of [hLen + 1] bytes whose byte 0 is
    zero the data block is empty, the label hash is compared with itself,
    the PS scan does not run, and [cbDB - cnt] wraps: with no plaintext
    buffer remove returns [SYMCRYPT_NO_ERROR] and reports the length
    [2^64 - hLen]. *)
Theorem oaep_remove_empty_db_length
    (h : SYMCRYPT_HASH) (pbLabel ms pbScratch : list Z) (pcb0 : Z) :
  hash_wf h ->
  length ms = SymCryptHashResultSize h ->
  SymCryptHashStateSize h + SymCryptHashResultSize h * 3 <= length pbScratch ->
  SymCryptRsaOaepRemoveEncryptionPadding ([0%Z] ++ ms) h pbLabel 0%Z None pcb0 pbScratch
  = (SYMCRYPT_NO_ERROR, None, (2 ^ 64 - Z.of_nat (SymCryptHashResultSize h))%Z).
Proof.
  intros Hwf Hms Hscr. pose proof Hwf as (Hpos & Hmax & Hhl).
  replace ([0%Z] ++ ms) with ([0%Z] ++ ms ++ []) by (rewrite app_nil_r; reflexivity).
  rewrite oaep_remove_general; [ | done | done | simpl; lia].
  unfold oaep_remove_outcome, oaep_recovered_DB. cbn [xor_bytes zip_with length app].
  rewrite take_ge by (rewrite Hhl; lia).
  rewrite bool_decide_eq_true_2 by done.
  rewrite drop_nil. cbn [ps_parse]. cbv zeta. do 2 f_equal.
  unfold SIZE_T_sub, SIZE_T_wrap. unfold SYMCRYPT_HASH_MAX_RESULT_SIZE in Hmax.
  symmetry. apply (Z.mod_unique _ _ (-1)%Z); cbn [length]; lia.
Qed.

(** * PSS *)

Lemma length_mask_first m l : length (mask_first m l) = length l.
Proof. destruct l; reflexivity. Qed.

#[export] Hint Rewrite length_mask_first : len.

Lemma store_head_inserts (data p : list Z) (off : nat) (m : Z) :
  0 < length data -> off + length data <= length p ->
  store (list_inserts off data p) off (Z.land (load (list_inserts off data p) off) m)
  = list_inserts off (mask_first m data) p.
Proof.
  intros Hd Hp. destruct data as [|b data]; [simpl in Hd; lia | ].
  cbn [list_inserts mask_first]. unfold store, load.
  rewrite list_lookup_insert_eq by (rewrite length_inserts; simpl in Hp; lia).
  cbn [default from_option id]. apply list_insert_insert_eq.
Qed.

(** The modulus length, the encoded-message length and the number of
    zero bits. *)
Lemma pss_lengths (nBits : Z) :
  (0 <= nBits < 2 ^ 32)%Z ->
  modulus_bytes nBits = (if (nBits mod 8 =? 1)%Z then 1 else 0) + pss_emLen nBits
  /\ (2 <= pss_emLen nBits ->
      (0 <= pss_zero_bits (pss_emLen nBits) nBits <= 7)%Z)
  /\ ((nBits mod 8 = 1)%Z -> pss_zero_bits (pss_emLen nBits) nBits = 0%Z).
Proof.
  intros Hn. unfold modulus_bytes, pss_emLen, pss_zero_bits, SIZE_T_sub, SIZE_T_wrap.
  assert (H64 : (2 ^ 32 = 4294967296)%Z) by reflexivity.
  assert (H64' : (2 ^ 64 = 18446744073709551616)%Z) by reflexivity.
  rewrite H64 in Hn. rewrite H64'. clear H64 H64'.
  destruct (Z.eqb_spec (nBits mod 8) 1) as [Hr|Hr].
  - split; [Z.div_mod_to_equations; lia | ]. split.
    + intros _. rewrite Z2Nat.id by (Z.div_mod_to_equations; lia).
      rewrite Z.mod_small; Z.div_mod_to_equations; lia.
    + intros _. rewrite Z2Nat.id by (Z.div_mod_to_equations; lia).
      rewrite Z.mod_small; Z.div_mod_to_equations; lia.
  - split; [Z.div_mod_to_equations; lia | ]. split.
    + intros _. rewrite Z2Nat.id by (Z.div_mod_to_equations; lia).
      rewrite Z.mod_small; Z.div_mod_to_equations; lia.
    + intros H. lia.
Qed.

(** The apply path from the computation of [cbDB] on, for a block that
    the code addresses at offset [off] with [cb] bytes. *)
Lemma pss_apply_tail (h : SYMCRYPT_HASH) (pbHash salt out0 pbScratch : list Z)
    (off cbPSSFormat : nat) (nBitsOfModulus : Z) :
  hash_wf h ->
  length out0 = off + cbPSSFormat ->
  SymCryptHashResultSize h + length salt + 2 <= cbPSSFormat ->
  SymCryptHashStateSize h + (8 + length pbHash + length salt)
  + (cbPSSFormat - (SymCryptHashResultSize h + 1)) * 2 <= length pbScratch ->
  let cbHash := length pbHash in
  let cbSalt := length salt in
  let cbHashAlg := SymCryptHashResultSize h in
  let cbHashState := SymCryptHashStateSize h in
  let cbDB := cbPSSFormat - (cbHashAlg + 1) in
  let cbPadding2 := cbDB - cbSalt - 1 in
  let cbMPrime := 8 + cbHash + cbSalt in
  let pbMPrime := cbHashState in
  let pbDB := pbMPrime + cbMPrime in
  let pbDBMask := pbDB + cbDB in
  let scr := SymCryptWipe pbScratch pbMPrime 8 in
  let scr := memcpy scr (pbMPrime + 8) pbHash cbHash in
  let scr := memcpy scr (pbMPrime + 8 + cbHash) salt cbSalt in
  let out :=
    SymCryptHash h (bytes_at scr pbMPrime cbMPrime) out0 (off + cbDB) cbHashAlg in
  let scr := SymCryptWipe scr pbDB cbPadding2 in
  let scr := store scr (pbDB + cbPadding2) 1%Z in
  let scr :=
    memcpy scr (pbDB + cbPadding2 + 1) (drop (pbMPrime + 8 + cbHash) scr) cbSalt in
  let scr := call_mgf h out (off + cbDB) cbHashAlg scr pbDBMask cbDB in
  let out :=
    fold_left
      (fun out i =>
         store out (off + i)
           (Z.lxor (load scr (pbDB + i)) (load scr (pbDBMask + i))))
      (seq 0 cbDB) out in
  let dwZeroBits := SIZE_T_sub (8 * Z.of_nat cbPSSFormat + 1) nBitsOfModulus in
  let out :=
    store out off (Z.land (load out off) (to_BYTE (Z.shiftr 255 dwZeroBits))) in
  store out (off + (cbPSSFormat - 1)) 188%Z
  = bytes_at out0 0 off ++ pss_encode h pbHash salt cbPSSFormat nBitsOfModulus.
Proof.
  intros Hwf Hout Hcb Hscr. cbv zeta.
  set (hl := SymCryptHashResultSize h) in *.
  set (st := SymCryptHashStateSize h) in *.
  set (cbDB := cbPSSFormat - (hl + 1)) in *.
  assert (HcbDB : cbPSSFormat = cbDB + hl + 1) by (subst cbDB; lia).
  set (pad2 := cbDB - length salt - 1).
  assert (Hpad2 : cbDB = pad2 + 1 + length salt) by (subst pad2; lia).
  clearbody pad2 cbDB.
  set (cbM := 8 + length pbHash + length salt) in *.
  set (M' := replicate 8 0%Z ++ pbHash ++ salt).
  set (H' := hashFn h M').
  assert (HlH : length H' = hl) by (subst H' hl; len).
  unfold SymCryptWipe, memset, memcpy.
  rewrite (take_ge pbHash), (take_ge salt) by lia.
  rewrite hash_to_eq by done.
  rewrite call_mgf_eq by (done || len).
  rewrite xor_loop_other by len.
  unfold store.
  (* M' *)
  set (scr3 := list_inserts (st + 8 + length pbHash) salt
                 (list_inserts (st + 8) pbHash (list_inserts st (replicate 8 0%Z) pbScratch))).
  assert (Hl3 : length scr3 = length pbScratch) by (subst scr3; len).
  assert (HM : bytes_at scr3 st cbM = M').
  { subst scr3 cbM M'. rewrite !bytes_at_split. rd. reflexivity. }
  rewrite HM. fold H'.
  set (out1 := list_inserts (off + cbDB) H' out0).
  assert (Hlo1 : length out1 = off + cbPSSFormat) by (subst out1; len).
  (* DB *)
  assert (Hsalt : take (length salt)
                    (drop (st + 8 + length pbHash)
                       (<[st + cbM + pad2 := 1%Z]>
                          (list_inserts (st + cbM) (replicate pad2 0%Z) scr3))) = salt).
  { fold (bytes_at (<[st + cbM + pad2 := 1%Z]>
                      (list_inserts (st + cbM) (replicate pad2 0%Z) scr3))
            (st + 8 + length pbHash) (length salt)).
    subst scr3 cbM. rd. reflexivity. }
  rewrite Hsalt.
  set (scr6 := list_inserts (st + cbM + pad2 + 1) salt
                 (<[st + cbM + pad2 := 1%Z]>
                    (list_inserts (st + cbM) (replicate pad2 0%Z) scr3))).
  assert (Hl6 : length scr6 = length pbScratch) by (subst scr6; len).
  set (DB := replicate pad2 0%Z ++ [1%Z] ++ salt).
  assert (HlDB : length DB = cbDB) by (subst DB; len).
  assert (HDB : bytes_at scr6 (st + cbM) cbDB = DB).
  { subst scr6 DB. rewrite Hpad2. rewrite !bytes_at_split.
    rd. rewrite <- ?app_assoc. reflexivity. }
  (* mask *)
  replace (bytes_at out1 (off + cbDB) hl) with H' by (subst out1; rd; reflexivity).
  set (mask := mgf_mask h H' cbDB).
  set (scr7 := list_inserts (st + cbM + cbDB) mask scr6).
  assert (Hl7 : length scr7 = length pbScratch) by (subst scr7; len).
  replace (bytes_at scr7 (st + cbM) cbDB) with DB
    by (subst scr7; rd; symmetry; exact HDB).
  replace (bytes_at scr7 (st + cbM + cbDB) cbDB) with mask
    by (subst scr7 mask; rd; reflexivity).
  fold (store (list_inserts off (xor_bytes DB mask) out1) off
          (Z.land (load (list_inserts off (xor_bytes DB mask) out1) off)
             (to_BYTE (Z.shiftr 255 (SIZE_T_sub (8 * Z.of_nat cbPSSFormat + 1) nBitsOfModulus))))).
  rewrite store_head_inserts by (subst mask; len).
  unfold pss_encode. fold hl. fold M'. fold H'.
  replace (cbPSSFormat - (hl + 1)) with cbDB by lia.
  replace (cbDB - length salt - 1) with pad2 by lia.
  fold DB. fold mask. fold (pss_zero_bits cbPSSFormat nBitsOfModulus).
  set (mDB := mask_first _ (xor_bytes DB mask)).
  assert (HlmDB : length mDB = cbDB) by (subst mDB mask; len).
  rewrite (bytes_cover _ (off + (cbDB + (hl + 1)))) at 1 by (subst out1; len).
  rewrite !bytes_at_split. subst out1. unfold store.
  replace (off + (cbPSSFormat - 1)) with (off + cbDB + hl) by lia.
  rewrite bytes_at_insert_ne by len. rewrite bytes_at_inserts_ne by len.
  rewrite bytes_at_inserts_ne by len.
  rewrite bytes_at_insert_ne by len. rewrite (bytes_at_inserts_eq mDB) by len.
  rewrite bytes_at_insert_ne by len. rewrite bytes_at_inserts_ne by len.
  rewrite (bytes_at_inserts_eq H') by len.
  rewrite bytes_at_insert_eq by len.
  reflexivity.
Qed.

Lemma pss_apply_supplied_salt {RndState : Type} (rnd : RANDOM_CALLBACK RndState) (s : RndState)
    (h : SYMCRYPT_HASH) (pbHash salt : list Z) (nBits : Z) (buf pbScratch : list Z) :
  hash_wf h ->
  (0 <= nBits < 2 ^ 32)%Z ->
  length buf = modulus_bytes nBits ->
  SymCryptHashResultSize h + length salt + 2 <= pss_emLen nBits ->
  SymCryptHashStateSize h + (8 + length pbHash + length salt)
  + (pss_emLen nBits - (SymCryptHashResultSize h + 1)) * 2 <= length pbScratch ->
  SymCryptRsaPssApplySignaturePadding rnd s pbHash h (Some salt) (length salt) nBits 0%Z
    (Some buf) pbScratch
  = (SYMCRYPT_NO_ERROR, Some (pss_block h pbHash salt nBits), s).
Proof.
  intros Hwf Hn Hbuf Hem Hscr.
  destruct (pss_lengths nBits Hn) as (Hk & _ & _).
  unfold SymCryptRsaPssApplySignaturePadding, pss_block.
  destruct (Nat.eqb_spec (length buf) 0) as [?|_]; [lia | ].
  destruct (Z.eqb_spec (nBits mod 8) 1) as [Hr|Hr]; cbv beta iota zeta.
  - replace (length buf - 1) with (pss_emLen nBits) by lia.
    cbn [Z.eqb negb orb].
    destruct (Nat.ltb_spec (pss_emLen nBits) (SymCryptHashResultSize h + length salt + 2))
      as [?|_]; [lia | ].
    cbn [is_no_error negb].
    rewrite (pss_apply_tail h pbHash salt (store buf 0 0%Z) pbScratch 1 (pss_emLen nBits) nBits)
      by (done || len).
    do 3 f_equal. unfold store. rewrite bytes_at_insert_eq by lia. reflexivity.
  - cbn [Z.eqb negb orb].
    replace (length buf) with (pss_emLen nBits) by lia.
    destruct (Nat.ltb_spec (pss_emLen nBits) (SymCryptHashResultSize h + length salt + 2))
      as [?|_]; [lia | ].
    cbn [is_no_error negb].
    rewrite (pss_apply_tail h pbHash salt buf pbScratch 0 (pss_emLen nBits) nBits)
      by (done || len).
    reflexivity.
Qed.

(** With no salt supplied the salt is what the random source hands
    back. *)
Lemma pss_apply_random_salt {RndState : Type} (rnd : RANDOM_CALLBACK RndState) (s s1 : RndState)
    (h : SYMCRYPT_HASH) (pbHash salt : list Z) (nBits : Z) (buf pbScratch : list Z) :
  hash_wf h ->
  (0 <= nBits < 2 ^ 32)%Z ->
  length buf = modulus_bytes nBits ->
  rnd s (length salt) = (SYMCRYPT_NO_ERROR, salt, s1) ->
  SymCryptHashResultSize h + length salt + 2 <= pss_emLen nBits ->
  SymCryptHashStateSize h + (8 + length pbHash + length salt)
  + (pss_emLen nBits - (SymCryptHashResultSize h + 1)) * 2 <= length pbScratch ->
  SymCryptRsaPssApplySignaturePadding rnd s pbHash h None (length salt) nBits 0%Z
    (Some buf) pbScratch
  = (SYMCRYPT_NO_ERROR, Some (pss_block h pbHash salt nBits), s1).
Proof.
  intros Hwf Hn Hbuf Hrnd Hem Hscr.
  destruct (pss_lengths nBits Hn) as (Hk & _ & _).
  unfold SymCryptRsaPssApplySignaturePadding, pss_block, SymCryptCallbackRandom.
  rewrite Hrnd.
  destruct (Nat.eqb_spec (length buf) 0) as [?|_]; [lia | ].
  destruct (Z.eqb_spec (nBits mod 8) 1) as [Hr|Hr]; cbv beta iota zeta.
  - replace (length buf - 1) with (pss_emLen nBits) by lia.
    cbn [Z.eqb negb orb].
    destruct (Nat.ltb_spec (pss_emLen nBits) (SymCryptHashResultSize h + length salt + 2))
      as [?|_]; [lia | ].
    cbn [is_no_error negb].
    rewrite (pss_apply_tail h pbHash salt (store buf 0 0%Z) pbScratch 1 (pss_emLen nBits) nBits)
      by (done || len).
    do 3 f_equal. unfold store. rewrite bytes_at_insert_eq by lia. reflexivity.
  - cbn [Z.eqb negb orb].
    replace (length buf) with (pss_emLen nBits) by lia.
    destruct (Nat.ltb_spec (pss_emLen nBits) (SymCryptHashResultSize h + length salt + 2))
      as [?|_]; [lia | ].
    cbn [is_no_error negb].
    rewrite (pss_apply_tail h pbHash salt buf pbScratch 0 (pss_emLen nBits) nBits)
      by (done || len).
    reflexivity.
Qed.

(** ** The top-byte masks *)

Lemma pss_masks_disjoint (z x : Z) :
  (0 <= z <= 7)%Z ->
  Z.land (Z.land x (to_BYTE (Z.shiftr 255 z))) (to_BYTE (Z.shiftl 255 (SIZE_T_sub 8 z))) = 0%Z.
Proof.
  intros Hz. rewrite <- Z.land_assoc.
  assert (Hm : Z.land (to_BYTE (Z.shiftr 255 z)) (to_BYTE (Z.shiftl 255 (SIZE_T_sub 8 z))) = 0%Z).
  { assert (Hc : (z = 0 \/ z = 1 \/ z = 2 \/ z = 3 \/ z = 4 \/ z = 5 \/ z = 6 \/ z = 7)%Z) by lia.
    repeat (destruct Hc as [Hc|Hc]); subst z; reflexivity. }
  rewrite Hm. apply Z.land_0_r.
Qed.

Lemma land_lxor_mask (d m k : Z) :
  Z.land (Z.lxor (Z.land (Z.lxor d m) k) m) k = Z.land d k.
Proof.
  apply Z.bits_inj'. intros n Hn.
  rewrite !Z.land_spec, !Z.lxor_spec, !Z.land_spec, Z.lxor_spec.
  destruct (Z.testbit d n), (Z.testbit m n), (Z.testbit k n); reflexivity.
Qed.

Lemma pss_mask_keeps_bit (z d : Z) :
  (0 <= z <= 7)%Z -> d = 0%Z \/ d = 1%Z -> Z.land d (to_BYTE (Z.shiftr 255 z)) = d.
Proof.
  intros Hz Hd.
  assert (Hc : (z = 0 \/ z = 1 \/ z = 2 \/ z = 3 \/ z = 4 \/ z = 5 \/ z = 6 \/ z = 7)%Z) by lia.
  destruct Hd as [Hd|Hd]; subst d;
    repeat (destruct Hc as [Hc|Hc]); subst z; reflexivity.
Qed.

Lemma pss_db_recover (k : Z) (DB mask : list Z) (d0 : Z) (DB' : list Z) :
  DB = d0 :: DB' -> Z.land d0 k = d0 -> length DB = length mask ->
  mask_first k (xor_bytes (mask_first k (xor_bytes DB mask)) mask) = DB.
Proof.
  intros -> Hd Hl. destruct mask as [|m mask]; [simpl in Hl; lia | ].
  cbn [xor_bytes zip_with mask_first]. rewrite land_lxor_mask, Hd. f_equal.
  apply xor_bytes_cancel. simpl in Hl. lia.
Qed.

Lemma existsb_nonzero_loads (a : list Z) (x n : nat) :
  x + n <= length a ->
  existsb (fun i => negb (load a (x + i) =? 0)%Z) (seq 0 n)
  = negb (bool_decide (bytes_at a x n = replicate n 0%Z)).
Proof.
  intros Ha. rewrite (existsb_neq_maps (fun i => load a (x + i)) (fun _ => 0%Z)).
  rewrite map_load_seq by done. f_equal. f_equal.
  apply bool_decide_ext.
  assert (Hr : map (fun _ : nat => 0%Z) (seq 0 n) = replicate n 0%Z).
  { clear. generalize 0. induction n as [|n IH]; intros k; [reflexivity | ].
    cbn. rewrite IH. reflexivity. }
  rewrite Hr. reflexivity.
Qed.

(** The verify path from the computation of [dwZeroBits] on, for a block
    that the code addresses at offset [off] with [cb] bytes and that
    holds the encoded message of [pbHash] and [salt]. *)
Lemma pss_verify_tail (h : SYMCRYPT_HASH) (pbHash salt pre pbScratch : list Z)
    (off cbPSSFormat : nat) (nBitsOfModulus : Z) :
  hash_wf h ->
  length pre = off ->
  SymCryptHashResultSize h + length salt + 2 <= cbPSSFormat ->
  (0 <= pss_zero_bits cbPSSFormat nBitsOfModulus <= 7)%Z ->
  SymCryptHashStateSize h + (cbPSSFormat - (SymCryptHashResultSize h + 1))
  + (8 + length pbHash + length salt) + SymCryptHashResultSize h <= length pbScratch ->
  let em := pre ++ pss_encode h pbHash salt cbPSSFormat nBitsOfModulus in
  let cbHash := length pbHash in
  let cbSalt := length salt in
  let cbHashAlg := SymCryptHashResultSize h in
  let cbHashState := SymCryptHashStateSize h in
  let dwZeroBits := SIZE_T_sub (8 * Z.of_nat cbPSSFormat + 1) nBitsOfModulus in
  (if negb (Z.land (load em off)
              (to_BYTE (Z.shiftl 255 (SIZE_T_sub 8 dwZeroBits))) =? 0)%Z
      || negb (load em (off + cbPSSFormat - 1) =? 188)%Z
      || (cbPSSFormat <? cbHashAlg + cbSalt + 2)
   then SYMCRYPT_INVALID_ARGUMENT
   else
     let cbDB := cbPSSFormat - (cbHashAlg + 1) in
     let cbMPrime := 8 + cbHash + cbSalt in
     let pbDBMask := cbHashState in
     let pbMPrime := pbDBMask + cbDB in
     let pbMPrimeHash := pbMPrime + cbMPrime in
     let pbHashOfMPrimeIndex := off + (cbPSSFormat - (cbHashAlg + 1)) in
     let scr :=
       call_mgf h em pbHashOfMPrimeIndex cbHashAlg pbScratch pbDBMask cbDB in
     let scr :=
       fold_left
         (fun scr i =>
            store scr (pbDBMask + i)
              (Z.lxor (load em (off + i)) (load scr (pbDBMask + i))))
         (seq 0 cbDB) scr in
     let scr :=
       store scr pbDBMask
         (Z.land (load scr pbDBMask) (to_BYTE (Z.shiftr 255 dwZeroBits))) in
     if existsb (fun i => negb (load scr (pbDBMask + i) =? 0)%Z)
          (seq 0 (cbDB - cbSalt - 1))
     then SYMCRYPT_INVALID_ARGUMENT
     else if negb (load scr (pbDBMask + (cbDB - cbSalt - 1)) =? 1)%Z then
       SYMCRYPT_INVALID_ARGUMENT
     else
       let scr := SymCryptWipe scr pbMPrime 8 in
       let scr := memcpy scr (pbMPrime + 8) pbHash cbHash in
       let scr :=
         memcpy scr (pbMPrime + 8 + cbHash)
           (drop (pbDBMask + (cbDB - cbSalt)) scr) cbSalt in
       let scr :=
         SymCryptHash h (bytes_at scr pbMPrime cbMPrime)
           scr pbMPrimeHash cbHashAlg in
       if negb (SymCryptEqual (drop (off + cbDB) em) (drop pbMPrimeHash scr) cbHashAlg)
       then SYMCRYPT_INVALID_ARGUMENT
       else SYMCRYPT_NO_ERROR)
  = SYMCRYPT_NO_ERROR.
Proof.
  intros Hwf Hpre Hcb Hz Hscr. cbv zeta.
  fold (pss_zero_bits cbPSSFormat nBitsOfModulus).
  set (z := pss_zero_bits cbPSSFormat nBitsOfModulus) in *.
  set (hl := SymCryptHashResultSize h) in *.
  set (st := SymCryptHashStateSize h) in *.
  unfold pss_encode. fold hl. fold z.
  set (cbDB := cbPSSFormat - (hl + 1)) in *.
  assert (HcbDB : cbPSSFormat = cbDB + hl + 1) by (subst cbDB; lia).
  set (pad2 := cbDB - length salt - 1).
  assert (Hpad2 : cbDB = pad2 + 1 + length salt) by (subst pad2; lia).
  clearbody pad2 cbDB.
  set (cbM := 8 + length pbHash + length salt) in *.
  set (M' := replicate 8 0%Z ++ pbHash ++ salt).
  set (H' := hashFn h M').
  assert (HlH : length H' = hl) by (subst H' hl; len).
  set (mask := mgf_mask h H' cbDB).
  assert (Hlmask : length mask = cbDB) by (subst mask; len).
  set (DB := replicate pad2 0%Z ++ [1%Z] ++ salt).
  assert (HlDB : length DB = cbDB) by (subst DB; len).
  set (mk := to_BYTE (Z.shiftr 255 z)).
  set (mDB := mask_first mk (xor_bytes DB mask)).
  assert (HlmDB : length mDB = cbDB) by (subst mDB; len).
  set (em := pre ++ mDB ++ H' ++ [188%Z]).
  assert (Hlem : length em = off + cbPSSFormat) by (subst em; len).
  (* the three checks on the block *)
  assert (Hb0 : Z.land (load em off) (to_BYTE (Z.shiftl 255 (SIZE_T_sub 8 z))) = 0%Z).
  { subst em. rewrite load_app_r by lia. rewrite Hpre, Nat.sub_diag.
    rewrite load_app_l by lia.
    subst mDB. destruct (xor_bytes DB mask) as [|b l] eqn:Hx.
    - apply (f_equal length) in Hx. rewrite length_xor_bytes in Hx. simpl in Hx. lia.
    - cbn [mask_first load lookup list_lookup default from_option id].
      apply pss_masks_disjoint. done. }
  rewrite Hb0.
  assert (Hbc : load em (off + cbPSSFormat - 1) = 188%Z).
  { subst em. rewrite load_app_r by lia. rewrite load_app_r by lia.
    rewrite load_app_r by lia.
    replace (off + cbPSSFormat - 1 - length pre - length mDB - length H') with 0 by lia.
    reflexivity. }
  rewrite Hbc. cbn [Z.eqb negb orb].
  destruct (Nat.ltb_spec cbPSSFormat (hl + length salt + 2)) as [?|_]; [lia | ].
  (* the mask and the data block *)
  rewrite call_mgf_eq by (done || lia).
  assert (HH : bytes_at em (off + cbDB) hl = H').
  { subst em. rewrite app_assoc. apply bytes_at_app_mid; [len | lia]. }
  rewrite HH. fold mask.
  set (scr1 := list_inserts st mask pbScratch).
  assert (Hl1 : length scr1 = length pbScratch) by (subst scr1; len).
  rewrite (xor_loop_scratch scr1 em) by (len || lia).
  assert (HmDB : bytes_at em off cbDB = mDB).
  { subst em. apply bytes_at_app_mid; [lia | lia]. }
  rewrite HmDB.
  replace (bytes_at scr1 st cbDB) with mask by (subst scr1; rd; reflexivity).
  rewrite store_head_inserts by len.
  assert (Hrec : mask_first mk (xor_bytes mDB mask) = DB).
  { subst mDB. destruct pad2 as [|pad2].
    - apply (pss_db_recover mk DB mask 1%Z salt); [reflexivity | | lia].
      apply pss_mask_keeps_bit; [done | right; reflexivity].
    - apply (pss_db_recover mk DB mask 0%Z (replicate pad2 0%Z ++ [1%Z] ++ salt));
        [reflexivity | | lia].
      apply pss_mask_keeps_bit; [done | left; reflexivity]. }
  rewrite Hrec.
  set (scr3 := list_inserts st DB scr1).
  assert (Hl3 : length scr3 = length pbScratch) by (subst scr3; len).
  assert (HDB3 : bytes_at scr3 st cbDB = DB) by (subst scr3; rd; reflexivity).
  (* padding 2 and the 0x01 byte *)
  replace (cbDB - length salt - 1) with pad2 by lia.
  rewrite existsb_nonzero_loads by lia.
  assert (Hz0 : bytes_at scr3 st pad2 = replicate pad2 0%Z).
  { rewrite (bytes_at_take scr3 st pad2 (1 + length salt)).
    replace (pad2 + (1 + length salt)) with cbDB by lia. rewrite HDB3.
    subst DB. apply take_app_length'. len. }
  rewrite Hz0. rewrite bool_decide_eq_true_2 by done. cbn [negb].
  assert (H01 : load scr3 (st + pad2) = 1%Z).
  { rewrite <- (load_bytes_at scr3 st cbDB pad2) by lia. rewrite HDB3.
    subst DB. rewrite load_app_r by len. rewrite length_replicate, Nat.sub_diag.
    reflexivity. }
  rewrite H01. cbn [Z.eqb negb].
  (* M' and its hash *)
  unfold SymCryptWipe, memset, memcpy. rewrite (take_ge pbHash) by lia.
  replace (cbDB - length salt) with (pad2 + 1) by lia.
  assert (Hsalt : take (length salt)
                    (drop (st + (pad2 + 1))
                       (list_inserts (st + cbDB + 8) pbHash
                          (list_inserts (st + cbDB) (replicate 8 0%Z) scr3))) = salt).
  { fold (bytes_at (list_inserts (st + cbDB + 8) pbHash
                      (list_inserts (st + cbDB) (replicate 8 0%Z) scr3))
            (st + (pad2 + 1)) (length salt)).
    rd.
    replace (length salt) with (cbDB - (pad2 + 1)) at 1 by lia.
    rewrite bytes_at_drop, HDB3. subst DB.
    rewrite app_assoc. apply drop_app_length'. len. }
  rewrite Hsalt.
  set (scr6 := list_inserts (st + cbDB + 8 + length pbHash) salt
                 (list_inserts (st + cbDB + 8) pbHash
                    (list_inserts (st + cbDB) (replicate 8 0%Z) scr3))).
  assert (Hl6 : length scr6 = length pbScratch) by (subst scr6; len).
  assert (HM : bytes_at scr6 (st + cbDB) cbM = M').
  { subst scr6 cbM M'. rewrite !bytes_at_split. rd. reflexivity. }
  rewrite HM. rewrite hash_to_eq by done. fold H'.
  unfold SymCryptEqual.
  fold (bytes_at em (off + cbDB) hl).
  fold (bytes_at (list_inserts (st + cbDB + cbM) H' scr6) (st + cbDB + cbM) hl).
  rewrite HH. rewrite bytes_at_inserts_eq by len.
  rewrite bool_decide_eq_true_2 by done. reflexivity.
Qed.

Lemma length_pss_encode (h : SYMCRYPT_HASH) (pbHash salt : list Z) (emLen : nat) (nBits : Z) :
  hash_wf h -> SymCryptHashResultSize h + length salt + 2 <= emLen ->
  length (pss_encode h pbHash salt emLen nBits) = emLen.
Proof. intros Hwf H. unfold pss_encode. len. Qed.

Lemma pss_verify_block (h : SYMCRYPT_HASH) (pbHash salt : list Z) (nBits : Z)
    (pbScratch : list Z) :
  hash_wf h ->
  (0 <= nBits < 2 ^ 32)%Z ->
  SymCryptHashResultSize h + length salt + 2 <= pss_emLen nBits ->
  SymCryptHashStateSize h + (pss_emLen nBits - (SymCryptHashResultSize h + 1))
  + (8 + length pbHash + length salt) + SymCryptHashResultSize h <= length pbScratch ->
  SymCryptRsaPssVerifySignaturePadding pbHash h (length salt)
    (Some (pss_block h pbHash salt nBits)) nBits 0%Z pbScratch
  = SYMCRYPT_NO_ERROR.
Proof.
  intros Hwf Hn Hem Hscr.
  destruct (pss_lengths nBits Hn) as (Hk & Hz & _).
  pose proof (length_pss_encode h pbHash salt (pss_emLen nBits) nBits Hwf Hem) as Hlen.
  unfold SymCryptRsaPssVerifySignaturePadding, pss_block.
  cbn [Z.eqb negb orb].
  destruct (Z.eqb_spec (nBits mod 8) 1) as [Hr|Hr].
  - assert (Hl : length ([0%Z] ++ pss_encode h pbHash salt (pss_emLen nBits) nBits)
                 = 1 + pss_emLen nBits) by len.
    rewrite Hl. cbn [Nat.eqb plus andb].
    change (load ([0%Z] ++ pss_encode h pbHash salt (pss_emLen nBits) nBits) 0) with 0%Z.
    cbn [Z.eqb negb]. cbv beta iota zeta.
    replace (S (pss_emLen nBits) - 1) with (pss_emLen nBits) by lia.
    apply (pss_verify_tail h pbHash salt [0%Z] pbScratch 1 (pss_emLen nBits) nBits);
      [done | reflexivity | done | apply Hz; lia | done].
  - cbn [app andb]. rewrite Hlen.
    destruct (Nat.eqb_spec (pss_emLen nBits) 0) as [?|_]; [lia | ].
    cbv beta iota zeta.
    apply (pss_verify_tail h pbHash salt [] pbScratch 0 (pss_emLen nBits) nBits);
      [done | reflexivity | done | apply Hz; lia | done].
Qed.

Lemma pss_verify_rejects_top_byte (h : SYMCRYPT_HASH) (pbHash em : list Z) (cbSalt : nat)
    (nBits flags : Z) (pbScratch : list Z) :
  (nBits mod 8 = 1)%Z -> load em 0 <> 0%Z ->
  SymCryptRsaPssVerifySignaturePadding pbHash h cbSalt (Some em) nBits flags pbScratch
  = SYMCRYPT_INVALID_ARGUMENT.
Proof.
  intros Hr Hb. unfold SymCryptRsaPssVerifySignaturePadding.
  destruct (negb (flags =? 0)%Z || (length em =? 0)); [reflexivity | ].
  rewrite Hr. cbn [Z.eqb Pos.eqb andb].
  destruct (Z.eqb_spec (load em 0) 0) as [?|_]; [done | reflexivity].
Qed.

(** C5: for [emLen >= hLen + sLen + 2] and a block of the byte length of
    the modulus, apply with a supplied salt returns [SYMCRYPT_NO_ERROR] and
    verify with [sLen = |salt|] on the block apply produced returns
    [SYMCRYPT_NO_ERROR]; when [nBits mod 8 = 1] byte 0 of that block is
    0x00, and verify returns [SYMCRYPT_INVALID_ARGUMENT] on every block
    whose byte 0 is not zero. *)
Theorem pss_roundtrip {RndState : Type} (rnd : RANDOM_CALLBACK RndState) (s : RndState)
    (h : SYMCRYPT_HASH) (pbHash salt : list Z) (nBits : Z)
    (buf scrApply scrVerify : list Z) :
  hash_wf h ->
  (0 <= nBits < 2 ^ 32)%Z ->
  length buf = modulus_bytes nBits ->
  SymCryptHashResultSize h + length salt + 2 <= pss_emLen nBits ->
  SymCryptHashStateSize h + (8 + length pbHash + length salt)
  + (pss_emLen nBits - (SymCryptHashResultSize h + 1)) * 2 <= length scrApply ->
  SymCryptHashStateSize h + (pss_emLen nBits - (SymCryptHashResultSize h + 1))
  + (8 + length pbHash + length salt) + SymCryptHashResultSize h <= length scrVerify ->
  (exists EM,
     SymCryptRsaPssApplySignaturePadding rnd s pbHash h (Some salt) (length salt)
       nBits 0%Z (Some buf) scrApply
     = (SYMCRYPT_NO_ERROR, Some EM, s)
     /\ SymCryptRsaPssVerifySignaturePadding pbHash h (length salt) (Some EM) nBits 0%Z
          scrVerify
        = SYMCRYPT_NO_ERROR
     /\ length EM = length buf
     /\ ((nBits mod 8 = 1)%Z -> load EM 0 = 0%Z))
  /\
  ((nBits mod 8 = 1)%Z ->
   forall (pbHash' em : list Z) (cbSalt' : nat) (flags' : Z) (pbScratch' : list Z),
     load em 0 <> 0%Z ->
     SymCryptRsaPssVerifySignaturePadding pbHash' h cbSalt' (Some em) nBits flags' pbScratch'
     = SYMCRYPT_INVALID_ARGUMENT).
Proof.
  intros Hwf Hn Hbuf Hem HsA HsV. split.
  - exists (pss_block h pbHash salt nBits). split; [ | split; [ | split]].
    + apply pss_apply_supplied_salt; done.
    + apply pss_verify_block; done.
    + destruct (pss_lengths nBits Hn) as (Hk & _ & _). unfold pss_block.
      rewrite length_app, length_pss_encode by done. rewrite Hbuf, Hk.
      destruct (nBits mod 8 =? 1)%Z; reflexivity.
    + intros Hr. unfold pss_block. rewrite Hr. reflexivity.
  - intros Hr pbHash' em cbSalt' flags' pbScratch' Hb.
    apply pss_verify_rejects_top_byte; done.
Qed.

Lemma I2OSP_4 (c : Z) : (0 <= c < 2 ^ 32)%Z -> I2OSP c 4 = Some (BE32 c).
Proof.
  intros Hc. unfold I2OSP.
  destruct (Z.leb_spec (256 ^ Z.of_nat 4) c) as [Hge|_].
  { change (256 ^ Z.of_nat 4)%Z with (2 ^ 32)%Z in Hge. lia. }
  f_equal. cbn [I2OSP_digits app]. unfold BE32.
  change 255%Z with (Z.ones 8). rewrite !Z.land_ones by lia.
  rewrite !Z.shiftr_div_pow2 by lia.
  rewrite !Z.div_div by lia.
  reflexivity.
Qed.

Lemma MGF1_blocks_code (h : SYMCRYPT_HASH) (seed : list Z) : forall n c,
  (Z.of_nat (c + n) <= 2 ^ 32)%Z ->
  MGF1_blocks (hashFn h) seed (seq c n) = Some (concat (map (mgf_block h seed) (seq c n))).
Proof.
  induction n as [|n IH]; intros c Hc; [reflexivity | ].
  cbn [seq MGF1_blocks map concat].
  rewrite I2OSP_4 by lia. rewrite IH by lia. reflexivity.
Qed.

(** C7: the mask generator, with its low-byte counter shortcut for fewer
    than 256 iterations and the byte reversal otherwise, leaves in the
    output buffer the canonical MGF1 mask: the digests of
    [seed || I2OSP (i, 4)] for [i = 0 .. ceil (maskLen / hLen) - 1],
    concatenated and cut to [maskLen] bytes.  The canonical definition
    exists for at most [2^32] counters. *)
Theorem mgf1_matches_canonical (h : SYMCRYPT_HASH) (seed dst : list Z) :
  hash_wf h ->
  (Z.of_nat ((length dst + (SymCryptHashResultSize h - 1)) / SymCryptHashResultSize h)
   <= 2 ^ 32)%Z ->
  MGF1 (hashFn h) (SymCryptHashResultSize h) seed (length dst)
  = Some (SymCryptRsaPaddingMaskGeneration h seed dst).
Proof.
  intros Hwf Hn. rewrite mgf_generation_mask by done.
  unfold MGF1, mgf_mask. rewrite MGF1_blocks_code by (simpl; lia). reflexivity.
Qed.

Lemma demo_hash_wf : hash_wf demo_hash.
Proof.
  split; [simpl; lia | ]. split; [vm_compute; lia | ]. intros x. reflexivity.
Qed.

(** C7 on a seed of four bytes and five mask bytes: two full digests of
    the two-byte checksum and one cut to a single byte. *)
Lemma mgf1_matches_canonical_witness :
  hash_wf demo_hash /\
  (Z.of_nat ((length (replicate 5 9%Z) + (SymCryptHashResultSize demo_hash - 1))
             / SymCryptHashResultSize demo_hash) <= 2 ^ 32)%Z /\
  MGF1 (hashFn demo_hash) (SymCryptHashResultSize demo_hash) [1; 35; 69; 103]%Z
    (length (replicate 5 9%Z))
  = Some (SymCryptRsaPaddingMaskGeneration demo_hash [1; 35; 69; 103]%Z (replicate 5 9%Z)).
Proof.
  split; [exact demo_hash_wf | ]. split; [vm_compute; discriminate | ].
  apply (mgf1_matches_canonical demo_hash [1; 35; 69; 103]%Z (replicate 5 9%Z));
    [exact demo_hash_wf | vm_compute; discriminate].
Defined.

(** The byte reversal path: 300 iterations. *)
Example mgf1_reverse_path :
  MGF1 demo_digest 2 [7%Z] 600
  = Some (SymCryptRsaPaddingMaskGeneration demo_hash [7%Z] (replicate 600 0%Z)).
Proof. vm_compute. reflexivity. Qed.

(** C4 on the plaintext "Hello", an empty label, a seed of two zero bytes
    and a block of twelve bytes. *)
Lemma oaep_roundtrip_witness :
  hash_wf demo_hash /\
  length [0; 0]%Z = SymCryptHashResultSize demo_hash /\
  length [72; 101; 108; 108; 111]%Z + SymCryptHashResultSize demo_hash * 2 + 2
    <= length (replicate 12 0%Z) /\
  (Z.of_nat (length (replicate 12 0%Z)) < 2 ^ 32)%Z /\
  SymCryptHashStateSize demo_hash + SymCryptHashResultSize demo_hash * 2
    + (length (replicate 12 0%Z) - (SymCryptHashResultSize demo_hash + 1)) * 2
    <= length (replicate 26 0%Z) /\
  SymCryptHashStateSize demo_hash + SymCryptHashResultSize demo_hash * 3
    + (length (replicate 12 0%Z) - (SymCryptHashResultSize demo_hash + 1)) * 2
    <= length (replicate 28 0%Z) /\
  exists EM,
    SymCryptRsaOaepApplyEncryptionPadding tape_random [] [72; 101; 108; 108; 111]%Z
      demo_hash [] (Some [0; 0]%Z) (SymCryptHashResultSize demo_hash) 0%Z
      (replicate 12 0%Z) (replicate 26 0%Z)
    = (SYMCRYPT_NO_ERROR, EM, [])
    /\ length EM = length (replicate 12 0%Z)
    /\ SymCryptRsaOaepRemoveEncryptionPadding EM demo_hash [] 0%Z None 0%Z (replicate 28 0%Z)
       = (SYMCRYPT_NO_ERROR, None, Z.of_nat (length [72; 101; 108; 108; 111]%Z))
    /\ forall out, length [72; 101; 108; 108; 111]%Z <= length out ->
       SymCryptRsaOaepRemoveEncryptionPadding EM demo_hash [] 0%Z (Some out) 0%Z
         (replicate 28 0%Z)
       = (SYMCRYPT_NO_ERROR,
          Some ([72; 101; 108; 108; 111]%Z ++ drop (length [72; 101; 108; 108; 111]%Z) out),
          Z.of_nat (length [72; 101; 108; 108; 111]%Z)).
Proof.
  split; [exact demo_hash_wf | ]. split; [reflexivity | ].
  split; [vm_compute; lia | ]. split; [vm_compute; reflexivity | ].
  split; [vm_compute; lia | ]. split; [vm_compute; lia | ].
  apply (oaep_roundtrip tape_random [] demo_hash [72; 101; 108; 108; 111]%Z [] [0; 0]%Z
           (replicate 12 0%Z) (replicate 26 0%Z) (replicate 28 0%Z) 0%Z);
    [exact demo_hash_wf | reflexivity | vm_compute; lia | vm_compute; reflexivity
    | vm_compute; lia | vm_compute; lia].
Defined.

(** The remove path run on the block of the previous lemma. *)
Example oaep_apply_remove_run :
  SymCryptRsaOaepRemoveEncryptionPadding
    (snd (fst (SymCryptRsaOaepApplyEncryptionPadding tape_random []
                 [72; 101; 108; 108; 111]%Z demo_hash [] (Some [0; 0]%Z) 2 0%Z
                 (replicate 12 0%Z) (replicate 26 0%Z))))
    demo_hash [] 0%Z (Some (replicate 5 0%Z)) 0%Z (replicate 28 0%Z)
  = (SYMCRYPT_NO_ERROR, Some [72; 101; 108; 108; 111]%Z, 5%Z).
Proof. vm_compute. reflexivity. Qed.

(** C2 on the checksum hash: the data block is the label hash followed by
    three zero bytes, there is no 0x01 byte. *)
Lemma oaep_remove_missing_separator_accepted_witness :
  hash_wf demo_hash /\
  length [0; 0]%Z = SymCryptHashResultSize demo_hash /\
  SymCryptHashStateSize demo_hash + SymCryptHashResultSize demo_hash * 3
    + (SymCryptHashResultSize demo_hash + 3) * 2 <= length (replicate 20 0%Z) /\
  (Z.of_nat (SymCryptHashResultSize demo_hash + 3) < 2 ^ 64)%Z /\
  SymCryptRsaOaepRemoveEncryptionPadding
    (oaep_encode demo_hash (hashFn demo_hash [] ++ replicate 3 0%Z) [0; 0]%Z)
    demo_hash [] 0%Z None 0%Z (replicate 20 0%Z)
  = (SYMCRYPT_NO_ERROR, None, 0%Z).
Proof.
  split; [exact demo_hash_wf | ]. split; [reflexivity | ].
  split; [vm_compute; lia | ]. split; [vm_compute; reflexivity | ].
  apply (oaep_remove_missing_separator_accepted demo_hash [] [0; 0]%Z (replicate 20 0%Z) 3 0%Z);
    [exact demo_hash_wf | reflexivity | vm_compute; lia | vm_compute; reflexivity].
Defined.

(** The same block as bytes, run through the remove path with a
    plaintext buffer. *)
Example oaep_remove_missing_separator_run :
  oaep_encode demo_hash (hashFn demo_hash [] ++ replicate 3 0%Z) [0; 0]%Z
  = [0; 16; 85; 32; 170; 40; 241; 41]%Z
  /\ SymCryptRsaOaepRemoveEncryptionPadding [0; 16; 85; 32; 170; 40; 241; 41]%Z
       demo_hash [] 0%Z (Some [9; 9]%Z) 7%Z (replicate 20 0%Z)
     = (SYMCRYPT_NO_ERROR, Some [9; 9]%Z, 0%Z).
Proof. split; vm_compute; reflexivity. Qed.

(** C8 on the checksum hash: a block of three bytes, [hLen = 2]. *)
Lemma oaep_remove_empty_db_length_witness :
  hash_wf demo_hash /\
  length [5; 6]%Z = SymCryptHashResultSize demo_hash /\
  SymCryptHashStateSize demo_hash + SymCryptHashResultSize demo_hash * 3
    <= length (replicate 10 0%Z) /\
  SymCryptRsaOaepRemoveEncryptionPadding ([0%Z] ++ [5; 6]%Z) demo_hash [] 0%Z None 0%Z
    (replicate 10 0%Z)
  = (SYMCRYPT_NO_ERROR, None,
     (2 ^ 64 - Z.of_nat (SymCryptHashResultSize demo_hash))%Z).
Proof.
  split; [exact demo_hash_wf | ]. split; [reflexivity | ]. split; [vm_compute; lia | ].
  apply (oaep_remove_empty_db_length demo_hash [] [5; 6]%Z (replicate 10 0%Z) 0%Z);
    [exact demo_hash_wf | reflexivity | vm_compute; lia].
Defined.

(** The reported length is above the length of the block. *)
Example oaep_remove_empty_db_run :
  SymCryptRsaOaepRemoveEncryptionPadding [0; 5; 6]%Z demo_hash [] 0%Z None 0%Z
    (replicate 10 0%Z)
  = (SYMCRYPT_NO_ERROR, None, 18446744073709551614%Z)
  /\ (Z.of_nat (length [0; 5; 6]%Z) < 18446744073709551614)%Z.
Proof. split; vm_compute; reflexivity. Qed.

(** C5 on a modulus of 65 bits: a block of nine bytes, an encoded
    message of eight. *)
Lemma pss_roundtrip_witness :
  hash_wf demo_hash /\
  (0 <= 65 < 2 ^ 32)%Z /\
  length (replicate 9 7%Z) = modulus_bytes 65 /\
  SymCryptHashResultSize demo_hash + length [205; 205]%Z + 2 <= pss_emLen 65 /\
  SymCryptHashStateSize demo_hash + (8 + length [171; 171]%Z + length [205; 205]%Z)
    + (pss_emLen 65 - (SymCryptHashResultSize demo_hash + 1)) * 2
    <= length (replicate 26 0%Z) /\
  SymCryptHashStateSize demo_hash + (pss_emLen 65 - (SymCryptHashResultSize demo_hash + 1))
    + (8 + length [171; 171]%Z + length [205; 205]%Z) + SymCryptHashResultSize demo_hash
    <= length (replicate 23 0%Z) /\
  ((exists EM,
      SymCryptRsaPssApplySignaturePadding tape_random [] [171; 171]%Z demo_hash
        (Some [205; 205]%Z) (length [205; 205]%Z) 65%Z 0%Z (Some (replicate 9 7%Z))
        (replicate 26 0%Z)
      = (SYMCRYPT_NO_ERROR, Some EM, [])
      /\ SymCryptRsaPssVerifySignaturePadding [171; 171]%Z demo_hash (length [205; 205]%Z)
           (Some EM) 65%Z 0%Z (replicate 23 0%Z)
         = SYMCRYPT_NO_ERROR
      /\ length EM = length (replicate 9 7%Z)
      /\ ((65 mod 8 = 1)%Z -> load EM 0 = 0%Z))
   /\
   ((65 mod 8 = 1)%Z ->
    forall (pbHash' em : list Z) (cbSalt' : nat) (flags' : Z) (pbScratch' : list Z),
      load em 0 <> 0%Z ->
      SymCryptRsaPssVerifySignaturePadding pbHash' demo_hash cbSalt' (Some em) 65%Z flags'
        pbScratch'
      = SYMCRYPT_INVALID_ARGUMENT)).
Proof.
  split; [exact demo_hash_wf | ]. split; [vm_compute; split; [discriminate | reflexivity] | ].
  split; [reflexivity | ]. split; [vm_compute; lia | ].
  split; [vm_compute; lia | ]. split; [vm_compute; lia | ].
  apply (pss_roundtrip tape_random [] demo_hash [171; 171]%Z [205; 205]%Z 65%Z
           (replicate 9 7%Z) (replicate 26 0%Z) (replicate 23 0%Z));
    [exact demo_hash_wf | vm_compute; split; [discriminate | reflexivity]
    | reflexivity | vm_compute; lia | vm_compute; lia | vm_compute; lia].
Defined.

(** Apply and verify run on a modulus of 65 bits and on one of 64 bits;
    a block with a changed trailer byte is refused. *)
Example pss_apply_verify_run :
  SymCryptRsaPssApplySignaturePadding tape_random [] [171; 171]%Z demo_hash
    (Some [205; 205]%Z) 2 65%Z 0%Z (Some (replicate 9 7%Z)) (replicate 26 0%Z)
  = (SYMCRYPT_NO_ERROR, Some [0; 54; 31; 54; 211; 245; 71; 246; 188]%Z, [])
  /\ SymCryptRsaPssVerifySignaturePadding [171; 171]%Z demo_hash 2
       (Some [0; 54; 31; 54; 211; 245; 71; 246; 188]%Z) 65%Z 0%Z (replicate 23 0%Z)
     = SYMCRYPT_NO_ERROR
  /\ SymCryptRsaPssVerifySignaturePadding [171; 171]%Z demo_hash 2
       (Some [0; 54; 31; 54; 211; 245; 71; 246; 189]%Z) 65%Z 0%Z (replicate 23 0%Z)
     = SYMCRYPT_INVALID_ARGUMENT
  /\ SymCryptRsaPssVerifySignaturePadding [171; 171]%Z demo_hash 2
       (snd (fst (SymCryptRsaPssApplySignaturePadding tape_random [] [171; 171]%Z demo_hash
                    (Some [205; 205]%Z) 2 64%Z 0%Z (Some (replicate 8 7%Z))
                    (replicate 26 0%Z))))
       64%Z 0%Z (replicate 23 0%Z)
     = SYMCRYPT_NO_ERROR.
Proof. repeat split; vm_compute; reflexivity. Qed.

(** * Further properties of the signature padding *)

Lemma length_sig_apply pbHash pbHashOid cbHashOid flags buf :
  length (snd (SymCryptRsaPkcs1ApplySignaturePadding pbHash pbHashOid cbHashOid flags buf))
  = length buf.
Proof.
  unfold SymCryptRsaPkcs1ApplySignaturePadding.
  destruct (negb _); [reflexivity | ].
  destruct (Z.land flags SYMCRYPT_FLAG_RSA_PKCS1_NO_ASN1 =? 0)%Z.
  - destruct pbHashOid as [oid|]; destruct (0 <? cbHashOid); try reflexivity;
      cbv zeta; repeat (destruct (_ <? _); [reflexivity | ]); cbn [snd]; len.
  - cbv zeta. repeat (destruct (_ <? _); [reflexivity | ]); cbn [snd]; len.
Qed.

Lemma sig_encoding_tail pbHash pbHashOid cbHashOid flags :
  exists pre, sig_encoding pbHash pbHashOid cbHashOid flags = pre ++ pbHash.
Proof.
  unfold sig_encoding.
  destruct (Z.land flags SYMCRYPT_FLAG_RSA_PKCS1_NO_ASN1 =? 0)%Z; [ | by exists []].
  destruct pbHashOid as [oid|].
  - destruct (0 <? cbHashOid).
    + eexists ([_; _; _; _] ++ take cbHashOid oid ++ [_; _]).
      rewrite <- !app_assoc. reflexivity.
    + by eexists [_; _].
  - by eexists [_; _].
Qed.

Lemma sig_args_ok_bounds pbHash pbHashOid cbHashOid flags k :
  sig_args_ok pbHash pbHashOid cbHashOid flags k = true ->
  3 + 8 + length (sig_encoding pbHash pbHashOid cbHashOid flags) <= k.
Proof.
  unfold sig_args_ok. intros H. apply andb_prop in H as [_ H]. by apply Nat.leb_le in H.
Qed.

Lemma length_pkcs1_sig_block k T : 3 + length T <= k -> length (pkcs1_sig_block k T) = k.
Proof. intros H. unfold pkcs1_sig_block. len. Qed.

Lemma SymCryptEqual_full (a b : list Z) :
  length a = length b -> SymCryptEqual a b (length b) = bool_decide (a = b).
Proof.
  intros H. unfold SymCryptEqual. rewrite (take_ge b) by lia. rewrite (take_ge a) by lia.
  reflexivity.
Qed.

(** The single-OID check in closed form. *)
Lemma check_sig_result pbHash pbHashOid cbHashOid blk flags scr :
  oid_readable pbHashOid cbHashOid ->
  length scr = length blk ->
  SymCryptRsaPkcs1CheckSignaturePadding pbHash pbHashOid cbHashOid blk flags scr
  = if sig_args_ok pbHash pbHashOid cbHashOid flags (length blk) then
      (if bool_decide
            (pkcs1_sig_block (length blk) (sig_encoding pbHash pbHashOid cbHashOid flags)
             = blk)
       then SYMCRYPT_NO_ERROR else SYMCRYPT_SIGNATURE_VERIFICATION_FAILURE,
       pkcs1_sig_block (length blk) (sig_encoding pbHash pbHashOid cbHashOid flags))
    else (SYMCRYPT_INVALID_ARGUMENT, replicate (length blk) 0%Z).
Proof.
  intros Hoid Hlen. unfold SymCryptRsaPkcs1CheckSignaturePadding.
  rewrite apply_sig_result by done.
  rewrite <- Hlen. rewrite wipe_all, length_replicate.
  destruct (sig_args_ok _ _ _ _ _) eqn:Hok; cbn [is_no_error negb]; [ | reflexivity].
  apply sig_args_ok_bounds in Hok.
  rewrite Hlen. rewrite SymCryptEqual_full by (rewrite length_pkcs1_sig_block; lia).
  destruct (bool_decide _); reflexivity.
Qed.

Lemma length_check_scratch pbHash pbHashOid cbHashOid blk flags scr :
  oid_readable pbHashOid cbHashOid ->
  length scr = length blk ->
  length (snd (SymCryptRsaPkcs1CheckSignaturePadding pbHash pbHashOid cbHashOid blk flags scr))
  = length blk.
Proof.
  intros Hoid Hlen. rewrite check_sig_result by done.
  destruct (sig_args_ok _ _ _ _ _) eqn:Hok; cbn [snd]; [ | len].
  apply sig_args_ok_bounds in Hok. rewrite length_pkcs1_sig_block; lia.
Qed.

(** A block the single-OID check accepts is [00 01 FF..FF 00 || pre || hash]
    with at least eight [FF] bytes. *)
Lemma check_no_error_shape pbHash pbHashOid cbHashOid blk flags scr :
  oid_readable pbHashOid cbHashOid ->
  length scr = length blk ->
  fst (SymCryptRsaPkcs1CheckSignaturePadding pbHash pbHashOid cbHashOid blk flags scr)
  = SYMCRYPT_NO_ERROR ->
  exists n pre,
    8 <= n /\ blk = [0; 1]%Z ++ replicate n 255%Z ++ [0%Z] ++ pre ++ pbHash.
Proof.
  intros Hoid Hlen. rewrite check_sig_result by done.
  destruct (sig_args_ok _ _ _ _ _) eqn:Hok; cbn [fst]; [ | discriminate].
  apply sig_args_ok_bounds in Hok.
  case_bool_decide as Heq; [intros _ | discriminate].
  destruct (sig_encoding_tail pbHash pbHashOid cbHashOid flags) as [pre Hpre].
  exists (length blk - 3 - length (sig_encoding pbHash pbHashOid cbHashOid flags)), pre.
  split; [lia | ].
  rewrite <- Heq at 1. unfold pkcs1_sig_block. rewrite Hpre. reflexivity.
Qed.

Lemma length_verify_oid_loop pbHash blk : forall oids scr e0,
  oids_readable oids -> length scr = length blk ->
  length (snd (verify_oid_loop pbHash oids blk scr e0)) = length blk.
Proof.
  induction oids as [|oid rest IH]; intros scr e0 Hrd Hlen; [exact Hlen | ].
  apply Forall_cons in Hrd as [Hoid Hrest]. cbn [verify_oid_loop].
  pose proof (length_check_scratch pbHash (pbOID oid) (cbOID oid) blk 0%Z scr Hoid Hlen) as Hl.
  destruct (SymCryptRsaPkcs1CheckSignaturePadding _ _ _ _ _ _) as [e s1]. cbn [snd] in Hl.
  destruct (is_no_error e); [exact Hl | ]. by apply IH.
Qed.

(** The loop over the OID array leaves [SYMCRYPT_NO_ERROR] only when the
    check of one of its entries does. *)
Lemma verify_oid_loop_no_error pbHash blk : forall oids scr e0,
  oids <> [] -> oids_readable oids -> length scr = length blk ->
  fst (verify_oid_loop pbHash oids blk scr e0) = SYMCRYPT_NO_ERROR ->
  exists oid scr1,
    In oid oids /\ oid_readable (pbOID oid) (cbOID oid) /\ length scr1 = length blk /\
    fst (SymCryptRsaPkcs1CheckSignaturePadding pbHash (pbOID oid) (cbOID oid) blk 0%Z scr1)
    = SYMCRYPT_NO_ERROR.
Proof.
  induction oids as [|oid rest IH]; intros scr e0 Hne Hrd Hlen; [done | ].
  apply Forall_cons in Hrd as [Hoid Hrest]. cbn [verify_oid_loop].
  pose proof (length_check_scratch pbHash (pbOID oid) (cbOID oid) blk 0%Z scr Hoid Hlen) as Hl.
  destruct (SymCryptRsaPkcs1CheckSignaturePadding _ _ _ _ _ _) as [e s1] eqn:Hchk.
  cbn [snd] in Hl.
  destruct e; cbn [is_no_error fst].
  - intros _. exists oid, scr. rewrite Hchk. split; [by left | done].
  - destruct rest as [|o2 rest']; [discriminate | ]. intros H.
    destruct (IH s1 SYMCRYPT_INVALID_ARGUMENT ltac:(done) Hrest Hl H)
      as (o & s2 & Hin & Hx). exists o, s2. split; [by right | done].
  - destruct rest as [|o2 rest']; [discriminate | ]. intros H.
    destruct (IH s1 SYMCRYPT_BUFFER_TOO_SMALL ltac:(done) Hrest Hl H)
      as (o & s2 & Hin & Hx). exists o, s2. split; [by right | done].
  - destruct rest as [|o2 rest']; [discriminate | ]. intros H.
    destruct (IH s1 SYMCRYPT_SIGNATURE_VERIFICATION_FAILURE ltac:(done) Hrest Hl H)
      as (o & s2 & Hin & Hx). exists o, s2. split; [by right | done].
  - destruct rest as [|o2 rest']; [discriminate | ]. intros H.
    destruct (IH s1 (SYMCRYPT_CALLBACK_FAILURE code) ltac:(done) Hrest Hl H)
      as (o & s2 & Hin & Hx). exists o, s2. split; [by right | done].
Qed.

(** The loop stops with [SYMCRYPT_NO_ERROR] as soon as the check of an
    entry succeeds, whatever the entries before it gave. *)
Lemma verify_oid_loop_finds pbHash blk oid : forall oids scr e0,
  In oid oids -> oids_readable oids -> length scr = length blk ->
  (forall scr1, length scr1 = length blk ->
     fst (SymCryptRsaPkcs1CheckSignaturePadding pbHash (pbOID oid) (cbOID oid) blk 0%Z scr1)
     = SYMCRYPT_NO_ERROR) ->
  fst (verify_oid_loop pbHash oids blk scr e0) = SYMCRYPT_NO_ERROR.
Proof.
  induction oids as [|o rest IH]; intros scr e0 Hin Hrd Hlen Hok; [destruct Hin | ].
  apply Forall_cons in Hrd as [Hoid Hrest]. cbn [verify_oid_loop].
  pose proof (length_check_scratch pbHash (pbOID o) (cbOID o) blk 0%Z scr Hoid Hlen) as Hl.
  destruct (SymCryptRsaPkcs1CheckSignaturePadding pbHash (pbOID o) (cbOID o) blk 0%Z scr)
    as [e s1] eqn:Hchk.
  cbn [snd] in Hl.
  destruct (is_no_error e) eqn:He.
  - destruct e; try discriminate. reflexivity.
  - destruct Hin as [-> | Hin].
    + specialize (Hok scr Hlen). rewrite Hchk in Hok. cbn [fst] in Hok. subst e. discriminate.
    + by apply IH.
Qed.

(** X3: a block that the multi-OID verification accepts, for an OID
    argument other than a non-NULL array of zero entries, is
    [00 01 FF..FF 00 || pre || hash] with at least eight [FF] bytes: it
    has at least [cbHash + 11] bytes and its last [cbHash] bytes are the
    hash. *)
Theorem pkcs1_sig_verify_accepts_padded_hash
    (pbHash : list Z) (pHashOIDs : option (list SYMCRYPT_OID))
    (pbPKCS1Format : list Z) (flags : Z) (pbScratch : list Z) :
  pHashOIDs <> Some [] ->
  (forall oids, pHashOIDs = Some oids -> oids_readable oids) ->
  length pbPKCS1Format <= length pbScratch ->
  SymCryptRsaPkcs1VerifySignaturePadding pbHash pHashOIDs pbPKCS1Format flags pbScratch
  = SYMCRYPT_NO_ERROR ->
  (exists n pre,
     8 <= n /\
     pbPKCS1Format = [0; 1]%Z ++ replicate n 255%Z ++ [0%Z] ++ pre ++ pbHash)
  /\ length pbHash + 11 <= length pbPKCS1Format
  /\ drop (length pbPKCS1Format - length pbHash) pbPKCS1Format = pbHash.
Proof.
  intros Hne Hrd Hscr Hv.
  assert (Hshape : exists n pre,
             8 <= n /\
             pbPKCS1Format = [0; 1]%Z ++ replicate n 255%Z ++ [0%Z] ++ pre ++ pbHash).
  { unfold SymCryptRsaPkcs1VerifySignaturePadding in Hv.
    destruct (negb _); [discriminate | ].
    assert (Hl0 : length (take (length pbPKCS1Format) pbScratch) = length pbPKCS1Format)
      by (rewrite length_take; lia).
    destruct pHashOIDs as [oids|].
    - specialize (Hrd oids eq_refl).
      assert (Hnil : oids <> []) by (intros ->; done).
      pose proof (length_verify_oid_loop pbHash pbPKCS1Format oids _ SYMCRYPT_NO_ERROR
                    Hrd Hl0) as Hl1.
      pose proof (verify_oid_loop_no_error pbHash pbPKCS1Format oids _ SYMCRYPT_NO_ERROR
                    Hnil Hrd Hl0) as Hloop.
      destruct (verify_oid_loop _ _ _ _ _) as [e s1]. cbn [fst snd] in Hl1, Hloop.
      cbn [orb] in Hv.
      destruct (negb (is_no_error e) && _) eqn:Hfb.
      + eapply (check_no_error_shape pbHash None 0 pbPKCS1Format); [exact I | exact Hl1 | ].
        exact Hv.
      + subst e. destruct (Hloop eq_refl) as (oid & s2 & _ & Hoid & Hl2 & Hc).
        by eapply check_no_error_shape.
    - cbn [orb] in Hv.
      eapply (check_no_error_shape pbHash None 0 pbPKCS1Format); [exact I | exact Hl0 | ].
      exact Hv. }
  split; [exact Hshape | ].
  destruct Hshape as (n & pre & Hn & ->).
  split; [len | ].
  replace ([0; 1]%Z ++ replicate n 255%Z ++ [0%Z] ++ pre ++ pbHash)
    with (([0; 1]%Z ++ replicate n 255%Z ++ [0%Z] ++ pre) ++ pbHash)
    by (rewrite <- !app_assoc; reflexivity).
  apply drop_app_length'. len.
Qed.

(** X3 on a SHA-1 sized digest, the SHA-1 OID list and the 64-byte block
    that the apply path builds with the long SHA-1 identifier. *)
Lemma pkcs1_sig_verify_accepts_padded_hash_witness :
  let blk :=
    snd (SymCryptRsaPkcs1ApplySignaturePadding (replicate 20 17%Z)
           (Some [6; 5; 43; 14; 3; 2; 26; 5; 0]%Z) 9 0%Z (replicate 64 0%Z)) in
  SymCryptRsaPkcs1VerifySignaturePadding (replicate 20 17%Z) (Some SymCryptSha1OidList)
    blk 0%Z (replicate 64 0%Z) = SYMCRYPT_NO_ERROR
  /\ drop (length blk - length (replicate 20 17%Z)) blk = replicate 20 17%Z.
Proof.
  cbv zeta. split; [vm_compute; reflexivity | ].
  apply (pkcs1_sig_verify_accepts_padded_hash (replicate 20 17%Z) (Some SymCryptSha1OidList)
           _ 0%Z (replicate 64 0%Z)).
  - discriminate.
  - intros oids [= <-]. repeat constructor; vm_compute; lia.
  - vm_compute. lia.
  - vm_compute. reflexivity.
Defined.

Lemma apply_success_block pbHash pbHashOid cbHashOid flags buf EM :
  oid_readable pbHashOid cbHashOid ->
  SymCryptRsaPkcs1ApplySignaturePadding pbHash pbHashOid cbHashOid flags buf
  = (SYMCRYPT_NO_ERROR, EM) ->
  sig_args_ok pbHash pbHashOid cbHashOid flags (length buf) = true
  /\ EM = pkcs1_sig_block (length buf) (sig_encoding pbHash pbHashOid cbHashOid flags)
  /\ length EM = length buf.
Proof.
  intros Hoid. rewrite apply_sig_result by done.
  destruct (sig_args_ok _ _ _ _ _) eqn:Hok; [ | discriminate].
  intros [= <-]. split; [reflexivity | ]. split; [reflexivity | ].
  apply sig_args_ok_bounds in Hok. rewrite length_pkcs1_sig_block; lia.
Qed.

(** The check accepts the block the apply path builds from the same
    arguments, whatever the scratch area holds. *)
Lemma check_of_apply pbHash pbHashOid cbHashOid flags buf EM scr :
  oid_readable pbHashOid cbHashOid ->
  SymCryptRsaPkcs1ApplySignaturePadding pbHash pbHashOid cbHashOid flags buf
  = (SYMCRYPT_NO_ERROR, EM) ->
  length scr = length EM ->
  fst (SymCryptRsaPkcs1CheckSignaturePadding pbHash pbHashOid cbHashOid EM flags scr)
  = SYMCRYPT_NO_ERROR.
Proof.
  intros Hoid Happ Hlen.
  destruct (apply_success_block _ _ _ _ _ _ Hoid Happ) as (Hok & HEM & HlEM).
  rewrite check_sig_result by done. rewrite HlEM, Hok. rewrite <- HEM.
  rewrite bool_decide_eq_true_2 by reflexivity. reflexivity.
Qed.

(** X4: a block built by the apply path with any entry of an OID array
    of fewer than [2^32] entries (the range of the [UINT32] counter of
    the loop over the array) is accepted by the verification against
    that array: the loop goes on past the entries that do not match and
    stops at the one that does. *)
Theorem pkcs1_sig_verify_of_apply
    (pbHash : list Z) (oids : list SYMCRYPT_OID) (oid : SYMCRYPT_OID)
    (buf EM : list Z) (flags : Z) (pbScratch : list Z) :
  In oid oids ->
  oids_readable oids ->
  (Z.of_nat (length oids) < 2 ^ 32)%Z ->
  SymCryptRsaPkcs1ApplySignaturePadding pbHash (pbOID oid) (cbOID oid) 0%Z buf
  = (SYMCRYPT_NO_ERROR, EM) ->
  length buf <= length pbScratch ->
  flags = 0%Z \/ flags = SYMCRYPT_FLAG_RSA_PKCS1_OPTIONAL_HASH_OID ->
  SymCryptRsaPkcs1VerifySignaturePadding pbHash (Some oids) EM flags pbScratch
  = SYMCRYPT_NO_ERROR.
Proof.
  intros Hin Hrd _ Happ Hscr Hfl.
  assert (Hoid : oid_readable (pbOID oid) (cbOID oid)).
  { unfold oids_readable in Hrd. rewrite Forall_forall in Hrd. apply Hrd.
    by apply list_elem_of_In. }
  destruct (apply_success_block _ _ _ _ _ _ Hoid Happ) as (_ & _ & HlEM).
  assert (Hl0 : length (take (length EM) pbScratch) = length EM)
    by (rewrite length_take; lia).
  pose proof (verify_oid_loop_finds pbHash EM oid oids _ SYMCRYPT_NO_ERROR Hin Hrd Hl0
                (fun scr1 Hl1 => check_of_apply _ _ _ _ _ _ scr1 Hoid Happ Hl1)) as Hloop.
  unfold SymCryptRsaPkcs1VerifySignaturePadding.
  destruct (verify_oid_loop _ _ _ _ _) as [e s1]. cbn [fst] in Hloop. subst e.
  destruct Hfl as [-> | ->]; reflexivity.
Qed.

(** X4 on the SHA-256 OID list and a block built with its second, short
    identifier (the one without the NULL parameters): the check of the
    first entry fails, the check of the second succeeds. *)
Lemma pkcs1_sig_verify_of_apply_witness :
  let short := {| cbOID := 11; pbOID := Some [6; 9; 96; 134; 72; 1; 101; 3; 4; 2; 1]%Z |} in
  let EM :=
    snd (SymCryptRsaPkcs1ApplySignaturePadding (replicate 32 3%Z) (pbOID short) (cbOID short)
           0%Z (replicate 64 0%Z)) in
  fst (SymCryptRsaPkcs1CheckSignaturePadding (replicate 32 3%Z)
         (Some [6; 9; 96; 134; 72; 1; 101; 3; 4; 2; 1; 5; 0]%Z) 13 EM 0%Z (replicate 64 0%Z))
  = SYMCRYPT_SIGNATURE_VERIFICATION_FAILURE
  /\ SymCryptRsaPkcs1VerifySignaturePadding (replicate 32 3%Z) (Some SymCryptSha256OidList)
       EM 0%Z (replicate 64 0%Z) = SYMCRYPT_NO_ERROR.
Proof.
  cbv zeta. split; [vm_compute; reflexivity | ].
  apply (pkcs1_sig_verify_of_apply (replicate 32 3%Z) SymCryptSha256OidList
           {| cbOID := 11; pbOID := Some [6; 9; 96; 134; 72; 1; 101; 3; 4; 2; 1]%Z |}
           (replicate 64 0%Z) _ 0%Z (replicate 64 0%Z)).
  - right. left. reflexivity.
  - repeat constructor; vm_compute; lia.
  - vm_compute. reflexivity.
  - vm_compute. reflexivity.
  - vm_compute. lia.
  - left. reflexivity.
Defined.

(** With NO_ASN1 set the apply path does not look at the OID arguments. *)
Lemma apply_no_asn1_ignores_oid pbHash pbHashOid cbHashOid buf :
  SymCryptRsaPkcs1ApplySignaturePadding pbHash pbHashOid cbHashOid
    SYMCRYPT_FLAG_RSA_PKCS1_NO_ASN1 buf
  = SymCryptRsaPkcs1ApplySignaturePadding pbHash None 0 SYMCRYPT_FLAG_RSA_PKCS1_NO_ASN1 buf.
Proof. reflexivity. Qed.

(** X5: with the NO_ASN1 flag the apply path places the bare hash after
    the padding, [00 01 FF..FF 00 || hash], and ignores the OID pointer and
    size altogether (a NULL pointer with a nonzero size included); it
    refuses a hash longer than 0x80 bytes and a block that leaves fewer
    than eight padding bytes, without writing to the block. *)
Theorem pkcs1_sig_apply_no_asn1
    (pbHash : list Z) (pbHashOid : option (list Z)) (cbHashOid : nat) (buf : list Z) :
  (length pbHash <= 128 -> 3 + 8 + length pbHash <= length buf ->
   SymCryptRsaPkcs1ApplySignaturePadding pbHash pbHashOid cbHashOid
     SYMCRYPT_FLAG_RSA_PKCS1_NO_ASN1 buf
   = (SYMCRYPT_NO_ERROR,
      [0; 1]%Z ++ replicate (length buf - 3 - length pbHash) 255%Z ++ [0%Z] ++ pbHash))
  /\
  (128 < length pbHash \/ length buf < 3 + 8 + length pbHash ->
   SymCryptRsaPkcs1ApplySignaturePadding pbHash pbHashOid cbHashOid
     SYMCRYPT_FLAG_RSA_PKCS1_NO_ASN1 buf
   = (SYMCRYPT_INVALID_ARGUMENT, buf)).
Proof.
  rewrite apply_no_asn1_ignores_oid.
  rewrite (apply_sig_result pbHash None 0 _ buf I).
  unfold sig_args_ok, pkcs1_sig_block.
  change (sig_encoding pbHash None 0 SYMCRYPT_FLAG_RSA_PKCS1_NO_ASN1) with pbHash.
  change (Z.land SYMCRYPT_FLAG_RSA_PKCS1_NO_ASN1
            (UINT32_not SYMCRYPT_FLAG_RSA_PKCS1_NO_ASN1) =? 0)%Z with true.
  change (Z.land SYMCRYPT_FLAG_RSA_PKCS1_NO_ASN1 SYMCRYPT_FLAG_RSA_PKCS1_NO_ASN1 =? 0)%Z
    with false.
  cbn [andb negb].
  split.
  - intros H1 H2.
    destruct (Nat.leb_spec (length pbHash) 128); [ | lia].
    destruct (Nat.leb_spec (3 + 8 + length pbHash) (length buf)); [ | lia].
    reflexivity.
  - intros [H|H].
    + destruct (Nat.leb_spec (length pbHash) 128); [lia | reflexivity].
    + destruct (Nat.leb_spec (3 + 8 + length pbHash) (length buf)); [lia | ].
      rewrite andb_false_r. reflexivity.
Qed.

(** X5 on a four-byte hash, a NULL OID pointer announced with 7 bytes and
    a 16-byte block. *)
Lemma pkcs1_sig_apply_no_asn1_witness :
  SymCryptRsaPkcs1ApplySignaturePadding [1; 2; 3; 4]%Z None 7
    SYMCRYPT_FLAG_RSA_PKCS1_NO_ASN1 (replicate 16 9%Z)
  = (SYMCRYPT_NO_ERROR, [0; 1]%Z ++ replicate 9 255%Z ++ [0%Z] ++ [1; 2; 3; 4]%Z).
Proof.
  apply (proj1 (pkcs1_sig_apply_no_asn1 [1; 2; 3; 4]%Z None 7 (replicate 16 9%Z)));
    vm_compute; lia.
Defined.

(** X6: without an OID (size 0, the pointer NULL or not) and without
    NO_ASN1 the apply path places [04 || cbHash || hash] after the padding
    ("special case for MD5 hash without OID"); a NULL OID pointer with a
    nonzero size is refused, the block untouched. *)
Theorem pkcs1_sig_apply_without_oid
    (pbHash : list Z) (pbHashOid : option (list Z)) (buf : list Z) :
  (2 + length pbHash <= 128 -> 3 + 8 + (2 + length pbHash) <= length buf ->
   SymCryptRsaPkcs1ApplySignaturePadding pbHash pbHashOid 0 0%Z buf
   = (SYMCRYPT_NO_ERROR,
      [0; 1]%Z ++ replicate (length buf - 3 - (2 + length pbHash)) 255%Z ++ [0%Z]
      ++ [4%Z; Z.of_nat (length pbHash)] ++ pbHash))
  /\
  (forall cbHashOid, 0 < cbHashOid ->
     SymCryptRsaPkcs1ApplySignaturePadding pbHash None cbHashOid 0%Z buf
     = (SYMCRYPT_INVALID_ARGUMENT, buf)).
Proof.
  split.
  - intros H1 H2.
    assert (Hoid : oid_readable pbHashOid 0) by (destruct pbHashOid; cbn; lia).
    rewrite apply_sig_result by done.
    assert (Henc : sig_encoding pbHash pbHashOid 0 0%Z
                   = [4%Z; Z.of_nat (length pbHash)] ++ pbHash).
    { unfold sig_encoding. cbn [Z.land Z.eqb].
      rewrite (to_BYTE_small (Z.of_nat (length pbHash))) by lia.
      destruct pbHashOid; reflexivity. }
    assert (Hok : sig_args_ok pbHash pbHashOid 0 0%Z (length buf) = true).
    { unfold sig_args_ok. rewrite Henc.
      replace (length ([4%Z; Z.of_nat (length pbHash)] ++ pbHash))
        with (2 + length pbHash) by reflexivity.
      rewrite (proj2 (Nat.leb_le _ _) H1), (proj2 (Nat.leb_le _ _) H2).
      destruct pbHashOid; reflexivity. }
    rewrite Hok. unfold pkcs1_sig_block. rewrite Henc. reflexivity.
  - intros cbHashOid Hpos. unfold SymCryptRsaPkcs1ApplySignaturePadding.
    cbn [Z.land Z.eqb negb].
    destruct (Nat.ltb_spec 0 cbHashOid); [reflexivity | lia].
Qed.

(** X6 on a 16-byte (MD5 sized) hash and a 32-byte block. *)
Lemma pkcs1_sig_apply_without_oid_witness :
  SymCryptRsaPkcs1ApplySignaturePadding (replicate 16 5%Z) None 0 0%Z (replicate 32 9%Z)
  = (SYMCRYPT_NO_ERROR,
     [0; 1]%Z ++ replicate 11 255%Z ++ [0%Z] ++ [4; 16]%Z ++ replicate 16 5%Z).
Proof.
  apply (proj1 (pkcs1_sig_apply_without_oid (replicate 16 5%Z) None (replicate 32 9%Z)));
    vm_compute; lia.
Defined.

(** X7: a block that carries the bare hash (built with NO_ASN1) is
    accepted by the verification when no OID array is passed, and, with
    the OPTIONAL_HASH_OID flag, also when an OID array of fewer than
    [2^32] entries (the range of the [UINT32] counter of the loop over
    the array) is passed: once every entry of the array has failed the
    NO_ASN1 check is tried. *)
Theorem pkcs1_sig_verify_optional_oid
    (pbHash : list Z) (pHashOIDs : option (list SYMCRYPT_OID))
    (pbHashOid : option (list Z)) (cbHashOid : nat)
    (buf EM pbScratch : list Z) :
  (forall oids, pHashOIDs = Some oids ->
     oids_readable oids /\ (Z.of_nat (length oids) < 2 ^ 32)%Z) ->
  SymCryptRsaPkcs1ApplySignaturePadding pbHash pbHashOid cbHashOid
    SYMCRYPT_FLAG_RSA_PKCS1_NO_ASN1 buf = (SYMCRYPT_NO_ERROR, EM) ->
  length buf <= length pbScratch ->
  SymCryptRsaPkcs1VerifySignaturePadding pbHash pHashOIDs EM
    SYMCRYPT_FLAG_RSA_PKCS1_OPTIONAL_HASH_OID pbScratch = SYMCRYPT_NO_ERROR
  /\ SymCryptRsaPkcs1VerifySignaturePadding pbHash None EM 0%Z pbScratch = SYMCRYPT_NO_ERROR.
Proof.
  intros Hrd Happ Hscr. rewrite apply_no_asn1_ignores_oid in Happ.
  destruct (apply_success_block pbHash None 0 _ buf EM I Happ) as (_ & _ & HlEM).
  assert (Hl0 : length (take (length EM) pbScratch) = length EM)
    by (rewrite length_take; lia).
  assert (Hfb : forall scr1, length scr1 = length EM ->
            fst (SymCryptRsaPkcs1CheckSignaturePadding pbHash None 0 EM
                   SYMCRYPT_FLAG_RSA_PKCS1_NO_ASN1 scr1) = SYMCRYPT_NO_ERROR)
    by (intros scr1 Hl1; exact (check_of_apply pbHash None 0 _ buf EM scr1 I Happ Hl1)).
  split.
  - unfold SymCryptRsaPkcs1VerifySignaturePadding.
    change (negb (Z.land SYMCRYPT_FLAG_RSA_PKCS1_OPTIONAL_HASH_OID
                    (UINT32_not SYMCRYPT_FLAG_RSA_PKCS1_OPTIONAL_HASH_OID) =? 0)%Z)
      with false.
    change (negb (Z.land SYMCRYPT_FLAG_RSA_PKCS1_OPTIONAL_HASH_OID
                    SYMCRYPT_FLAG_RSA_PKCS1_OPTIONAL_HASH_OID =? 0)%Z)
      with true.
    cbv iota.
    destruct pHashOIDs as [oids|]; cbn [orb]; [ | by apply Hfb].
    pose proof (length_verify_oid_loop pbHash EM oids _ SYMCRYPT_NO_ERROR
                  (proj1 (Hrd oids eq_refl)) Hl0) as Hl1.
    destruct (verify_oid_loop _ _ _ _ _) as [e s1]. cbn [snd] in Hl1.
    destruct (is_no_error e) eqn:He; cbn [negb andb].
    + destruct e; try discriminate. reflexivity.
    + by apply Hfb.
  - unfold SymCryptRsaPkcs1VerifySignaturePadding.
    change (negb (Z.land 0 (UINT32_not SYMCRYPT_FLAG_RSA_PKCS1_OPTIONAL_HASH_OID) =? 0)%Z)
      with false.
    cbv iota. cbn [orb]. by apply Hfb.
Qed.

(** X7 on a SHA-1 sized bare hash in a 48-byte block, verified against
    the SHA-1 OID list with OPTIONAL_HASH_OID. *)
Lemma pkcs1_sig_verify_optional_oid_witness :
  let EM := [0; 1]%Z ++ replicate 25 255%Z ++ [0%Z] ++ replicate 20 6%Z in
  SymCryptRsaPkcs1VerifySignaturePadding (replicate 20 6%Z) (Some SymCryptSha1OidList) EM
    0%Z (replicate 48 0%Z) = SYMCRYPT_SIGNATURE_VERIFICATION_FAILURE
  /\ SymCryptRsaPkcs1VerifySignaturePadding (replicate 20 6%Z) (Some SymCryptSha1OidList) EM
       SYMCRYPT_FLAG_RSA_PKCS1_OPTIONAL_HASH_OID (replicate 48 0%Z) = SYMCRYPT_NO_ERROR.
Proof.
  cbv zeta. split; [vm_compute; reflexivity | ].
  apply (proj1 (pkcs1_sig_verify_optional_oid (replicate 20 6%Z) (Some SymCryptSha1OidList)
                  None 0 (replicate 48 0%Z) _ (replicate 48 0%Z)
                  ltac:(intros oids [= <-]; split;
                          [repeat constructor; vm_compute; lia | vm_compute; reflexivity])
                  ltac:(vm_compute; reflexivity) ltac:(vm_compute; lia))).
Defined.

Lemma sig_blocks_differ (k : nat) (pbHash : list Z) (a b : Z) :
  3 + 8 + (2 + length pbHash) <= k ->
  pkcs1_sig_block k pbHash <> pkcs1_sig_block k ([a; b] ++ pbHash).
Proof.
  intros Hk. unfold pkcs1_sig_block.
  replace (k - 3 - length pbHash) with (k - 3 - length ([a; b] ++ pbHash) + 2) by len.
  rewrite replicate_add. rewrite <- !app_assoc.
  intros H. apply app_inv_head in H. apply app_inv_head in H. discriminate H.
Qed.

(** X8: the block that the apply path builds without an OID and without
    NO_ASN1, [.. 00 || 04 || cbHash || hash], is not accepted by the
    verification called without an OID array, which expects the bare hash
    after the padding; it is accepted against an array that holds an
    entry of size 0. *)
Theorem pkcs1_sig_verify_rejects_octet_string_form
    (pbHash : list Z) (pbHashOid : option (list Z)) (buf EM : list Z) (flags : Z)
    (pbScratch : list Z) :
  SymCryptRsaPkcs1ApplySignaturePadding pbHash pbHashOid 0 0%Z buf = (SYMCRYPT_NO_ERROR, EM) ->
  length buf <= length pbScratch ->
  flags = 0%Z \/ flags = SYMCRYPT_FLAG_RSA_PKCS1_OPTIONAL_HASH_OID ->
  SymCryptRsaPkcs1VerifySignaturePadding pbHash None EM flags pbScratch
  = SYMCRYPT_SIGNATURE_VERIFICATION_FAILURE
  /\ SymCryptRsaPkcs1VerifySignaturePadding pbHash
       (Some [ {| cbOID := 0; pbOID := pbHashOid |} ]) EM flags pbScratch
     = SYMCRYPT_NO_ERROR.
Proof.
  intros Happ Hscr Hfl.
  assert (Hoid : oid_readable pbHashOid 0) by (destruct pbHashOid; cbn; lia).
  destruct (apply_success_block _ _ _ _ _ _ Hoid Happ) as (Hok & HEM & HlEM).
  assert (Hl0 : length (take (length EM) pbScratch) = length EM)
    by (rewrite length_take; lia).
  assert (Henc : exists b, sig_encoding pbHash pbHashOid 0 0%Z = [4%Z; b] ++ pbHash).
  { unfold sig_encoding. cbn [Z.land Z.eqb]. destruct pbHashOid; eexists; reflexivity. }
  destruct Henc as [b Henc].
  pose proof (sig_args_ok_bounds _ _ _ _ _ Hok) as Hk. rewrite Henc in Hk.
  unfold sig_args_ok in Hok. rewrite Henc in Hok.
  apply andb_prop in Hok as [Hok _]. apply andb_prop in Hok as [_ Ht].
  apply Nat.leb_le in Ht. cbn [length app] in Hk, Ht.
  split.
  - assert (Hv : SymCryptRsaPkcs1VerifySignaturePadding pbHash None EM flags pbScratch
                 = fst (SymCryptRsaPkcs1CheckSignaturePadding pbHash None 0 EM
                          SYMCRYPT_FLAG_RSA_PKCS1_NO_ASN1 (take (length EM) pbScratch)))
      by (destruct Hfl as [-> | ->]; reflexivity).
    rewrite Hv. rewrite check_sig_result by done.
    assert (Hok' : sig_args_ok pbHash None 0 SYMCRYPT_FLAG_RSA_PKCS1_NO_ASN1 (length EM)
                   = true).
    { unfold sig_args_ok.
      change (sig_encoding pbHash None 0 SYMCRYPT_FLAG_RSA_PKCS1_NO_ASN1) with pbHash.
      rewrite (proj2 (Nat.leb_le (length pbHash) 128)) by lia.
      rewrite (proj2 (Nat.leb_le (3 + 8 + length pbHash) (length EM))) by lia.
      reflexivity. }
    rewrite Hok'.
    change (sig_encoding pbHash None 0 SYMCRYPT_FLAG_RSA_PKCS1_NO_ASN1) with pbHash.
    rewrite bool_decide_eq_false_2; [reflexivity | ].
    rewrite HEM at 2. rewrite Henc, HlEM. apply sig_blocks_differ. lia.
  - pose proof (verify_oid_loop_finds pbHash EM {| cbOID := 0; pbOID := pbHashOid |}
                  [ {| cbOID := 0; pbOID := pbHashOid |} ] _ SYMCRYPT_NO_ERROR
                  ltac:(by left) ltac:(by repeat constructor) Hl0
                  (fun scr1 Hl1 => check_of_apply pbHash pbHashOid 0 0%Z buf EM scr1
                                     Hoid Happ Hl1)) as Hloop.
    unfold SymCryptRsaPkcs1VerifySignaturePadding.
    destruct (verify_oid_loop _ _ _ _ _) as [e s1]. cbn [fst] in Hloop. subst e.
    destruct Hfl as [-> | ->]; reflexivity.
Qed.

(** X8 on a 16-byte hash and a 32-byte block. *)
Lemma pkcs1_sig_verify_rejects_octet_string_form_witness :
  let EM := [0; 1]%Z ++ replicate 11 255%Z ++ [0%Z] ++ [4; 16]%Z ++ replicate 16 5%Z in
  SymCryptRsaPkcs1ApplySignaturePadding (replicate 16 5%Z) None 0 0%Z (replicate 32 0%Z)
  = (SYMCRYPT_NO_ERROR, EM)
  /\ SymCryptRsaPkcs1VerifySignaturePadding (replicate 16 5%Z) None EM 0%Z (replicate 32 0%Z)
     = SYMCRYPT_SIGNATURE_VERIFICATION_FAILURE.
Proof.
  cbv zeta. split; [vm_compute; reflexivity | ].
  apply (proj1 (pkcs1_sig_verify_rejects_octet_string_form (replicate 16 5%Z) None
                  (replicate 32 0%Z) _ 0%Z (replicate 32 0%Z)
                  ltac:(vm_compute; reflexivity) ltac:(vm_compute; lia)
                  ltac:(left; reflexivity))).
Defined.

(** * Further properties of the PKCS#1 v1.5 encryption padding *)

(** X9: a run of the encryption apply path that ends with
    [SYMCRYPT_NO_ERROR] was called with [flags = 0] and leaves a block of
    the size it was given, [00 02 || PS || 00 || M], in which the padding
    string has at least eight bytes, none of them zero. *)
Theorem pkcs1_enc_apply_block {RndState : Type} (rnd : RANDOM_CALLBACK RndState)
    (fuel : nat) (s s' : RndState) (M : list Z) (flags : Z) (buf EM : list Z) :
  SymCryptRsaPkcs1ApplyEncryptionPadding rnd fuel s M flags buf
  = Some (SYMCRYPT_NO_ERROR, EM, s') ->
  flags = 0%Z
  /\ length EM = length buf
  /\ exists PS,
       EM = [0; 2]%Z ++ PS ++ [0%Z] ++ M
       /\ 8 <= length PS
       /\ Forall (fun b => b <> 0%Z) PS.
Proof.
  intros Happ.
  assert (Hfl : flags = 0%Z).
  { unfold SymCryptRsaPkcs1ApplyEncryptionPadding in Happ.
    destruct (Z.eqb_spec flags 0) as [?|?]; [done | ]. cbn [negb orb] in Happ.
    discriminate Happ. }
  split; [exact Hfl | ].
  apply pkcs1_enc_apply_shape in Happ as (Hk & PS & -> & HlPS & Hnz).
  split; [len | ].
  exists PS. split; [reflexivity | ]. split; [lia | exact Hnz].
Qed.

(** X9 on a five-byte message, a 16-byte block and a tape whose second
    byte is zero (one redraw). *)
Lemma pkcs1_enc_apply_block_witness :
  exists PS,
    [0; 2; 170; 187; 204; 221; 238; 255; 17; 34; 0; 1; 2; 3; 4; 5]%Z
    = [0; 2]%Z ++ PS ++ [0%Z] ++ [1; 2; 3; 4; 5]%Z
    /\ 8 <= length PS
    /\ Forall (fun b => b <> 0%Z) PS.
Proof.
  apply (pkcs1_enc_apply_block tape_random 2
           [170; 0; 204; 221; 238; 255; 17; 34; 187]%Z []
           [1; 2; 3; 4; 5]%Z 0%Z (replicate 16 0%Z)).
  vm_compute. reflexivity.
Defined.

Lemma redraw_loop_stuck {RndState : Type} (rnd : RANDOM_CALLBACK RndState) :
  (forall s cb, exists s', rnd s cb = (SYMCRYPT_NO_ERROR, replicate cb 0%Z, s')) ->
  forall fuel s buf idx,
    idx < length buf -> load buf idx = 0%Z -> redraw_loop rnd fuel s buf idx = None.
Proof.
  intros Hz. induction fuel as [|fuel IH]; intros s buf idx Hidx H0; cbn [redraw_loop];
    rewrite H0; cbn [Z.eqb]; [reflexivity | ].
  unfold SymCryptCallbackRandom. destruct (Hz s 1) as [s1 ->]. cbn [is_no_error].
  apply IH; [len | ].
  unfold memcpy. rewrite load_inserts_in by len. rewrite Nat.sub_diag. reflexivity.
Qed.

(** X10: the redraw loop of the encryption apply path has no bound: with a
    random source that succeeds and hands back zero bytes only, a call
    with valid arguments does not return, whatever the number of redraws
    it is allowed. *)
Theorem pkcs1_enc_apply_zero_source {RndState : Type} (rnd : RANDOM_CALLBACK RndState)
    (s : RndState) (M buf : list Z) :
  (forall s cb, exists s', rnd s cb = (SYMCRYPT_NO_ERROR, replicate cb 0%Z, s')) ->
  length M + 11 <= length buf ->
  forall fuel, SymCryptRsaPkcs1ApplyEncryptionPadding rnd fuel s M 0%Z buf = None.
Proof.
  intros Hz Hk fuel. unfold SymCryptRsaPkcs1ApplyEncryptionPadding.
  cbn [Z.eqb negb orb].
  destruct (Nat.ltb_spec (length buf) (length M + 11)) as [?|_]; [lia | ].
  unfold SymCryptCallbackRandom.
  destruct (Hz s (length buf - (length M + 3))) as [s1 ->]. cbn [is_no_error negb].
  destruct (length buf - (length M + 3)) as [|n] eqn:Hn; [lia | ].
  cbn [nonzero_loop].
  rewrite (redraw_loop_stuck rnd Hz); [reflexivity | len | ].
  unfold memcpy, store. rewrite load_inserts_in by len.
  rewrite Nat.sub_diag. rewrite take_ge by len. reflexivity.
Qed.

(** X10 with the all-zero source, a two-byte message and a 16-byte block,
    at a bound of 1000 redraws. *)
Lemma pkcs1_enc_apply_zero_source_witness :
  SymCryptRsaPkcs1ApplyEncryptionPadding zero_random 1000 tt [1; 2]%Z 0%Z (replicate 16 7%Z)
  = None.
Proof.
  apply (pkcs1_enc_apply_zero_source zero_random tt [1; 2]%Z (replicate 16 7%Z)).
  - intros s cb. exists s. reflexivity.
  - vm_compute. lia.
Defined.

Lemma scan_zero_spec (pb : list Z) : forall n i,
  i <= scan_zero pb n i <= i + n
  /\ (forall j, i <= j < scan_zero pb n i -> load pb j <> 0%Z)
  /\ (scan_zero pb n i < i + n -> load pb (scan_zero pb n i) = 0%Z).
Proof.
  induction n as [|n IH]; intros i; cbn [scan_zero].
  - split; [lia | ]. split; intros; lia.
  - destruct (Z.eqb_spec (load pb i) 0) as [Hz|Hnz].
    + split; [lia | ]. split; [intros; lia | done].
    + destruct (IH (i + 1)) as (Hr & Hnzs & Hzs).
      split; [lia | ]. split.
      * intros j Hj. destruct (decide (j = i)) as [->|Hne]; [done | ]. apply Hnzs. lia.
      * intros Hlt. apply Hzs. lia.
Qed.

Lemma lookup_of_load (p : list Z) i : i < length p -> p !! i = Some (load p i).
Proof.
  intros H. unfold load. destruct (lookup_lt_is_Some_2 p i H) as [x ->]. reflexivity.
Qed.

(** A block that passes the three checks of the encryption remove path
    is [00 02 || PS || 00 || M] with no zero byte in [PS]. *)
Lemma remove_checks_shape (blk : list Z) :
  2 <= length blk ->
  load blk 0 = 0%Z -> load blk 1 = 2%Z ->
  scan_zero blk (length blk - 2) 2 < length blk ->
  exists PS M, blk = [0; 2]%Z ++ PS ++ [0%Z] ++ M /\ Forall (fun b => b <> 0%Z) PS.
Proof.
  intros Hlen H0 H1 Hscan.
  destruct (scan_zero_spec blk (length blk - 2) 2) as (Hr & Hnz & Hz).
  set (r := scan_zero blk (length blk - 2) 2) in *.
  specialize (Hz ltac:(lia)).
  exists (bytes_at blk 2 (r - 2)), (drop (r + 1) blk). split.
  - rewrite <- (take_drop 2 blk) at 1. f_equal.
    + change (take 2 blk) with (bytes_at blk 0 (1 + 1)). rewrite bytes_at_split.
      rewrite (bytes_at_1 blk 0 (load blk 0)) by (apply lookup_of_load; lia).
      rewrite (bytes_at_1 blk (0 + 1) (load blk 1)) by (apply lookup_of_load; lia).
      rewrite H0, H1. reflexivity.
    + unfold bytes_at. rewrite <- (take_drop (r - 2) (drop 2 blk)) at 1. f_equal.
      rewrite drop_drop. replace (2 + (r - 2)) with r by lia.
      rewrite (drop_S blk (load blk r) r) by (apply lookup_of_load; lia).
      rewrite Hz. replace (S r) with (r + 1) by lia. reflexivity.
  - apply Forall_forall. intros x Hx. apply list_elem_of_lookup in Hx as [j Hj].
    assert (Hjlt : j < r - 2).
    { apply lookup_lt_Some in Hj. rewrite length_bytes_at in Hj by lia. done. }
    specialize (Hnz (2 + j) ltac:(lia)).
    unfold bytes_at in Hj. rewrite lookup_take_lt in Hj by lia.
    rewrite lookup_drop in Hj. unfold load in Hnz. rewrite Hj in Hnz. exact Hnz.
Qed.

(** The encryption remove path on a block [00 02 || PS || 00 || M]. *)
Lemma pkcs1_enc_remove_outcome (PS M : list Z) (pbPlaintext : option (list Z)) (pcb0 : Z) :
  Forall (fun b => b <> 0%Z) PS ->
  (Z.of_nat (length ([0; 2]%Z ++ PS ++ [0%Z] ++ M)) < 2 ^ 64)%Z ->
  SymCryptRsaPkcs1RemoveEncryptionPadding ([0; 2]%Z ++ PS ++ [0%Z] ++ M) 0%Z pbPlaintext pcb0
  = match pbPlaintext with
    | None => (SYMCRYPT_NO_ERROR, None, Z.of_nat (length M))
    | Some out =>
        if length out <? length M
        then (SYMCRYPT_BUFFER_TOO_SMALL, Some out, Z.of_nat (length M))
        else (SYMCRYPT_NO_ERROR, Some (M ++ drop (length M) out), Z.of_nat (length M))
    end.
Proof.
  intros Hnz Hk.
  unfold SymCryptRsaPkcs1RemoveEncryptionPadding.
  set (EM := [0; 2]%Z ++ PS ++ [0%Z] ++ M) in *.
  assert (HlEM : length EM = 3 + length PS + length M) by (subst EM; len).
  cbn [Z.eqb negb orb].
  destruct (Nat.ltb_spec (length EM) 2) as [?|_]; [lia | ].
  assert (Hscan : scan_zero EM (length EM - 2) 2 = 2 + length PS).
  { subst EM. apply (scan_zero_finds PS [0; 2]%Z M); [reflexivity | done | len]. }
  rewrite Hscan.
  assert (H0 : load EM 0 = 0%Z) by reflexivity.
  assert (H1 : load EM 1 = 2%Z) by reflexivity.
  rewrite H0, H1. cbn [Z.eqb andb PKCS_BLOCKTYPE_2].
  destruct (Nat.ltb_spec (2 + length PS) (length EM)) as [_|?]; [ | lia].
  cbn [negb].
  assert (Hpcb : SIZE_T_sub (Z.of_nat (length EM)) (Z.of_nat (2 + length PS + 1))
                 = Z.of_nat (length M)).
  { unfold SIZE_T_sub, SIZE_T_wrap. rewrite Z.mod_small; lia. }
  rewrite Hpcb. destruct pbPlaintext as [out|]; [ | reflexivity].
  destruct (Z.ltb_spec (Z.of_nat (length out)) (Z.of_nat (length M))),
           (Nat.ltb_spec (length out) (length M)); try lia; [reflexivity | ].
  rewrite Nat2Z.id.
  assert (Hdrop : drop (2 + length PS + 1) EM = M).
  { subst EM. replace ([0; 2]%Z ++ PS ++ [0%Z] ++ M) with (([0; 2]%Z ++ PS ++ [0%Z]) ++ M)
      by (rewrite <- !app_assoc; reflexivity).
    apply drop_app_length'. len. }
  rewrite Hdrop. rewrite memcpy_front by lia. reflexivity.
Qed.

(** X11: with [flags = 0] the encryption remove path returns
    [SYMCRYPT_INVALID_ARGUMENT] exactly for the blocks that are not of the
    form [00 02 || PS || 00 || M] with [PS] free of zero bytes.  The
    length of [PS] is not checked: a padding string of fewer than eight
    bytes, the empty one included, is accepted. *)
Theorem pkcs1_enc_remove_invalid_iff
    (pbPKCS1Format : list Z) (pbPlaintext : option (list Z)) (pcb0 : Z) :
  (Z.of_nat (length pbPKCS1Format) < 2 ^ 32)%Z ->
  fst (fst (SymCryptRsaPkcs1RemoveEncryptionPadding pbPKCS1Format 0%Z pbPlaintext pcb0))
  = SYMCRYPT_INVALID_ARGUMENT
  <->
  ~ (exists PS M,
       pbPKCS1Format = [0; 2]%Z ++ PS ++ [0%Z] ++ M /\ Forall (fun b => b <> 0%Z) PS).
Proof.
  intros Hk. split.
  - intros Hinv (PS & M & -> & Hnz).
    rewrite pkcs1_enc_remove_outcome in Hinv by (done || lia).
    destruct pbPlaintext as [out|]; [ | discriminate Hinv].
    destruct (length out <? length M); discriminate Hinv.
  - intros Hno. unfold SymCryptRsaPkcs1RemoveEncryptionPadding.
    cbn [Z.eqb negb orb].
    destruct (Nat.ltb_spec (length pbPKCS1Format) 2) as [?|Hlen]; [reflexivity | ].
    destruct (Z.eqb_spec (load pbPKCS1Format 0) 0) as [H0|?]; [ | reflexivity].
    destruct (Z.eqb_spec (load pbPKCS1Format 1) PKCS_BLOCKTYPE_2) as [H1|?]; [ | reflexivity].
    destruct (Nat.ltb_spec (scan_zero pbPKCS1Format (length pbPKCS1Format - 2) 2)
                (length pbPKCS1Format)) as [Hscan|?]; [ | reflexivity].
    exfalso. apply Hno. by apply remove_checks_shape.
Qed.

(** X11 on the three-byte block [00 02 00] (empty padding string, empty
    message), which is accepted, and on [00 02 07 07], which holds no
    zero separator. *)
Lemma pkcs1_enc_remove_invalid_iff_witness :
  SymCryptRsaPkcs1RemoveEncryptionPadding [0; 2; 0]%Z 0%Z None 77%Z
  = (SYMCRYPT_NO_ERROR, None, 0%Z)
  /\ ~ (exists PS M,
          [0; 2; 7; 7]%Z = [0; 2]%Z ++ PS ++ [0%Z] ++ M /\ Forall (fun b => b <> 0%Z) PS).
Proof.
  split; [vm_compute; reflexivity | ].
  apply (proj1 (pkcs1_enc_remove_invalid_iff [0; 2; 7; 7]%Z None 77%Z
                  ltac:(vm_compute; reflexivity))).
  vm_compute. reflexivity.
Defined.

(** X12: the size query of the encryption remove path.  When a call
    without an output buffer ([pbPlaintext = NULL]) returns
    [SYMCRYPT_NO_ERROR] and the length [n], then [n <= cbPKCS1Format - 3]
    and a call with a buffer returns [SYMCRYPT_BUFFER_TOO_SMALL], the
    buffer untouched and [n] reported, when the buffer has fewer than [n]
    bytes, and otherwise copies the last [n] bytes of the block to the
    front of the buffer and leaves the rest of the buffer as it was. *)
Theorem pkcs1_enc_remove_size_query (pbPKCS1Format : list Z) (pcb0 : Z) (n : Z) :
  (Z.of_nat (length pbPKCS1Format) < 2 ^ 32)%Z ->
  SymCryptRsaPkcs1RemoveEncryptionPadding pbPKCS1Format 0%Z None pcb0
  = (SYMCRYPT_NO_ERROR, None, n) ->
  (0 <= n <= Z.of_nat (length pbPKCS1Format) - 3)%Z
  /\ forall (out : list Z) (pcb1 : Z),
       SymCryptRsaPkcs1RemoveEncryptionPadding pbPKCS1Format 0%Z (Some out) pcb1
       = if (Z.of_nat (length out) <? n)%Z
         then (SYMCRYPT_BUFFER_TOO_SMALL, Some out, n)
         else (SYMCRYPT_NO_ERROR,
               Some (drop (length pbPKCS1Format - Z.to_nat n) pbPKCS1Format
                     ++ drop (Z.to_nat n) out),
               n).
Proof.
  intros Hk Hq.
  assert (Hshape : exists PS M,
             pbPKCS1Format = [0; 2]%Z ++ PS ++ [0%Z] ++ M
             /\ Forall (fun b => b <> 0%Z) PS).
  { revert Hq. unfold SymCryptRsaPkcs1RemoveEncryptionPadding.
    cbn [Z.eqb negb orb].
    destruct (Nat.ltb_spec (length pbPKCS1Format) 2) as [?|Hlen]; [discriminate | ].
    destruct (Z.eqb_spec (load pbPKCS1Format 0) 0) as [H0|?]; [ | discriminate].
    destruct (Z.eqb_spec (load pbPKCS1Format 1) PKCS_BLOCKTYPE_2) as [H1|?]; [ | discriminate].
    destruct (Nat.ltb_spec (scan_zero pbPKCS1Format (length pbPKCS1Format - 2) 2)
                (length pbPKCS1Format)) as [Hscan|?]; [ | discriminate].
    intros _. by apply remove_checks_shape. }
  destruct Hshape as (PS & M & -> & Hnz).
  rewrite pkcs1_enc_remove_outcome in Hq by (done || lia).
  injection Hq as <-.
  split; [len | ].
  intros out pcb1. rewrite pkcs1_enc_remove_outcome by (done || lia).
  rewrite Nat2Z.id.
  replace (drop (length ([0; 2]%Z ++ PS ++ [0%Z] ++ M) - length M)
             ([0; 2]%Z ++ PS ++ [0%Z] ++ M)) with M.
  - destruct (Nat.ltb_spec (length out) (length M)),
             (Z.ltb_spec (Z.of_nat (length out)) (Z.of_nat (length M)));
      try lia; reflexivity.
  - replace ([0; 2]%Z ++ PS ++ [0%Z] ++ M) with (([0; 2]%Z ++ PS ++ [0%Z]) ++ M)
      by (rewrite <- !app_assoc; reflexivity).
    symmetry. apply drop_app_length'. len.
Qed.

(** X12 on a block with a three-byte message, queried and then read into
    a two-byte and into a five-byte buffer. *)
Lemma pkcs1_enc_remove_size_query_witness :
  let blk := [0; 2; 9; 8; 7; 6; 5; 4; 3; 2; 0; 65; 66; 67]%Z in
  SymCryptRsaPkcs1RemoveEncryptionPadding blk 0%Z (Some [1; 1]%Z) 0%Z
  = (SYMCRYPT_BUFFER_TOO_SMALL, Some [1; 1]%Z, 3%Z)
  /\ SymCryptRsaPkcs1RemoveEncryptionPadding blk 0%Z (Some [1; 1; 1; 1; 1]%Z) 0%Z
     = (SYMCRYPT_NO_ERROR, Some [65; 66; 67; 1; 1]%Z, 3%Z).
Proof.
  cbv zeta.
  pose proof (proj2 (pkcs1_enc_remove_size_query
                       [0; 2; 9; 8; 7; 6; 5; 4; 3; 2; 0; 65; 66; 67]%Z 0%Z 3%Z
                       ltac:(vm_compute; reflexivity) ltac:(vm_compute; reflexivity))) as H.
  split; [exact (H [1; 1]%Z 0%Z) | exact (H [1; 1; 1; 1; 1]%Z 0%Z)].
Defined.

(** X13: the encryption apply path refuses a set flag and a message
    longer than [k - 11] bytes with [SYMCRYPT_INVALID_ARGUMENT], the block
    and the random source untouched; when the first draw of the random
    callback fails, the error code of the callback is handed back, the
    block by then holding [00 02] in its first two bytes. *)
Theorem pkcs1_enc_apply_errors {RndState : Type} (rnd : RANDOM_CALLBACK RndState)
    (fuel : nat) (s : RndState) (M : list Z) (flags : Z) (buf : list Z) :
  (flags <> 0%Z \/ length buf < length M + 11 ->
   SymCryptRsaPkcs1ApplyEncryptionPadding rnd fuel s M flags buf
   = Some (SYMCRYPT_INVALID_ARGUMENT, buf, s))
  /\
  (forall e bytes s1,
     flags = 0%Z ->
     length M + 11 <= length buf ->
     rnd s (length buf - (length M + 3)) = (e, bytes, s1) ->
     e <> SYMCRYPT_NO_ERROR ->
     exists buf',
       SymCryptRsaPkcs1ApplyEncryptionPadding rnd fuel s M flags buf = Some (e, buf', s1)
       /\ length buf' = length buf
       /\ take 2 buf' = [0; 2]%Z).
Proof.
  split.
  - intros Hbad. unfold SymCryptRsaPkcs1ApplyEncryptionPadding.
    destruct (Z.eqb_spec flags 0) as [Hf|Hf]; cbn [negb orb]; [ | reflexivity].
    destruct (Nat.ltb_spec (length buf) (length M + 11)) as [?|?]; [reflexivity | ].
    exfalso. destruct Hbad; [done | lia].
  - intros e bytes s1 -> Hk Hrnd He.
    unfold SymCryptRsaPkcs1ApplyEncryptionPadding, SymCryptCallbackRandom.
    cbn [Z.eqb negb orb].
    destruct (Nat.ltb_spec (length buf) (length M + 11)) as [?|_]; [lia | ].
    rewrite Hrnd.
    assert (Hne : is_no_error e = false) by (destruct e; done).
    rewrite Hne. cbn [negb]. eexists. split; [reflexivity | ].
    split; [len | ].
    unfold store, PKCS_BLOCKTYPE_2.
    destruct buf as [|b0 [|b1 buf]]; cbn [length] in Hk; try lia. reflexivity.
Qed.

(** X13 with an empty tape: the first draw fails. *)
Lemma pkcs1_enc_apply_errors_witness :
  exists buf',
    SymCryptRsaPkcs1ApplyEncryptionPadding tape_random 3 [] [1; 2]%Z 0%Z (replicate 16 7%Z)
    = Some (SYMCRYPT_CALLBACK_FAILURE 1, buf', [])
    /\ length buf' = length (replicate 16 7%Z)
    /\ take 2 buf' = [0; 2]%Z.
Proof.
  apply (proj2 (pkcs1_enc_apply_errors tape_random 3 [] [1; 2]%Z 0%Z (replicate 16 7%Z))
           (SYMCRYPT_CALLBACK_FAILURE 1) [] []).
  - reflexivity.
  - vm_compute. lia.
  - vm_compute. reflexivity.
  - discriminate.
Defined.

(** X1 with a tape free of zero bytes and no redraw allowed. *)
Lemma pkcs1_enc_apply_completes_witness :
  SymCryptRsaPkcs1ApplyEncryptionPadding tape_random 0
    [170; 187; 204; 221; 238; 255; 17; 34]%Z [1; 2; 3; 4; 5]%Z 0%Z (replicate 16 0%Z)
  = Some (SYMCRYPT_NO_ERROR,
          [0; 2]%Z ++ [170; 187; 204; 221; 238; 255; 17; 34]%Z ++ [0%Z] ++ [1; 2; 3; 4; 5]%Z,
          []).
Proof.
  apply (pkcs1_enc_apply_completes tape_random 0
           [170; 187; 204; 221; 238; 255; 17; 34]%Z [] [1; 2; 3; 4; 5]%Z (replicate 16 0%Z)
           [170; 187; 204; 221; 238; 255; 17; 34]%Z).
  - vm_compute. lia.
  - vm_compute. reflexivity.
  - reflexivity.
  - repeat constructor; discriminate.
Defined.

(** * Further properties of the OAEP padding *)

(** X14: a supplied seed shorter than the hash result is extended with
    zero bytes: the apply path wipes its [cbHashAlg]-byte seed area before
    it copies the [cbSeed] bytes in, so the call equals the call with the
    zero-extended seed of full length.  The block has fewer than [2^32]
    bytes, the range in which the [UINT32] counters of the xor loops
    reach [cbDB]. *)
Theorem oaep_apply_short_seed {RndState : Type} (rnd : RANDOM_CALLBACK RndState) (s : RndState)
    (h : SYMCRYPT_HASH) (M pbLabel seed : list Z) (cbSeed : nat) (buf pbScratch : list Z) :
  hash_wf h ->
  length M + SymCryptHashResultSize h * 2 + 2 <= length buf ->
  (Z.of_nat (length buf) < 2 ^ 32)%Z ->
  cbSeed <= SymCryptHashResultSize h ->
  cbSeed <= length seed ->
  SymCryptHashStateSize h + SymCryptHashResultSize h * 2
  + (length buf - (SymCryptHashResultSize h + 1)) * 2 <= length pbScratch ->
  SymCryptRsaOaepApplyEncryptionPadding rnd s M h pbLabel (Some seed) cbSeed 0%Z buf pbScratch
  = SymCryptRsaOaepApplyEncryptionPadding rnd s M h pbLabel
      (Some (take cbSeed seed ++ replicate (SymCryptHashResultSize h - cbSeed) 0%Z))
      (SymCryptHashResultSize h) 0%Z buf pbScratch.
Proof.
  intros Hwf Hk _ Hc Hs Hscr.
  rewrite (oaep_apply_supplied_seed rnd s h M pbLabel seed cbSeed) by done.
  assert (Hl : length (take cbSeed seed ++ replicate (SymCryptHashResultSize h - cbSeed) 0%Z)
               = SymCryptHashResultSize h).
  { rewrite length_app, length_take, length_replicate. lia. }
  rewrite (oaep_apply_supplied_seed rnd s h M pbLabel _ (SymCryptHashResultSize h)
             buf pbScratch Hwf Hk (Nat.le_refl _) (Nat.eq_le_incl _ _ (eq_sym Hl)) Hscr).
  rewrite Nat.sub_diag. cbn [replicate]. rewrite app_nil_r.
  rewrite (take_ge (take cbSeed seed ++ _)) by lia. reflexivity.
Qed.

(** X14 with the two-byte demo digest: a one-byte seed against the same
    seed followed by a zero byte. *)
Lemma oaep_apply_short_seed_witness :
  SymCryptRsaOaepApplyEncryptionPadding tape_random [] [65; 66]%Z demo_hash [7]%Z
    (Some [200]%Z) 1 0%Z (replicate 8 0%Z) (replicate 18 0%Z)
  = SymCryptRsaOaepApplyEncryptionPadding tape_random [] [65; 66]%Z demo_hash [7]%Z
      (Some [200; 0]%Z) 2 0%Z (replicate 8 0%Z) (replicate 18 0%Z).
Proof.
  apply (oaep_apply_short_seed tape_random [] demo_hash [65; 66]%Z [7]%Z [200]%Z 1
           (replicate 8 0%Z) (replicate 18 0%Z)).
  - apply demo_hash_wf.
  - vm_compute. lia.
  - vm_compute. reflexivity.
  - vm_compute. lia.
  - vm_compute. lia.
  - vm_compute. lia.
Defined.

(** X15: without a supplied seed ([pbSeed = NULL], [cbSeed = 0]) the apply
    path asks the random callback for [cbHashAlg] bytes once.  When the
    callback succeeds the block is the one a call with these bytes as
    supplied seed gives; when it fails its error code is handed back and
    the output block is left as it was.  The block has fewer than
    [2^32] bytes, the range in which the [UINT32] counters of the xor
    loops reach [cbDB]. *)
Theorem oaep_apply_random_seed_outcome {RndState : Type}
    (rnd : RANDOM_CALLBACK RndState) (s s1 : RndState) (e : SYMCRYPT_ERROR)
    (h : SYMCRYPT_HASH) (M pbLabel seed : list Z) (buf pbScratch : list Z) :
  hash_wf h ->
  length M + SymCryptHashResultSize h * 2 + 2 <= length buf ->
  (Z.of_nat (length buf) < 2 ^ 32)%Z ->
  rnd s (SymCryptHashResultSize h) = (e, seed, s1) ->
  (e = SYMCRYPT_NO_ERROR -> length seed = SymCryptHashResultSize h) ->
  SymCryptHashStateSize h + SymCryptHashResultSize h * 2
  + (length buf - (SymCryptHashResultSize h + 1)) * 2 <= length pbScratch ->
  SymCryptRsaOaepApplyEncryptionPadding rnd s M h pbLabel None 0 0%Z buf pbScratch
  = if is_no_error e then
      (SYMCRYPT_NO_ERROR,
       snd (fst (SymCryptRsaOaepApplyEncryptionPadding rnd s M h pbLabel (Some seed)
                   (SymCryptHashResultSize h) 0%Z buf pbScratch)),
       s1)
    else (e, buf, s1).
Proof.
  intros Hwf Hk _ Hrnd Hls Hscr.
  destruct e; cbn [is_no_error].
  - specialize (Hls eq_refl).
    rewrite (oaep_apply_random_seed rnd s s1 h M pbLabel seed) by done.
    rewrite (oaep_apply_supplied_seed rnd s h M pbLabel seed (SymCryptHashResultSize h))
      by (done || lia).
    cbn [fst snd]. rewrite Nat.sub_diag. cbn [replicate]. rewrite app_nil_r.
    rewrite take_ge by lia. reflexivity.
  - unfold SymCryptRsaOaepApplyEncryptionPadding, SymCryptCallbackRandom.
    cbn [Z.eqb Nat.eqb negb orb]. rewrite Hrnd.
    destruct (Nat.ltb_spec (length buf) (length M + SymCryptHashResultSize h * 2 + 2))
      as [?|_]; [lia | ]. reflexivity.
  - unfold SymCryptRsaOaepApplyEncryptionPadding, SymCryptCallbackRandom.
    cbn [Z.eqb Nat.eqb negb orb]. rewrite Hrnd.
    destruct (Nat.ltb_spec (length buf) (length M + SymCryptHashResultSize h * 2 + 2))
      as [?|_]; [lia | ]. reflexivity.
  - unfold SymCryptRsaOaepApplyEncryptionPadding, SymCryptCallbackRandom.
    cbn [Z.eqb Nat.eqb negb orb]. rewrite Hrnd.
    destruct (Nat.ltb_spec (length buf) (length M + SymCryptHashResultSize h * 2 + 2))
      as [?|_]; [lia | ]. reflexivity.
  - unfold SymCryptRsaOaepApplyEncryptionPadding, SymCryptCallbackRandom.
    cbn [Z.eqb Nat.eqb negb orb]. rewrite Hrnd.
    destruct (Nat.ltb_spec (length buf) (length M + SymCryptHashResultSize h * 2 + 2))
      as [?|_]; [lia | ]. reflexivity.
Qed.

(** X15 with the two-byte demo digest and a tape that is too short: the
    callback fails and the block keeps its bytes. *)
Lemma oaep_apply_random_seed_outcome_witness :
  SymCryptRsaOaepApplyEncryptionPadding tape_random [9]%Z [65; 66]%Z demo_hash [7]%Z
    None 0 0%Z (replicate 8 3%Z) (replicate 18 0%Z)
  = (SYMCRYPT_CALLBACK_FAILURE 1, replicate 8 3%Z, [9]%Z).
Proof.
  apply (oaep_apply_random_seed_outcome tape_random [9]%Z [9]%Z (SYMCRYPT_CALLBACK_FAILURE 1)
           demo_hash [65; 66]%Z [7]%Z [] (replicate 8 3%Z) (replicate 18 0%Z)).
  - apply demo_hash_wf.
  - vm_compute. lia.
  - vm_compute. reflexivity.
  - vm_compute. reflexivity.
  - discriminate.
  - vm_compute. lia.
Defined.

(** X16: the OAEP apply path builds the block the diagram of the source
    shows, [EM = 00 || maskedSeed || maskedDB], with
    [DB = lHash || PS || 01 || M], [PS] all zero,
    [maskedDB = DB xor MGF(seed)] and [maskedSeed = seed xor MGF(maskedDB)],
    the masks being those of [SymCryptRsaPaddingMaskGeneration]; the block
    keeps its size.  The block has fewer than [2^32] bytes, the range in
    which the [UINT32] counters of the xor loops reach [cbDB]. *)
Theorem oaep_apply_format {RndState : Type} (rnd : RANDOM_CALLBACK RndState) (s : RndState)
    (h : SYMCRYPT_HASH) (M pbLabel seed : list Z) (buf pbScratch : list Z) :
  hash_wf h ->
  length seed = SymCryptHashResultSize h ->
  length M + SymCryptHashResultSize h * 2 + 2 <= length buf ->
  (Z.of_nat (length buf) < 2 ^ 32)%Z ->
  SymCryptHashStateSize h + SymCryptHashResultSize h * 2
  + (length buf - (SymCryptHashResultSize h + 1)) * 2 <= length pbScratch ->
  let hLen := SymCryptHashResultSize h in
  let DB :=
    hashFn h pbLabel ++ replicate (length buf - (length M + hLen * 2 + 2)) 0%Z
    ++ [1%Z] ++ M in
  let maskedDB :=
    xor_bytes DB (SymCryptRsaPaddingMaskGeneration h seed (replicate (length DB) 0%Z)) in
  let maskedSeed :=
    xor_bytes seed (SymCryptRsaPaddingMaskGeneration h maskedDB (replicate hLen 0%Z)) in
  SymCryptRsaOaepApplyEncryptionPadding rnd s M h pbLabel (Some seed) hLen 0%Z buf pbScratch
  = (SYMCRYPT_NO_ERROR, [0%Z] ++ maskedSeed ++ maskedDB, s)
  /\ length ([0%Z] ++ maskedSeed ++ maskedDB) = length buf.
Proof.
  intros Hwf Hls Hk _ Hscr hLen DB maskedDB maskedSeed.
  assert (HDB : DB = oaep_DB h pbLabel M (length buf)) by reflexivity.
  assert (HlDB : length DB = length buf - (hLen + 1))
    by (rewrite HDB; apply length_oaep_DB; done).
  assert (Hm1 : maskedDB = xor_bytes DB (mgf_mask h seed (length DB))).
  { subst maskedDB. rewrite mgf_generation_mask by done. rewrite length_replicate.
    reflexivity. }
  assert (Hm2 : maskedSeed = xor_bytes seed (mgf_mask h maskedDB (length seed))).
  { subst maskedSeed. rewrite mgf_generation_mask by done. rewrite length_replicate.
    rewrite Hls. reflexivity. }
  split.
  - rewrite (oaep_apply_supplied_seed rnd s h M pbLabel seed hLen) by (done || lia).
    rewrite Nat.sub_diag. cbn [replicate]. rewrite app_nil_r.
    rewrite take_ge by lia. rewrite <- HDB.
    rewrite oaep_encode_parts by done. rewrite Hm2, Hm1. reflexivity.
  - rewrite Hm2, Hm1. autorewrite with len. cbn [length].
    rewrite HlDB, Hls. fold hLen. lia.
Qed.

(** X16 with the two-byte demo digest, a two-byte message and an
    eight-byte block. *)
Lemma oaep_apply_format_witness :
  SymCryptRsaOaepApplyEncryptionPadding tape_random [] [65; 66]%Z demo_hash [7]%Z
    (Some [200; 100]%Z) 2 0%Z (replicate 8 0%Z) (replicate 18 0%Z)
  = (SYMCRYPT_NO_ERROR, [0; 150; 187; 34; 54; 197; 180; 135]%Z, []).
Proof.
  exact (proj1 (oaep_apply_format tape_random [] demo_hash [65; 66]%Z [7]%Z [200; 100]%Z
                  (replicate 8 0%Z) (replicate 18 0%Z)
                  demo_hash_wf ltac:(reflexivity) ltac:(vm_compute; lia)
                  ltac:(vm_compute; reflexivity) ltac:(vm_compute; lia))).
Defined.

(** X17: the scratch area and the output block are write-only inputs of
    the OAEP apply path: what they hold before the call has no influence
    on the result.  The blocks have fewer than [2^32] bytes, the range
    in which the [UINT32] counters of the xor loops reach [cbDB]. *)
Theorem oaep_apply_ignores_prior_contents {RndState : Type}
    (rnd : RANDOM_CALLBACK RndState) (s : RndState)
    (h : SYMCRYPT_HASH) (M pbLabel seed : list Z) (cbSeed : nat)
    (buf1 buf2 scr1 scr2 : list Z) :
  hash_wf h ->
  length M + SymCryptHashResultSize h * 2 + 2 <= length buf1 ->
  (Z.of_nat (length buf1) < 2 ^ 32)%Z ->
  cbSeed <= SymCryptHashResultSize h ->
  cbSeed <= length seed ->
  length buf1 = length buf2 ->
  SymCryptHashStateSize h + SymCryptHashResultSize h * 2
  + (length buf1 - (SymCryptHashResultSize h + 1)) * 2 <= length scr1 ->
  SymCryptHashStateSize h + SymCryptHashResultSize h * 2
  + (length buf1 - (SymCryptHashResultSize h + 1)) * 2 <= length scr2 ->
  SymCryptRsaOaepApplyEncryptionPadding rnd s M h pbLabel (Some seed) cbSeed 0%Z buf1 scr1
  = SymCryptRsaOaepApplyEncryptionPadding rnd s M h pbLabel (Some seed) cbSeed 0%Z buf2 scr2.
Proof.
  intros Hwf Hk _ Hc Hs Hb H1 H2.
  rewrite (oaep_apply_supplied_seed rnd s h M pbLabel seed cbSeed buf1 scr1) by done.
  rewrite (oaep_apply_supplied_seed rnd s h M pbLabel seed cbSeed buf2 scr2)
    by (done || rewrite <- Hb; done).
  rewrite Hb. reflexivity.
Qed.

(** X17 with the two-byte demo digest: two scratch areas and two output
    blocks with different prior contents. *)
Lemma oaep_apply_ignores_prior_contents_witness :
  SymCryptRsaOaepApplyEncryptionPadding tape_random [] [65; 66]%Z demo_hash [7]%Z
    (Some [200; 100]%Z) 2 0%Z (replicate 8 0%Z) (replicate 18 0%Z)
  = SymCryptRsaOaepApplyEncryptionPadding tape_random [] [65; 66]%Z demo_hash [7]%Z
      (Some [200; 100]%Z) 2 0%Z (replicate 8 255%Z) (replicate 20 77%Z).
Proof.
  apply (oaep_apply_ignores_prior_contents tape_random [] demo_hash [65; 66]%Z [7]%Z
           [200; 100]%Z 2 (replicate 8 0%Z) (replicate 8 255%Z)
           (replicate 18 0%Z) (replicate 20 77%Z)).
  - apply demo_hash_wf.
  - vm_compute. lia.
  - vm_compute. reflexivity.
  - vm_compute. lia.
  - vm_compute. lia.
  - reflexivity.
  - vm_compute. lia.
  - vm_compute. lia.
Defined.

(** The OAEP remove path on the block that encodes a data block [DB]
    under a seed, in terms of [DB]. *)
Lemma oaep_remove_encoded (h : SYMCRYPT_HASH) (DB seed pbLabel pbScratch : list Z)
    (pbPlaintext : option (list Z)) (pcb0 : Z) :
  hash_wf h ->
  length seed = SymCryptHashResultSize h ->
  SymCryptHashStateSize h + SymCryptHashResultSize h * 3 + length DB * 2
  <= length pbScratch ->
  exists ms mdb,
    length mdb = length DB
    /\ oaep_recovered_DB h ms mdb = DB
    /\ SymCryptRsaOaepRemoveEncryptionPadding (oaep_encode h DB seed) h pbLabel 0%Z
         pbPlaintext pcb0 pbScratch
       = oaep_remove_outcome h pbLabel ms mdb pbScratch pbPlaintext pcb0.
Proof.
  intros Hwf Hls Hscr.
  rewrite oaep_encode_parts by done.
  set (mdb := xor_bytes DB (mgf_mask h seed (length DB))).
  set (ms := xor_bytes seed (mgf_mask h mdb (length seed))).
  assert (Hlmdb : length mdb = length DB) by (subst mdb; len).
  assert (Hlms : length ms = SymCryptHashResultSize h) by (subst ms; len).
  exists ms, mdb. split; [exact Hlmdb | ]. split.
  - subst ms mdb. by apply oaep_recover_encode.
  - apply oaep_remove_general; [done | done | lia].
Qed.

(** X18: a block of [k < 2^32] bytes (the range in which the [UINT32]
    counters of the loops over the data block reach [cbDB]) encoded
    under one label is refused under a label with another hash: the
    OAEP remove path returns
    [SYMCRYPT_INVALID_ARGUMENT] and touches neither the plaintext buffer
    nor the length cell. *)
Theorem oaep_remove_wrong_label
    (h : SYMCRYPT_HASH) (M pbLabel pbLabel' seed : list Z) (k : nat)
    (pbPlaintext : option (list Z)) (pcb0 : Z) (pbScratch : list Z) :
  hash_wf h ->
  length seed = SymCryptHashResultSize h ->
  length M + SymCryptHashResultSize h * 2 + 2 <= k ->
  (Z.of_nat k < 2 ^ 32)%Z ->
  SymCryptHashStateSize h + SymCryptHashResultSize h * 3
  + (k - (SymCryptHashResultSize h + 1)) * 2 <= length pbScratch ->
  hashFn h pbLabel' <> hashFn h pbLabel ->
  SymCryptRsaOaepRemoveEncryptionPadding (oaep_encode h (oaep_DB h pbLabel M k) seed)
    h pbLabel' 0%Z pbPlaintext pcb0 pbScratch
  = (SYMCRYPT_INVALID_ARGUMENT, pbPlaintext, pcb0).
Proof.
  intros Hwf Hls Hk _ Hscr Hne.
  pose proof (length_oaep_DB h pbLabel M k Hwf Hk) as HlDB.
  destruct (oaep_remove_encoded h (oaep_DB h pbLabel M k) seed pbLabel' pbScratch
              pbPlaintext pcb0 Hwf Hls ltac:(lia)) as (ms & mdb & Hlm & Hrec & ->).
  unfold oaep_remove_outcome. rewrite Hrec.
  rewrite bool_decide_eq_false_2; [reflexivity | ].
  unfold oaep_DB. rewrite <- !app_assoc.
  rewrite take_app_length' by (rewrite length_hashFn; done).
  congruence.
Qed.

(** X18 with the two-byte demo digest: a block encoded under the label
    [07], removed under the label [08]. *)
Lemma oaep_remove_wrong_label_witness :
  SymCryptRsaOaepRemoveEncryptionPadding [0; 150; 187; 34; 54; 197; 180; 135]%Z
    demo_hash [8]%Z 0%Z None 5%Z (replicate 20 0%Z)
  = (SYMCRYPT_INVALID_ARGUMENT, None, 5%Z).
Proof.
  exact (oaep_remove_wrong_label demo_hash [65; 66]%Z [7]%Z [8]%Z [200; 100]%Z 8 None 5%Z
           (replicate 20 0%Z) demo_hash_wf ltac:(reflexivity) ltac:(vm_compute; lia)
           ltac:(vm_compute; reflexivity) ltac:(vm_compute; lia)
           ltac:(vm_compute; discriminate)).
Defined.

Lemma ps_parse_zeros_bad (n : nat) (b : Z) (rest : list Z) :
  b <> 0%Z -> b <> 1%Z -> ps_parse (replicate n 0%Z ++ [b] ++ rest) = None.
Proof.
  intros H0 H1. induction n as [|n IH]; cbn [replicate app ps_parse].
  - destruct (Z.eqb_spec b 1); [done | ]. destruct (Z.eqb_spec b 0); [done | ]. reflexivity.
  - cbn [Z.eqb negb]. cbn [app] in IH. rewrite IH. reflexivity.
Qed.

(** X19: in a block of fewer than [2^32] bytes (the range in which the
    [UINT32] counters of the loops over the data block reach [cbDB]), a
    data block in which the first byte after the label hash that is not
    zero is not 0x01 either is refused: the OAEP remove path
    returns [SYMCRYPT_INVALID_ARGUMENT] and touches neither the plaintext
    buffer nor the length cell. *)
Theorem oaep_remove_bad_padding_byte
    (h : SYMCRYPT_HASH) (pbLabel seed rest : list Z) (n : nat) (b : Z)
    (pbPlaintext : option (list Z)) (pcb0 : Z) (pbScratch : list Z) :
  hash_wf h ->
  length seed = SymCryptHashResultSize h ->
  b <> 0%Z -> b <> 1%Z ->
  (Z.of_nat (length (oaep_encode h (hashFn h pbLabel ++ replicate n 0%Z ++ [b] ++ rest)
                       seed)) < 2 ^ 32)%Z ->
  SymCryptHashStateSize h + SymCryptHashResultSize h * 3
  + (SymCryptHashResultSize h + n + 1 + length rest) * 2 <= length pbScratch ->
  SymCryptRsaOaepRemoveEncryptionPadding
    (oaep_encode h (hashFn h pbLabel ++ replicate n 0%Z ++ [b] ++ rest) seed)
    h pbLabel 0%Z pbPlaintext pcb0 pbScratch
  = (SYMCRYPT_INVALID_ARGUMENT, pbPlaintext, pcb0).
Proof.
  intros Hwf Hls Hb0 Hb1 _ Hscr.
  set (DB := hashFn h pbLabel ++ replicate n 0%Z ++ [b] ++ rest).
  assert (HlDB : length DB = SymCryptHashResultSize h + n + 1 + length rest)
    by (subst DB; len).
  destruct (oaep_remove_encoded h DB seed pbLabel pbScratch
              pbPlaintext pcb0 Hwf Hls ltac:(lia)) as (ms & mdb & Hlm & Hrec & ->).
  unfold oaep_remove_outcome. rewrite Hrec.
  assert (Hlab : take (SymCryptHashResultSize h) (DB ++ hashFn h pbLabel) = hashFn h pbLabel).
  { subst DB. rewrite <- !app_assoc. apply take_app_length'. by rewrite length_hashFn. }
  rewrite Hlab. rewrite bool_decide_eq_true_2 by reflexivity.
  assert (Hps : ps_parse (drop (SymCryptHashResultSize h) DB) = None).
  { subst DB. rewrite drop_app_length' by (by rewrite length_hashFn).
    by apply ps_parse_zeros_bad. }
  rewrite Hps. reflexivity.
Qed.

(** X19 with the two-byte demo digest: the data block
    [lHash || 00 || 02 || 41 42]. *)
Lemma oaep_remove_bad_padding_byte_witness :
  SymCryptRsaOaepRemoveEncryptionPadding
    (oaep_encode demo_hash (hashFn demo_hash [7]%Z ++ replicate 1 0%Z ++ [2%Z] ++ [65; 66]%Z)
       [200; 100]%Z)
    demo_hash [7]%Z 0%Z None 5%Z (replicate 22 0%Z)
  = (SYMCRYPT_INVALID_ARGUMENT, None, 5%Z).
Proof.
  exact (oaep_remove_bad_padding_byte demo_hash [7]%Z [200; 100]%Z [65; 66]%Z 1 2%Z None 5%Z
           (replicate 22 0%Z) demo_hash_wf ltac:(reflexivity) ltac:(discriminate)
           ltac:(discriminate) ltac:(vm_compute; reflexivity) ltac:(vm_compute; lia)).
Defined.

(** X20: on a well-formed block and an output buffer shorter than the
    message, the OAEP remove path returns [SYMCRYPT_BUFFER_TOO_SMALL],
    reports the length of the message and leaves the buffer as it was. *)
Theorem oaep_remove_buffer_too_small
    (h : SYMCRYPT_HASH) (M pbLabel seed out : list Z) (k : nat)
    (pcb0 : Z) (pbScratch : list Z) :
  hash_wf h ->
  length seed = SymCryptHashResultSize h ->
  length M + SymCryptHashResultSize h * 2 + 2 <= k ->
  (Z.of_nat k < 2 ^ 32)%Z ->
  SymCryptHashStateSize h + SymCryptHashResultSize h * 3
  + (k - (SymCryptHashResultSize h + 1)) * 2 <= length pbScratch ->
  length out < length M ->
  SymCryptRsaOaepRemoveEncryptionPadding (oaep_encode h (oaep_DB h pbLabel M k) seed)
    h pbLabel 0%Z (Some out) pcb0 pbScratch
  = (SYMCRYPT_BUFFER_TOO_SMALL, Some out, Z.of_nat (length M)).
Proof.
  intros Hwf Hls Hk H32 Hscr Hout.
  pose proof (length_oaep_DB h pbLabel M k Hwf Hk) as HlDB.
  destruct (oaep_remove_encoded h (oaep_DB h pbLabel M k) seed pbLabel pbScratch
              (Some out) pcb0 Hwf Hls ltac:(lia)) as (ms & mdb & Hlm & Hrec & ->).
  unfold oaep_remove_outcome. rewrite Hrec.
  set (hl := SymCryptHashResultSize h) in *.
  set (cbPS := k - (length M + hl * 2 + 2)).
  assert (Hlab : take hl (oaep_DB h pbLabel M k ++ hashFn h pbLabel) = hashFn h pbLabel).
  { unfold oaep_DB. rewrite <- !app_assoc. apply take_app_length'. by rewrite length_hashFn. }
  rewrite Hlab. rewrite bool_decide_eq_true_2 by reflexivity.
  assert (Hps : ps_parse (drop hl (oaep_DB h pbLabel M k)) = Some (cbPS + 1)).
  { unfold oaep_DB. rewrite drop_app_length' by (by rewrite length_hashFn).
    fold hl. fold cbPS. apply ps_parse_zeros_one. }
  rewrite Hps. cbv zeta.
  assert (Hpcb : SIZE_T_sub (Z.of_nat (length mdb)) (Z.of_nat (hl + (cbPS + 1)))
                 = Z.of_nat (length M)).
  { unfold SIZE_T_sub, SIZE_T_wrap. rewrite Z.mod_small; subst cbPS; lia. }
  rewrite Hpcb.
  destruct (Z.ltb_spec (Z.of_nat (length out)) (Z.of_nat (length M))) as [_|?]; [ | lia].
  reflexivity.
Qed.

(** X20 with the two-byte demo digest: a two-byte message and a one-byte
    buffer. *)
Lemma oaep_remove_buffer_too_small_witness :
  SymCryptRsaOaepRemoveEncryptionPadding [0; 150; 187; 34; 54; 197; 180; 135]%Z
    demo_hash [7]%Z 0%Z (Some [9]%Z) 5%Z (replicate 20 0%Z)
  = (SYMCRYPT_BUFFER_TOO_SMALL, Some [9]%Z, 2%Z).
Proof.
  exact (oaep_remove_buffer_too_small demo_hash [65; 66]%Z [7]%Z [200; 100]%Z [9]%Z 8 5%Z
           (replicate 20 0%Z) demo_hash_wf ltac:(reflexivity) ltac:(vm_compute; lia)
           ltac:(vm_compute; reflexivity) ltac:(vm_compute; lia) ltac:(vm_compute; lia)).
Defined.

Lemma ps_parse_le (l : list Z) : forall c, ps_parse l = Some c -> c <= length l.
Proof.
  induction l as [|b l IH]; intros c; cbn [ps_parse length].
  - intros [= <-]. lia.
  - destruct (b =? 1)%Z; [intros [= <-]; lia | ].
    destruct (negb (b =? 0)%Z); [discriminate | ].
    destruct (ps_parse l) as [c'|]; [ | discriminate].
    cbn [option_map]. intros [= <-]. specialize (IH c' eq_refl). lia.
Qed.

(** X21: the scratch area is pure workspace of the OAEP remove path: on a
    block of at least [2 hLen + 1] bytes the error code, the plaintext
    and the reported length do not depend on what the scratch area held
    before the call. *)
Theorem oaep_remove_ignores_scratch
    (h : SYMCRYPT_HASH) (pbOAEPFormat pbLabel : list Z)
    (pbPlaintext : option (list Z)) (pcb0 : Z) (scr1 scr2 : list Z) :
  hash_wf h ->
  SymCryptHashResultSize h * 2 + 1 <= length pbOAEPFormat ->
  (Z.of_nat (length pbOAEPFormat) < 2 ^ 32)%Z ->
  SymCryptHashStateSize h + SymCryptHashResultSize h * 3
  + (length pbOAEPFormat - (SymCryptHashResultSize h + 1)) * 2 <= length scr1 ->
  SymCryptHashStateSize h + SymCryptHashResultSize h * 3
  + (length pbOAEPFormat - (SymCryptHashResultSize h + 1)) * 2 <= length scr2 ->
  SymCryptRsaOaepRemoveEncryptionPadding pbOAEPFormat h pbLabel 0%Z pbPlaintext pcb0 scr1
  = SymCryptRsaOaepRemoveEncryptionPadding pbOAEPFormat h pbLabel 0%Z pbPlaintext pcb0 scr2.
Proof.
  intros Hwf Hk H32 H1 H2.
  set (hl := SymCryptHashResultSize h) in *.
  destruct (Z.eqb_spec (load pbOAEPFormat 0) 0) as [H0|Hn0].
  - set (ms := take hl (drop 1 pbOAEPFormat)).
    set (mdb := drop (hl + 1) pbOAEPFormat).
    assert (Hblk : pbOAEPFormat = [0%Z] ++ ms ++ mdb).
    { subst ms mdb. rewrite <- (take_drop 1 pbOAEPFormat) at 1. f_equal.
      - change (take 1 pbOAEPFormat) with (bytes_at pbOAEPFormat 0 1).
        rewrite (bytes_at_1 pbOAEPFormat 0 (load pbOAEPFormat 0)).
        + by rewrite H0.
        + unfold load. destruct (lookup_lt_is_Some_2 pbOAEPFormat 0 ltac:(lia)) as [x ->].
          reflexivity.
      - rewrite <- (take_drop hl (drop 1 pbOAEPFormat)) at 1. f_equal.
        rewrite drop_drop. f_equal. lia. }
    assert (Hlms : length ms = hl) by (subst ms; len).
    assert (Hlmdb : length mdb = length pbOAEPFormat - (hl + 1)) by (subst mdb; len).
    rewrite Hblk.
    rewrite !oaep_remove_general by (done || fold hl; lia).
    unfold oaep_remove_outcome. fold hl.
    pose proof (length_recovered_DB h ms mdb Hwf) as HlDB.
    set (DB := oaep_recovered_DB h ms mdb) in *.
    destruct (bool_decide _); [ | reflexivity].
    destruct (ps_parse (drop hl DB)) as [c|] eqn:Hps; [ | reflexivity].
    apply ps_parse_le in Hps. rewrite length_drop in Hps.
    assert (Hpcb : SIZE_T_sub (Z.of_nat (length mdb)) (Z.of_nat (hl + c))
                   = Z.of_nat (length mdb - (hl + c))).
    { unfold SIZE_T_sub, SIZE_T_wrap. rewrite Z.mod_small; lia. }
    rewrite Hpcb. destruct pbPlaintext as [out|]; [ | reflexivity].
    destruct (Z.of_nat (length out) <? _)%Z; [reflexivity | ].
    rewrite Nat2Z.id. unfold memcpy.
    assert (Hsrc : forall X : list Z,
              take (length mdb - (hl + c)) (drop (hl + c) (DB ++ X)) = drop (hl + c) DB).
    { intros X. rewrite drop_app_le by lia. apply take_app_length'. len. }
    rewrite !Hsrc. reflexivity.
  - unfold SymCryptRsaOaepRemoveEncryptionPadding. cbn [Z.eqb negb].
    destruct (Z.eqb_spec (load pbOAEPFormat 0) 0) as [?|_]; [done | ].
    cbn [negb]. rewrite !orb_true_r. reflexivity.
Qed.

(** X21 with the two-byte demo digest: the same block removed over two
    scratch areas with different prior contents. *)
Lemma oaep_remove_ignores_scratch_witness :
  SymCryptRsaOaepRemoveEncryptionPadding [0; 150; 187; 34; 54; 197; 180; 135]%Z
    demo_hash [7]%Z 0%Z (Some [9; 9; 9]%Z) 5%Z (replicate 20 0%Z)
  = SymCryptRsaOaepRemoveEncryptionPadding [0; 150; 187; 34; 54; 197; 180; 135]%Z
      demo_hash [7]%Z 0%Z (Some [9; 9; 9]%Z) 5%Z (replicate 24 201%Z).
Proof.
  exact (oaep_remove_ignores_scratch demo_hash [0; 150; 187; 34; 54; 197; 180; 135]%Z [7]%Z
           (Some [9; 9; 9]%Z) 5%Z (replicate 20 0%Z) (replicate 24 201%Z)
           demo_hash_wf ltac:(vm_compute; lia) ltac:(vm_compute; reflexivity)
           ltac:(vm_compute; lia) ltac:(vm_compute; lia)).
Defined.

(** X22: with a supplied seed the OAEP apply path fails exactly when a
    flag is set, the message is longer than [k - 2 hLen - 2] bytes or the
    seed is longer than the hash result; it then returns
    [SYMCRYPT_INVALID_ARGUMENT] and leaves the block and the random source
    as they were.  Otherwise, on a block of fewer than [2^32] bytes (the
    range in which the [UINT32] counters of the xor loops reach [cbDB]),
    it returns [SYMCRYPT_NO_ERROR] and does not consult the random
    source. *)
Theorem oaep_apply_argument_check {RndState : Type}
    (rnd : RANDOM_CALLBACK RndState) (s : RndState)
    (h : SYMCRYPT_HASH) (M pbLabel seed : list Z) (cbSeed : nat) (flags : Z)
    (buf pbScratch : list Z) :
  hash_wf h ->
  cbSeed <= length seed ->
  SymCryptHashStateSize h + SymCryptHashResultSize h * 2
  + (length buf - (SymCryptHashResultSize h + 1)) * 2 <= length pbScratch ->
  (flags <> 0%Z
   \/ length buf < length M + SymCryptHashResultSize h * 2 + 2
   \/ SymCryptHashResultSize h < cbSeed ->
   SymCryptRsaOaepApplyEncryptionPadding rnd s M h pbLabel (Some seed) cbSeed flags
     buf pbScratch
   = (SYMCRYPT_INVALID_ARGUMENT, buf, s))
  /\
  (flags = 0%Z ->
   length M + SymCryptHashResultSize h * 2 + 2 <= length buf ->
   (Z.of_nat (length buf) < 2 ^ 32)%Z ->
   cbSeed <= SymCryptHashResultSize h ->
   exists EM,
     SymCryptRsaOaepApplyEncryptionPadding rnd s M h pbLabel (Some seed) cbSeed flags
       buf pbScratch
     = (SYMCRYPT_NO_ERROR, EM, s)
     /\ length EM = length buf /\ load EM 0 = 0%Z).
Proof.
  intros Hwf Hs Hscr. split.
  - intros Hbad. unfold SymCryptRsaOaepApplyEncryptionPadding.
    destruct (Z.eqb_spec flags 0) as [Hf|Hf]; cbn [negb orb]; [ | reflexivity].
    destruct (Nat.ltb_spec (length buf) (length M + SymCryptHashResultSize h * 2 + 2))
      as [Hk|Hk]; cbn [orb]; [reflexivity | ].
    destruct (Nat.ltb_spec (SymCryptHashResultSize h) cbSeed) as [Hc|Hc]; cbn [orb];
      [reflexivity | ].
    exfalso. destruct Hbad as [?|[?|?]]; [done | lia | lia].
  - intros -> Hk _ Hc.
    rewrite (oaep_apply_supplied_seed rnd s h M pbLabel seed cbSeed buf pbScratch) by done.
    eexists. split; [reflexivity | ]. split; [ | reflexivity].
    pose proof (length_oaep_DB h pbLabel M (length buf) Hwf Hk) as HlDB.
    rewrite oaep_encode_parts by done. autorewrite with len. cbn [length].
    rewrite HlDB. lia.
Qed.

(** X22 with the two-byte demo digest: a three-byte message does not fit
    an eight-byte block ([8 < 3 + 2 * 2 + 2]). *)
Lemma oaep_apply_argument_check_witness :
  SymCryptRsaOaepApplyEncryptionPadding tape_random [] [65; 66; 67]%Z demo_hash [7]%Z
    (Some [200; 100]%Z) 2 0%Z (replicate 8 3%Z) (replicate 18 0%Z)
  = (SYMCRYPT_INVALID_ARGUMENT, replicate 8 3%Z, []).
Proof.
  apply (proj1 (oaep_apply_argument_check tape_random [] demo_hash [65; 66; 67]%Z [7]%Z
                  [200; 100]%Z 2 0%Z (replicate 8 3%Z) (replicate 18 0%Z)
                  demo_hash_wf ltac:(vm_compute; lia) ltac:(vm_compute; lia))).
  right. left. vm_compute. lia.
Defined.

(** X2 with the two-byte demo digest and the seed [200 100] on the
    tape. *)
Lemma oaep_random_seed_roundtrip_witness :
  exists EM,
    SymCryptRsaOaepApplyEncryptionPadding tape_random [200; 100]%Z [65; 66]%Z demo_hash [7]%Z
      None 0 0%Z (replicate 8 0%Z) (replicate 18 0%Z)
    = (SYMCRYPT_NO_ERROR, EM, [])
    /\ SymCryptRsaOaepRemoveEncryptionPadding EM demo_hash [7]%Z 0%Z (Some [9; 9; 9]%Z) 5%Z
         (replicate 20 0%Z)
       = (SYMCRYPT_NO_ERROR, Some ([65; 66]%Z ++ drop (length [65; 66]%Z) [9; 9; 9]%Z),
          Z.of_nat (length [65; 66]%Z)).
Proof.
  apply (oaep_random_seed_roundtrip tape_random [200; 100]%Z [] demo_hash [65; 66]%Z [7]%Z
           [200; 100]%Z (replicate 8 0%Z) (replicate 18 0%Z) (replicate 20 0%Z)
           [9; 9; 9]%Z 5%Z).
  - apply demo_hash_wf.
  - vm_compute. reflexivity.
  - reflexivity.
  - vm_compute. lia.
  - vm_compute. reflexivity.
  - vm_compute. lia.
  - vm_compute. lia.
  - vm_compute. lia.
Defined.

(** * Further properties of the PSS padding *)

(** The verify path from the computation of [dwZeroBits] on, on the
    encoded message of the hash value [pbHash] and [salt], when it is
    called for a hash value [vHash] and a salt length [vSalt] of the
    verifier's own. *)
Lemma pss_verify_tail_general (h : SYMCRYPT_HASH) (pbHash salt pre pbScratch : list Z)
    (vHash : list Z) (vSalt : nat) (off cbPSSFormat : nat) (nBitsOfModulus : Z) :
  hash_wf h ->
  length pre = off ->
  SymCryptHashResultSize h + length salt + 2 <= cbPSSFormat ->
  (0 <= pss_zero_bits cbPSSFormat nBitsOfModulus <= 7)%Z ->
  SymCryptHashStateSize h + (cbPSSFormat - (SymCryptHashResultSize h + 1))
  + (8 + length vHash + vSalt) + SymCryptHashResultSize h <= length pbScratch ->
  let em := pre ++ pss_encode h pbHash salt cbPSSFormat nBitsOfModulus in
  let cbHash := length vHash in
  let cbSalt := vSalt in
  let cbHashAlg := SymCryptHashResultSize h in
  let cbHashState := SymCryptHashStateSize h in
  let dwZeroBits := SIZE_T_sub (8 * Z.of_nat cbPSSFormat + 1) nBitsOfModulus in
  (if negb (Z.land (load em off)
              (to_BYTE (Z.shiftl 255 (SIZE_T_sub 8 dwZeroBits))) =? 0)%Z
      || negb (load em (off + cbPSSFormat - 1) =? 188)%Z
      || (cbPSSFormat <? cbHashAlg + cbSalt + 2)
   then SYMCRYPT_INVALID_ARGUMENT
   else
     let cbDB := cbPSSFormat - (cbHashAlg + 1) in
     let cbMPrime := 8 + cbHash + cbSalt in
     let pbDBMask := cbHashState in
     let pbMPrime := pbDBMask + cbDB in
     let pbMPrimeHash := pbMPrime + cbMPrime in
     let pbHashOfMPrimeIndex := off + (cbPSSFormat - (cbHashAlg + 1)) in
     let scr :=
       call_mgf h em pbHashOfMPrimeIndex cbHashAlg pbScratch pbDBMask cbDB in
     let scr :=
       fold_left
         (fun scr i =>
            store scr (pbDBMask + i)
              (Z.lxor (load em (off + i)) (load scr (pbDBMask + i))))
         (seq 0 cbDB) scr in
     let scr :=
       store scr pbDBMask
         (Z.land (load scr pbDBMask) (to_BYTE (Z.shiftr 255 dwZeroBits))) in
     if existsb (fun i => negb (load scr (pbDBMask + i) =? 0)%Z)
          (seq 0 (cbDB - cbSalt - 1))
     then SYMCRYPT_INVALID_ARGUMENT
     else if negb (load scr (pbDBMask + (cbDB - cbSalt - 1)) =? 1)%Z then
       SYMCRYPT_INVALID_ARGUMENT
     else
       let scr := SymCryptWipe scr pbMPrime 8 in
       let scr := memcpy scr (pbMPrime + 8) vHash cbHash in
       let scr :=
         memcpy scr (pbMPrime + 8 + cbHash)
           (drop (pbDBMask + (cbDB - cbSalt)) scr) cbSalt in
       let scr :=
         SymCryptHash h (bytes_at scr pbMPrime cbMPrime)
           scr pbMPrimeHash cbHashAlg in
       if negb (SymCryptEqual (drop (off + cbDB) em) (drop pbMPrimeHash scr) cbHashAlg)
       then SYMCRYPT_INVALID_ARGUMENT
       else SYMCRYPT_NO_ERROR)
  = pss_verify_outcome h vHash vSalt (pss_DB h salt cbPSSFormat)
      (hashFn h (replicate 8 0%Z ++ pbHash ++ salt)) cbPSSFormat.
Proof.
  intros Hwf Hpre Hcb Hz Hscr. cbv zeta.
  unfold pss_verify_outcome, pss_DB.
  fold (pss_zero_bits cbPSSFormat nBitsOfModulus).
  set (z := pss_zero_bits cbPSSFormat nBitsOfModulus) in *.
  set (hl := SymCryptHashResultSize h) in *.
  set (st := SymCryptHashStateSize h) in *.
  unfold pss_encode. fold hl. fold z.
  set (cbDB := cbPSSFormat - (hl + 1)) in *.
  assert (HcbDB : cbPSSFormat = cbDB + hl + 1) by (subst cbDB; lia).
  set (pad2 := cbDB - length salt - 1).
  assert (Hpad2 : cbDB = pad2 + 1 + length salt) by (subst pad2; lia).
  clearbody pad2 cbDB.
  set (M' := replicate 8 0%Z ++ pbHash ++ salt).
  set (H' := hashFn h M').
  assert (HlH : length H' = hl) by (subst H' hl; len).
  set (mask := mgf_mask h H' cbDB).
  assert (Hlmask : length mask = cbDB) by (subst mask; len).
  set (DB := replicate pad2 0%Z ++ [1%Z] ++ salt).
  assert (HlDB : length DB = cbDB) by (subst DB; len).
  set (mk := to_BYTE (Z.shiftr 255 z)).
  set (mDB := mask_first mk (xor_bytes DB mask)).
  assert (HlmDB : length mDB = cbDB) by (subst mDB; len).
  set (em := pre ++ mDB ++ H' ++ [188%Z]).
  assert (Hlem : length em = off + cbPSSFormat) by (subst em; len).
  (* the checks on the first and the last byte of the block *)
  assert (Hb0 : Z.land (load em off) (to_BYTE (Z.shiftl 255 (SIZE_T_sub 8 z))) = 0%Z).
  { subst em. rewrite load_app_r by lia. rewrite Hpre, Nat.sub_diag.
    rewrite load_app_l by lia.
    subst mDB. destruct (xor_bytes DB mask) as [|b l] eqn:Hx.
    - apply (f_equal length) in Hx. rewrite length_xor_bytes in Hx. simpl in Hx. lia.
    - cbn [mask_first load lookup list_lookup default from_option id].
      apply pss_masks_disjoint. done. }
  rewrite Hb0.
  assert (Hbc : load em (off + cbPSSFormat - 1) = 188%Z).
  { subst em. rewrite load_app_r by lia. rewrite load_app_r by lia.
    rewrite load_app_r by lia.
    replace (off + cbPSSFormat - 1 - length pre - length mDB - length H') with 0 by lia.
    reflexivity. }
  rewrite Hbc. cbn [Z.eqb negb orb].
  destruct (Nat.ltb_spec cbPSSFormat (hl + vSalt + 2)) as [?|HvS]; [reflexivity | ].
  (* the mask and the data block *)
  rewrite call_mgf_eq by (done || lia).
  assert (HH : bytes_at em (off + cbDB) hl = H').
  { subst em. rewrite app_assoc. apply bytes_at_app_mid; [len | lia]. }
  rewrite HH. fold mask.
  set (scr1 := list_inserts st mask pbScratch).
  assert (Hl1 : length scr1 = length pbScratch) by (subst scr1; len).
  rewrite (xor_loop_scratch scr1 em) by (len || lia).
  assert (HmDB : bytes_at em off cbDB = mDB).
  { subst em. apply bytes_at_app_mid; [lia | lia]. }
  rewrite HmDB.
  replace (bytes_at scr1 st cbDB) with mask by (subst scr1; rd; reflexivity).
  rewrite store_head_inserts by len.
  assert (Hrec : mask_first mk (xor_bytes mDB mask) = DB).
  { subst mDB. destruct pad2 as [|pad2].
    - apply (pss_db_recover mk DB mask 1%Z salt); [reflexivity | | lia].
      apply pss_mask_keeps_bit; [done | right; reflexivity].
    - apply (pss_db_recover mk DB mask 0%Z (replicate pad2 0%Z ++ [1%Z] ++ salt));
        [reflexivity | | lia].
      apply pss_mask_keeps_bit; [done | left; reflexivity]. }
  rewrite Hrec.
  set (scr3 := list_inserts st DB scr1).
  assert (Hl3 : length scr3 = length pbScratch) by (subst scr3; len).
  assert (HDB3 : bytes_at scr3 st cbDB = DB) by (subst scr3; rd; reflexivity).
  (* padding 2 and the 0x01 byte, as the verifier's salt length places them *)
  set (vpad := cbDB - vSalt - 1).
  assert (Hvpad : cbDB = vpad + 1 + vSalt) by (subst vpad; lia).
  rewrite existsb_nonzero_loads by lia.
  assert (Hz0 : bytes_at scr3 st vpad = take vpad DB).
  { rewrite (bytes_at_take scr3 st vpad (1 + vSalt)).
    replace (vpad + (1 + vSalt)) with cbDB by lia. rewrite HDB3. reflexivity. }
  rewrite Hz0.
  destruct (bool_decide (take vpad DB = replicate vpad 0%Z)); cbn [negb]; [ | reflexivity].
  assert (H01 : load scr3 (st + vpad) = load DB vpad).
  { rewrite <- (load_bytes_at scr3 st cbDB vpad) by lia. rewrite HDB3. reflexivity. }
  rewrite H01.
  destruct (load DB vpad =? 1)%Z; cbn [negb]; [ | reflexivity].
  (* M' and its hash *)
  unfold SymCryptWipe, memset, memcpy. rewrite (take_ge vHash) by lia.
  replace (cbDB - vSalt) with (vpad + 1) by lia.
  assert (Hsalt : take vSalt
                    (drop (st + (vpad + 1))
                       (list_inserts (st + cbDB + 8) vHash
                          (list_inserts (st + cbDB) (replicate 8 0%Z) scr3)))
                  = drop (vpad + 1) DB).
  { fold (bytes_at (list_inserts (st + cbDB + 8) vHash
                      (list_inserts (st + cbDB) (replicate 8 0%Z) scr3))
            (st + (vpad + 1)) vSalt).
    rd.
    replace vSalt with (cbDB - (vpad + 1)) at 1 by lia.
    rewrite bytes_at_drop, HDB3. reflexivity. }
  rewrite Hsalt.
  assert (Hlvs : length (drop (vpad + 1) DB) = vSalt) by len.
  set (vs := drop (vpad + 1) DB) in *.
  set (cbM := 8 + length vHash + vSalt).
  set (scr6 := list_inserts (st + cbDB + 8 + length vHash) vs
                 (list_inserts (st + cbDB + 8) vHash
                    (list_inserts (st + cbDB) (replicate 8 0%Z) scr3))).
  assert (Hl6 : length scr6 = length pbScratch) by (subst scr6; len).
  assert (HM : bytes_at scr6 (st + cbDB) cbM = replicate 8 0%Z ++ vHash ++ vs).
  { subst scr6 cbM. rewrite !bytes_at_split. rd. reflexivity. }
  rewrite HM. rewrite hash_to_eq by done.
  unfold SymCryptEqual.
  fold (bytes_at em (off + cbDB) hl).
  fold (bytes_at (list_inserts (st + cbDB + cbM)
                    (hashFn h (replicate 8 0%Z ++ vHash ++ vs)) scr6)
          (st + cbDB + cbM) hl).
  rewrite HH. rewrite bytes_at_inserts_eq by len.
  destruct (bool_decide (H' = hashFn h (replicate 8 0%Z ++ vHash ++ vs))); reflexivity.
Qed.

(** The verify path on the block of the hash value [pbHash] and [salt],
    called for a hash value and a salt length of the verifier's own. *)
Lemma pss_verify_block_general (h : SYMCRYPT_HASH) (pbHash salt vHash : list Z) (vSalt : nat)
    (nBits : Z) (pbScratch : list Z) :
  hash_wf h ->
  (0 <= nBits < 2 ^ 32)%Z ->
  SymCryptHashResultSize h + length salt + 2 <= pss_emLen nBits ->
  SymCryptHashStateSize h + (pss_emLen nBits - (SymCryptHashResultSize h + 1))
  + (8 + length vHash + vSalt) + SymCryptHashResultSize h <= length pbScratch ->
  SymCryptRsaPssVerifySignaturePadding vHash h vSalt
    (Some (pss_block h pbHash salt nBits)) nBits 0%Z pbScratch
  = pss_verify_outcome h vHash vSalt (pss_DB h salt (pss_emLen nBits))
      (hashFn h (replicate 8 0%Z ++ pbHash ++ salt)) (pss_emLen nBits).
Proof.
  intros Hwf Hn Hem Hscr.
  destruct (pss_lengths nBits Hn) as (Hk & Hz & _).
  pose proof (length_pss_encode h pbHash salt (pss_emLen nBits) nBits Hwf Hem) as Hlen.
  unfold SymCryptRsaPssVerifySignaturePadding, pss_block.
  cbn [Z.eqb negb orb].
  destruct (Z.eqb_spec (nBits mod 8) 1) as [Hr|Hr].
  - assert (Hl : length ([0%Z] ++ pss_encode h pbHash salt (pss_emLen nBits) nBits)
                 = 1 + pss_emLen nBits) by len.
    rewrite Hl. cbn [Nat.eqb plus andb].
    change (load ([0%Z] ++ pss_encode h pbHash salt (pss_emLen nBits) nBits) 0) with 0%Z.
    cbn [Z.eqb negb]. cbv beta iota zeta.
    replace (S (pss_emLen nBits) - 1) with (pss_emLen nBits) by lia.
    apply (pss_verify_tail_general h pbHash salt [0%Z] pbScratch vHash vSalt 1
             (pss_emLen nBits) nBits);
      [done | reflexivity | done | apply Hz; lia | done].
  - cbn [app andb]. rewrite Hlen.
    destruct (Nat.eqb_spec (pss_emLen nBits) 0) as [?|_]; [lia | ].
    cbv beta iota zeta.
    apply (pss_verify_tail_general h pbHash salt [] pbScratch vHash vSalt 0
             (pss_emLen nBits) nBits);
      [done | reflexivity | done | apply Hz; lia | done].
Qed.

(** X23: on the block built for a hash value and a salt, PSS verify
    called with the salt length of that salt and a hash value of the
    verifier's own returns [SYMCRYPT_NO_ERROR] when the digests of
    [00 x 8 || hash || salt] agree for the two hash values, and
    [SYMCRYPT_INVALID_ARGUMENT] (not
    [SYMCRYPT_SIGNATURE_VERIFICATION_FAILURE]) when they differ. *)
Theorem pss_verify_digest_decides (h : SYMCRYPT_HASH) (pbHash salt vHash : list Z)
    (nBits : Z) (pbScratch : list Z) :
  hash_wf h ->
  (0 <= nBits < 2 ^ 32)%Z ->
  SymCryptHashResultSize h + length salt + 2 <= pss_emLen nBits ->
  SymCryptHashStateSize h + (pss_emLen nBits - (SymCryptHashResultSize h + 1))
  + (8 + length vHash + length salt) + SymCryptHashResultSize h <= length pbScratch ->
  SymCryptRsaPssVerifySignaturePadding vHash h (length salt)
    (Some (pss_block h pbHash salt nBits)) nBits 0%Z pbScratch
  = if bool_decide (hashFn h (replicate 8 0%Z ++ pbHash ++ salt)
                    = hashFn h (replicate 8 0%Z ++ vHash ++ salt))
    then SYMCRYPT_NO_ERROR
    else SYMCRYPT_INVALID_ARGUMENT.
Proof.
  intros Hwf Hn Hem Hscr.
  rewrite (pss_verify_block_general h pbHash salt vHash (length salt)) by done.
  unfold pss_verify_outcome, pss_DB.
  set (hl := SymCryptHashResultSize h) in *.
  set (cbDB := pss_emLen nBits - (hl + 1)).
  set (pad2 := cbDB - length salt - 1).
  assert (Hpad2 : cbDB = pad2 + 1 + length salt) by (subst pad2 cbDB; lia).
  destruct (Nat.ltb_spec (pss_emLen nBits) (hl + length salt + 2)) as [?|_]; [lia | ].
  rewrite take_app_length' by len.
  rewrite bool_decide_eq_true_2 by reflexivity. cbn [negb].
  rewrite load_app_r by len. rewrite length_replicate, Nat.sub_diag.
  change (load ([1%Z] ++ salt) 0) with 1%Z. cbn [Z.eqb negb].
  replace (cbDB - length salt) with (pad2 + 1) by lia.
  rewrite (app_assoc (replicate pad2 0%Z) [1%Z] salt).
  rewrite drop_app_length' by len. reflexivity.
Qed.

(** X23 with the two-byte demo digest and a 65-bit modulus: the block of
    the hash value [11 22], verified for the hash value [11 23]. *)
Lemma pss_verify_digest_decides_witness :
  SymCryptRsaPssVerifySignaturePadding [11; 23]%Z demo_hash 2
    (Some (pss_block demo_hash [11; 22]%Z [5; 6]%Z 65)) 65 0%Z (replicate 40 0%Z)
  = SYMCRYPT_INVALID_ARGUMENT.
Proof.
  exact (pss_verify_digest_decides demo_hash [11; 22]%Z [5; 6]%Z [11; 23]%Z 65
           (replicate 40 0%Z) demo_hash_wf ltac:(vm_compute; split; [discriminate | reflexivity])
           ltac:(vm_compute; lia) ltac:(vm_compute; lia)).
Defined.

(** X24: PSS verify does not search for the salt: called with a salt
    length other than the length of the salt the block was built with, it
    returns [SYMCRYPT_INVALID_ARGUMENT], whatever hash value it is called
    for. *)
Theorem pss_verify_wrong_salt_length (h : SYMCRYPT_HASH) (pbHash salt vHash : list Z)
    (vSalt : nat) (nBits : Z) (pbScratch : list Z) :
  hash_wf h ->
  (0 <= nBits < 2 ^ 32)%Z ->
  SymCryptHashResultSize h + length salt + 2 <= pss_emLen nBits ->
  SymCryptHashStateSize h + (pss_emLen nBits - (SymCryptHashResultSize h + 1))
  + (8 + length vHash + vSalt) + SymCryptHashResultSize h <= length pbScratch ->
  vSalt <> length salt ->
  SymCryptRsaPssVerifySignaturePadding vHash h vSalt
    (Some (pss_block h pbHash salt nBits)) nBits 0%Z pbScratch
  = SYMCRYPT_INVALID_ARGUMENT.
Proof.
  intros Hwf Hn Hem Hscr Hne.
  rewrite (pss_verify_block_general h pbHash salt vHash vSalt) by done.
  unfold pss_verify_outcome, pss_DB.
  set (hl := SymCryptHashResultSize h) in *.
  set (cbDB := pss_emLen nBits - (hl + 1)).
  set (pad2 := cbDB - length salt - 1).
  assert (Hpad2 : cbDB = pad2 + 1 + length salt) by (subst pad2 cbDB; lia).
  destruct (Nat.ltb_spec (pss_emLen nBits) (hl + vSalt + 2)) as [?|HvS]; [reflexivity | ].
  set (vpad := cbDB - vSalt - 1).
  assert (Hvpad : cbDB = vpad + 1 + vSalt) by (subst vpad cbDB; lia).
  destruct (decide (vSalt < length salt)) as [Hlt|Hge].
  - (* the longer zero run of the verifier meets the 0x01 byte *)
    rewrite bool_decide_eq_false_2; [reflexivity | ].
    intros Heq. apply (f_equal (fun l => l !! pad2)) in Heq.
    rewrite lookup_take_lt in Heq by lia.
    rewrite lookup_app_r in Heq by len.
    rewrite length_replicate, Nat.sub_diag in Heq.
    rewrite lookup_replicate_2 in Heq by lia. discriminate Heq.
  - (* the verifier looks for the 0x01 byte inside the zero run *)
    destruct (bool_decide _); cbn [negb]; [ | reflexivity].
    rewrite load_app_l by len.
    unfold load. rewrite lookup_replicate_2 by lia. reflexivity.
Qed.

(** X24 with the two-byte demo digest and a 65-bit modulus: a block built
    with a two-byte salt, verified with the salt lengths 1 and 3. *)
Lemma pss_verify_wrong_salt_length_witness :
  SymCryptRsaPssVerifySignaturePadding [11; 22]%Z demo_hash 1
    (Some (pss_block demo_hash [11; 22]%Z [5; 6]%Z 65)) 65 0%Z (replicate 40 0%Z)
  = SYMCRYPT_INVALID_ARGUMENT
  /\ SymCryptRsaPssVerifySignaturePadding [11; 22]%Z demo_hash 3
       (Some (pss_block demo_hash [11; 22]%Z [5; 6]%Z 65)) 65 0%Z (replicate 40 0%Z)
     = SYMCRYPT_INVALID_ARGUMENT.
Proof.
  split.
  - exact (pss_verify_wrong_salt_length demo_hash [11; 22]%Z [5; 6]%Z [11; 22]%Z 1 65
             (replicate 40 0%Z) demo_hash_wf
             ltac:(vm_compute; split; [discriminate | reflexivity])
             ltac:(vm_compute; lia) ltac:(vm_compute; lia) ltac:(vm_compute; lia)).
  - exact (pss_verify_wrong_salt_length demo_hash [11; 22]%Z [5; 6]%Z [11; 22]%Z 3 65
             (replicate 40 0%Z) demo_hash_wf
             ltac:(vm_compute; split; [discriminate | reflexivity])
             ltac:(vm_compute; lia) ltac:(vm_compute; lia) ltac:(vm_compute; lia)).
Defined.

(** X25: without a supplied salt ([pbSalt = NULL]) the PSS apply path asks
    the random callback for [cbSalt] bytes once.  When the callback
    succeeds the block is the one a call with these bytes as supplied salt
    gives; when it fails its error code is handed back, and the block is
    as it was except for byte 0, which the call has already cleared when
    [nBitsOfModulus mod 8 = 1]. *)
Theorem pss_apply_random_salt_outcome {RndState : Type}
    (rnd : RANDOM_CALLBACK RndState) (s s1 : RndState) (e : SYMCRYPT_ERROR)
    (h : SYMCRYPT_HASH) (pbHash salt : list Z) (cbSalt : nat) (nBits : Z)
    (buf pbScratch : list Z) :
  hash_wf h ->
  (0 <= nBits < 2 ^ 32)%Z ->
  length buf = modulus_bytes nBits ->
  rnd s cbSalt = (e, salt, s1) ->
  (e = SYMCRYPT_NO_ERROR -> length salt = cbSalt) ->
  SymCryptHashResultSize h + cbSalt + 2 <= pss_emLen nBits ->
  SymCryptHashStateSize h + (8 + length pbHash + cbSalt)
  + (pss_emLen nBits - (SymCryptHashResultSize h + 1)) * 2 <= length pbScratch ->
  SymCryptRsaPssApplySignaturePadding rnd s pbHash h None cbSalt nBits 0%Z (Some buf) pbScratch
  = if is_no_error e then
      (SYMCRYPT_NO_ERROR,
       snd (fst (SymCryptRsaPssApplySignaturePadding rnd s pbHash h (Some salt) cbSalt
                   nBits 0%Z (Some buf) pbScratch)),
       s1)
    else (e, Some (if (nBits mod 8 =? 1)%Z then store buf 0 0%Z else buf), s1).
Proof.
  intros Hwf Hn Hbuf Hrnd Hls Hem Hscr.
  destruct (is_no_error e) eqn:He.
  - destruct e; try discriminate He. specialize (Hls eq_refl). subst cbSalt.
    rewrite (pss_apply_random_salt rnd s s1 h pbHash salt nBits buf pbScratch) by done.
    rewrite (pss_apply_supplied_salt rnd s h pbHash salt nBits buf pbScratch) by done.
    reflexivity.
  - destruct (pss_lengths nBits Hn) as (Hk & _ & _).
    unfold SymCryptRsaPssApplySignaturePadding, SymCryptCallbackRandom.
    rewrite Hrnd, He.
    destruct (Nat.eqb_spec (length buf) 0) as [?|_]; [lia | ].
    destruct (Z.eqb_spec (nBits mod 8) 1) as [Hr|Hr]; cbv beta iota zeta.
    + replace (length buf - 1) with (pss_emLen nBits) by lia.
      cbn [Z.eqb negb orb].
      destruct (Nat.ltb_spec (pss_emLen nBits) (SymCryptHashResultSize h + cbSalt + 2))
        as [?|_]; [lia | ].
      reflexivity.
    + cbn [Z.eqb negb orb].
      replace (length buf) with (pss_emLen nBits) by lia.
      destruct (Nat.ltb_spec (pss_emLen nBits) (SymCryptHashResultSize h + cbSalt + 2))
        as [?|_]; [lia | ].
      reflexivity.
Qed.

(** X25 with the two-byte demo digest, a 65-bit modulus and a tape that
    is too short for the two-byte salt: the error of the callback comes
    back and byte 0 of the nine-byte block has been cleared. *)
Lemma pss_apply_random_salt_outcome_witness :
  SymCryptRsaPssApplySignaturePadding tape_random [9]%Z [11; 22]%Z demo_hash None 2 65 0%Z
    (Some (replicate 9 3%Z)) (replicate 40 0%Z)
  = (SYMCRYPT_CALLBACK_FAILURE 1, Some ([0%Z] ++ replicate 8 3%Z), [9]%Z).
Proof.
  exact (pss_apply_random_salt_outcome tape_random [9]%Z [9]%Z (SYMCRYPT_CALLBACK_FAILURE 1)
           demo_hash [11; 22]%Z [] 2 65 (replicate 9 3%Z) (replicate 40 0%Z)
           demo_hash_wf ltac:(vm_compute; split; [discriminate | reflexivity])
           ltac:(reflexivity) ltac:(reflexivity) ltac:(discriminate)
           ltac:(vm_compute; lia) ltac:(vm_compute; lia)).
Defined.

(** X26: the scratch area and the output block are write-only inputs of
    the PSS apply path: what they hold before the call has no influence
    on the result. *)
Theorem pss_apply_ignores_prior_contents {RndState : Type}
    (rnd : RANDOM_CALLBACK RndState) (s : RndState)
    (h : SYMCRYPT_HASH) (pbHash salt : list Z) (nBits : Z)
    (buf1 buf2 scr1 scr2 : list Z) :
  hash_wf h ->
  (0 <= nBits < 2 ^ 32)%Z ->
  length buf1 = modulus_bytes nBits ->
  length buf2 = modulus_bytes nBits ->
  SymCryptHashResultSize h + length salt + 2 <= pss_emLen nBits ->
  SymCryptHashStateSize h + (8 + length pbHash + length salt)
  + (pss_emLen nBits - (SymCryptHashResultSize h + 1)) * 2 <= length scr1 ->
  SymCryptHashStateSize h + (8 + length pbHash + length salt)
  + (pss_emLen nBits - (SymCryptHashResultSize h + 1)) * 2 <= length scr2 ->
  SymCryptRsaPssApplySignaturePadding rnd s pbHash h (Some salt) (length salt) nBits 0%Z
    (Some buf1) scr1
  = SymCryptRsaPssApplySignaturePadding rnd s pbHash h (Some salt) (length salt) nBits 0%Z
      (Some buf2) scr2.
Proof.
  intros Hwf Hn Hb1 Hb2 Hem H1 H2.
  rewrite (pss_apply_supplied_salt rnd s h pbHash salt nBits buf1 scr1) by done.
  rewrite (pss_apply_supplied_salt rnd s h pbHash salt nBits buf2 scr2) by done.
  reflexivity.
Qed.

(** X26 with the two-byte demo digest and a 65-bit modulus. *)
Lemma pss_apply_ignores_prior_contents_witness :
  SymCryptRsaPssApplySignaturePadding tape_random [] [11; 22]%Z demo_hash (Some [5; 6]%Z) 2
    65 0%Z (Some (replicate 9 3%Z)) (replicate 40 0%Z)
  = SymCryptRsaPssApplySignaturePadding tape_random [] [11; 22]%Z demo_hash (Some [5; 6]%Z) 2
      65 0%Z (Some (replicate 9 250%Z)) (replicate 44 9%Z).
Proof.
  exact (pss_apply_ignores_prior_contents tape_random [] demo_hash [11; 22]%Z [5; 6]%Z 65
           (replicate 9 3%Z) (replicate 9 250%Z) (replicate 40 0%Z) (replicate 44 9%Z)
           demo_hash_wf ltac:(vm_compute; split; [discriminate | reflexivity])
           ltac:(reflexivity) ltac:(reflexivity)
           ltac:(vm_compute; lia) ltac:(vm_compute; lia) ltac:(vm_compute; lia)).
Defined.

(** ** The integer value of the PSS block *)

Lemma OS2IP_fold (l : list Z) : forall acc,
  fold_left (fun a b => (a * 256 + b)%Z) l acc
  = (acc * 256 ^ Z.of_nat (length l) + OS2IP l)%Z.
Proof.
  unfold OS2IP. induction l as [|b l IH]; intros acc; cbn [fold_left length].
  - change (256 ^ Z.of_nat 0)%Z with 1%Z. lia.
  - rewrite (IH (acc * 256 + b)%Z), (IH (0 * 256 + b)%Z).
    rewrite Nat2Z.inj_succ, Z.pow_succ_r by lia. ring.
Qed.

Lemma OS2IP_cons (b : Z) (l : list Z) :
  OS2IP (b :: l) = (b * 256 ^ Z.of_nat (length l) + OS2IP l)%Z.
Proof.
  unfold OS2IP at 1. cbn [fold_left]. rewrite OS2IP_fold. ring.
Qed.

Lemma OS2IP_bound (l : list Z) : is_bytes l -> (0 <= OS2IP l < 256 ^ Z.of_nat (length l))%Z.
Proof.
  induction l as [|b l IH]; intros Hb.
  - cbn. lia.
  - apply Forall_cons in Hb as [Hb Hl]. specialize (IH Hl).
    rewrite OS2IP_cons. cbn [length]. rewrite Nat2Z.inj_succ, Z.pow_succ_r by lia.
    nia.
Qed.

Lemma byte_log2 (a : Z) : (0 <= a < 256)%Z -> (Z.log2 a < 8)%Z.
Proof.
  intros H. destruct (Z.eq_dec a 0%Z) as [->|Hne]; [reflexivity | ].
  apply Z.log2_lt_pow2; lia.
Qed.

Lemma lxor_byte (a b : Z) : (0 <= a < 256)%Z -> (0 <= b < 256)%Z -> (0 <= Z.lxor a b < 256)%Z.
Proof.
  intros Ha Hb.
  assert (Hnn : (0 <= Z.lxor a b)%Z) by (apply Z.lxor_nonneg; lia).
  split; [exact Hnn | ].
  destruct (Z.eq_dec (Z.lxor a b) 0%Z) as [->|Hne]; [lia | ].
  change 256%Z with (2 ^ 8)%Z. apply Z.log2_lt_pow2; [lia | ].
  pose proof (Z.log2_lxor a b ltac:(lia) ltac:(lia)).
  pose proof (byte_log2 a Ha). pose proof (byte_log2 b Hb). lia.
Qed.

Lemma is_bytes_xor (a b : list Z) : is_bytes a -> is_bytes b -> is_bytes (xor_bytes a b).
Proof.
  unfold is_bytes, xor_bytes. intros Ha. revert b.
  induction Ha as [|x a Hx Ha IH]; intros b Hb; [constructor | ].
  destruct Hb as [|y b Hy Hb]; [constructor | ].
  cbn [zip_with]. constructor; [by apply lxor_byte | by apply IH].
Qed.

Lemma is_bytes_mgf_mask (h : SYMCRYPT_HASH) (seed : list Z) (n : nat) :
  (forall x, is_bytes (hashFn h x)) -> is_bytes (mgf_mask h seed n).
Proof.
  intros Hh. unfold mgf_mask, is_bytes. apply Forall_take. apply Forall_concat.
  apply Forall_fmap. apply Forall_forall. intros c _. apply Hh.
Qed.

Lemma pss_top_mask (z : Z) :
  (0 <= z <= 7)%Z -> to_BYTE (Z.shiftr 255 z) = Z.ones (8 - z).
Proof.
  intros Hz.
  assert (Hc : (z = 0 \/ z = 1 \/ z = 2 \/ z = 3 \/ z = 4 \/ z = 5 \/ z = 6 \/ z = 7)%Z)
    by lia.
  repeat (destruct Hc as [-> | Hc]; [reflexivity | ]). subst z. reflexivity.
Qed.

(** X27: the block the PSS apply path builds, read as an integer with the
    most significant byte first, is below [2 ^ (nBitsOfModulus - 1)], and
    so below every modulus of [nBitsOfModulus] bits: clearing
    [dwZeroBits] bits of the first byte is what makes the block fit.
    The digest function and the salt are taken to consist of bytes. *)
Theorem pss_apply_below_modulus {RndState : Type}
    (rnd : RANDOM_CALLBACK RndState) (s : RndState)
    (h : SYMCRYPT_HASH) (pbHash salt : list Z) (nBits : Z) (buf pbScratch : list Z) :
  hash_wf h ->
  (forall x, is_bytes (hashFn h x)) ->
  is_bytes salt ->
  (0 <= nBits < 2 ^ 32)%Z ->
  length buf = modulus_bytes nBits ->
  SymCryptHashResultSize h + length salt + 2 <= pss_emLen nBits ->
  SymCryptHashStateSize h + (8 + length pbHash + length salt)
  + (pss_emLen nBits - (SymCryptHashResultSize h + 1)) * 2 <= length pbScratch ->
  exists EM,
    SymCryptRsaPssApplySignaturePadding rnd s pbHash h (Some salt) (length salt) nBits 0%Z
      (Some buf) pbScratch
    = (SYMCRYPT_NO_ERROR, Some EM, s)
    /\ is_bytes EM
    /\ (0 <= OS2IP EM < 2 ^ (nBits - 1))%Z.
Proof.
  intros Hwf Hh Hsalt Hn Hbuf Hem Hscr.
  exists (pss_block h pbHash salt nBits).
  split; [by apply pss_apply_supplied_salt | ].
  destruct (pss_lengths nBits Hn) as (_ & Hz & _). specialize (Hz ltac:(lia)).
  unfold pss_block, pss_encode.
  set (emLen := pss_emLen nBits) in *.
  set (hl := SymCryptHashResultSize h) in *.
  (* the number of cleared bits *)
  assert (Hzv : pss_zero_bits emLen nBits = (8 * Z.of_nat emLen + 1 - nBits)%Z).
  { revert Hz. unfold pss_zero_bits, SIZE_T_sub, SIZE_T_wrap. subst emLen.
    unfold pss_emLen.
    assert (H32 : (2 ^ 32 = 4294967296)%Z) by reflexivity.
    assert (H64 : (2 ^ 64 = 18446744073709551616)%Z) by reflexivity.
    rewrite H32 in Hn. rewrite H64. clear H32 H64.
    intros _. rewrite Z2Nat.id by (Z.div_mod_to_equations; lia).
    rewrite Z.mod_small; [reflexivity | ].
    Z.div_mod_to_equations; lia. }
  set (z := pss_zero_bits emLen nBits) in *.
  (* the encoded message, its first byte apart *)
  set (cbDB := emLen - (hl + 1)).
  set (H' := hashFn h (replicate 8 0%Z ++ pbHash ++ salt)).
  set (DB := replicate (cbDB - length salt - 1) 0%Z ++ [1%Z] ++ salt).
  assert (HlDB : length DB = cbDB) by (subst DB cbDB; len).
  assert (HbDB : is_bytes DB).
  { subst DB. unfold is_bytes. rewrite !Forall_app. split; [ | split].
    - apply Forall_replicate. lia.
    - repeat constructor; lia.
    - exact Hsalt. }
  set (mask := mgf_mask h H' cbDB).
  assert (Hlmask : length mask = cbDB) by (subst mask; len).
  assert (Hbx : is_bytes (xor_bytes DB mask))
    by (apply is_bytes_xor; [done | by apply is_bytes_mgf_mask]).
  destruct (xor_bytes DB mask) as [|x0 xs] eqn:Hx.
  { apply (f_equal length) in Hx. rewrite length_xor_bytes in Hx.
    cbn [length] in Hx. subst cbDB. lia. }
  assert (Hlxs : length xs = cbDB - 1).
  { apply (f_equal length) in Hx. rewrite length_xor_bytes in Hx.
    cbn [length] in Hx. lia. }
  apply Forall_cons in Hbx as [Hx0 Hxs].
  cbn [mask_first]. rewrite pss_top_mask by done.
  rewrite Z.land_ones by lia.
  set (b0 := (x0 mod 2 ^ (8 - z))%Z).
  assert (Hb0 : (0 <= b0 < 2 ^ (8 - z))%Z) by (apply Z.mod_pos_bound; lia).
  assert (Hb0' : (0 <= b0 < 256)%Z).
  { split; [lia | ]. apply Z.lt_le_trans with (2 ^ (8 - z))%Z; [lia | ].
    change 256%Z with (2 ^ 8)%Z. apply Z.pow_le_mono_r; lia. }
  set (tl := xs ++ H' ++ [188%Z]).
  assert (HlH : length H' = hl) by (subst H' hl; len).
  assert (Hltl : length tl = emLen - 1).
  { subst tl. rewrite !length_app, Hlxs, HlH. cbn [length]. subst cbDB. lia. }
  assert (Hbtl : is_bytes tl).
  { subst tl. unfold is_bytes. rewrite !Forall_app. split; [exact Hxs | ].
    split; [apply Hh | repeat constructor; lia]. }
  assert (Hval : (0 <= OS2IP (b0 :: tl) < 2 ^ (nBits - 1))%Z).
  { rewrite OS2IP_cons. pose proof (OS2IP_bound tl Hbtl) as Ht.
    rewrite Hltl in *.
    replace (nBits - 1)%Z with ((8 - z) + 8 * Z.of_nat (emLen - 1))%Z by lia.
    rewrite Z.pow_add_r by lia. rewrite (Z.pow_mul_r 2 8) by lia.
    change (2 ^ 8)%Z with 256%Z.
    assert (Hp : (0 < 256 ^ Z.of_nat (emLen - 1))%Z) by (apply Z.pow_pos_nonneg; lia).
    nia. }
  change ((b0 :: xs) ++ H' ++ [188%Z]) with (b0 :: tl).
  destruct (nBits mod 8 =? 1)%Z; cbn [app].
  - split; [constructor; [lia | by constructor] | ].
    rewrite OS2IP_cons. lia.
  - split; [by constructor | exact Hval].
Qed.

Lemma fold_left_inv {A B : Type} (P : A -> Prop) (f : A -> B -> A) (l : list B) :
  (forall a b, P a -> P (f a b)) -> forall acc, P acc -> P (fold_left f l acc).
Proof.
  intros Hf. induction l as [|b l IH]; intros acc Hacc; [exact Hacc | ].
  cbn [fold_left]. apply IH. by apply Hf.
Qed.

Lemma demo_hash_bytes (x : list Z) : is_bytes (hashFn demo_hash x).
Proof.
  unfold is_bytes, demo_hash, hashFn, demo_digest. repeat constructor.
  - apply (fold_left_inv (fun a => (0 <= a)%Z)); [ | lia].
    intros a b _. apply Z.mod_pos_bound. lia.
  - apply (fold_left_inv (fun a => (a < 256)%Z)); [ | lia].
    intros a b _. apply Z.mod_pos_bound. lia.
  - apply (fold_left_inv (fun a => (0 <= a)%Z)); [ | lia].
    intros a b _. apply lxor_byte; apply Z.mod_pos_bound; lia.
  - apply (fold_left_inv (fun a => (a < 256)%Z)); [ | lia].
    intros a b _. apply lxor_byte; apply Z.mod_pos_bound; lia.
Qed.

(** X27 with the two-byte demo digest and a 67-bit modulus (five bits of
    the first byte cleared). *)
Lemma pss_apply_below_modulus_witness :
  exists EM,
    SymCryptRsaPssApplySignaturePadding tape_random [] [11; 22]%Z demo_hash (Some [5; 6]%Z) 2
      67 0%Z (Some (replicate 9 0%Z)) (replicate 40 0%Z)
    = (SYMCRYPT_NO_ERROR, Some EM, [])
    /\ is_bytes EM
    /\ (0 <= OS2IP EM < 2 ^ (67 - 1))%Z.
Proof.
  apply (pss_apply_below_modulus tape_random [] demo_hash [11; 22]%Z [5; 6]%Z 67
           (replicate 9 0%Z) (replicate 40 0%Z)).
  - apply demo_hash_wf.
  - apply demo_hash_bytes.
  - repeat constructor; lia.
  - vm_compute. split; [discriminate | reflexivity].
  - reflexivity.
  - vm_compute. lia.
  - vm_compute. lia.
Defined.

(** X28: with a supplied salt and a block of the byte length of the
    modulus, the PSS apply path fails exactly when a flag is set or the
    salt is longer than [emLen - hLen - 2] bytes,
    [emLen = ceil ((nBitsOfModulus - 1) / 8)]; it then returns
    [SYMCRYPT_INVALID_ARGUMENT] without consulting the random source, the
    block being as it was except for byte 0, which is cleared before the
    check when [nBitsOfModulus mod 8 = 1].  Otherwise it returns
    [SYMCRYPT_NO_ERROR] and a block of the same size that ends with
    [0xbc]. *)
Theorem pss_apply_argument_check {RndState : Type}
    (rnd : RANDOM_CALLBACK RndState) (s : RndState)
    (h : SYMCRYPT_HASH) (pbHash salt : list Z) (nBits flags : Z) (buf pbScratch : list Z) :
  hash_wf h ->
  (0 <= nBits < 2 ^ 32)%Z ->
  length buf = modulus_bytes nBits ->
  SymCryptHashStateSize h + (8 + length pbHash + length salt)
  + (pss_emLen nBits - (SymCryptHashResultSize h + 1)) * 2 <= length pbScratch ->
  (flags <> 0%Z \/ pss_emLen nBits < SymCryptHashResultSize h + length salt + 2 ->
   SymCryptRsaPssApplySignaturePadding rnd s pbHash h (Some salt) (length salt) nBits flags
     (Some buf) pbScratch
   = (SYMCRYPT_INVALID_ARGUMENT,
      Some (if (nBits mod 8 =? 1)%Z then store buf 0 0%Z else buf), s))
  /\
  (flags = 0%Z ->
   SymCryptHashResultSize h + length salt + 2 <= pss_emLen nBits ->
   exists EM,
     SymCryptRsaPssApplySignaturePadding rnd s pbHash h (Some salt) (length salt) nBits flags
       (Some buf) pbScratch
     = (SYMCRYPT_NO_ERROR, Some EM, s)
     /\ length EM = length buf
     /\ load EM (length buf - 1) = 188%Z).
Proof.
  intros Hwf Hn Hbuf Hscr.
  destruct (pss_lengths nBits Hn) as (Hk & _ & _).
  split.
  - intros Hbad. unfold SymCryptRsaPssApplySignaturePadding.
    destruct (Nat.eqb_spec (length buf) 0) as [Hz|Hnz].
    + destruct buf; [ | discriminate Hz]. destruct (nBits mod 8 =? 1)%Z; reflexivity.
    + destruct (Z.eqb_spec (nBits mod 8) 1) as [Hr|Hr]; cbv beta iota zeta.
      * replace (length buf - 1) with (pss_emLen nBits) by lia.
        destruct (Z.eqb_spec flags 0) as [Hf|Hf]; cbn [negb orb]; [ | reflexivity].
        destruct (Nat.ltb_spec (pss_emLen nBits) (SymCryptHashResultSize h + length salt + 2))
          as [?|?]; [reflexivity | ].
        exfalso. destruct Hbad; [done | lia].
      * replace (length buf) with (pss_emLen nBits) by lia.
        destruct (Z.eqb_spec flags 0) as [Hf|Hf]; cbn [negb orb]; [ | reflexivity].
        destruct (Nat.ltb_spec (pss_emLen nBits) (SymCryptHashResultSize h + length salt + 2))
          as [?|?]; [reflexivity | ].
        exfalso. destruct Hbad; [done | lia].
  - intros -> Hem.
    rewrite (pss_apply_supplied_salt rnd s h pbHash salt nBits buf pbScratch) by done.
    eexists. split; [reflexivity | ].
    pose proof (length_pss_encode h pbHash salt (pss_emLen nBits) nBits Hwf Hem) as Hl.
    assert (Hlb : length (pss_block h pbHash salt nBits) = length buf).
    { unfold pss_block. rewrite length_app, Hl, Hbuf, Hk.
      destruct (nBits mod 8 =? 1)%Z; reflexivity. }
    split; [exact Hlb | ].
    rewrite <- Hlb. unfold pss_block, pss_encode.
    rewrite !app_assoc.
    rewrite load_app_r by len.
    match goal with
    | |- load [188%Z] ?i = _ => replace i with 0 by len
    end.
    reflexivity.
Qed.

(** X28 with the two-byte demo digest and a 33-bit modulus
    ([emLen = 4]): a one-byte salt does not fit ([4 < 2 + 1 + 2]); byte 0
    of the five-byte block is cleared all the same. *)
Lemma pss_apply_argument_check_witness :
  SymCryptRsaPssApplySignaturePadding tape_random [] [11; 22]%Z demo_hash (Some [5]%Z) 1
    33 0%Z (Some (replicate 5 3%Z)) (replicate 40 0%Z)
  = (SYMCRYPT_INVALID_ARGUMENT, Some [0; 3; 3; 3; 3]%Z, []).
Proof.
  apply (proj1 (pss_apply_argument_check tape_random [] demo_hash [11; 22]%Z [5]%Z 33 0%Z
                  (replicate 5 3%Z) (replicate 40 0%Z)
                  demo_hash_wf ltac:(vm_compute; split; [discriminate | reflexivity])
                  ltac:(reflexivity) ltac:(vm_compute; lia))).
  right. vm_compute. lia.
Defined.

(** * Further properties of the mask generator *)

Lemma length_mgf_blocks (h : SYMCRYPT_HASH) (src : list Z) :
  hash_wf h ->
  forall k c,
    length (concat (map (mgf_block h src) (seq c k))) = k * SymCryptHashResultSize h.
Proof.
  intros (_ & _ & Hlen). induction k as [|k IHk]; intros c; [reflexivity | ].
  cbn [seq map concat]. rewrite length_app, IHk. unfold mgf_block. rewrite Hlen. lia.
Qed.

Lemma ceil_div_bounds (n hl : nat) :
  0 < hl -> n <= (n + (hl - 1)) / hl * hl /\ (n + (hl - 1)) / hl * hl < n + hl.
Proof.
  intros Hpos.
  pose proof (Nat.div_mod (n + (hl - 1)) hl ltac:(lia)) as Hd.
  pose proof (Nat.mod_upper_bound (n + (hl - 1)) hl ltac:(lia)) as Hm.
  nia.
Qed.

Lemma mgf_mask_prefix (h : SYMCRYPT_HASH) (src : list Z) (n m : nat) :
  hash_wf h -> n <= m -> take n (mgf_mask h src m) = mgf_mask h src n.
Proof.
  intros Hwf Hnm. pose proof Hwf as (Hpos & _ & _).
  unfold mgf_mask. set (hl := SymCryptHashResultSize h) in *.
  rewrite take_take. rewrite Nat.min_l by lia.
  set (cn := (n + (hl - 1)) / hl). set (cm := (m + (hl - 1)) / hl).
  destruct (ceil_div_bounds n hl Hpos) as [Hn1 Hn2].
  destruct (ceil_div_bounds m hl Hpos) as [Hm1 Hm2].
  fold cn in Hn1, Hn2. fold cm in Hm1, Hm2.
  assert (Hle : cn <= cm) by nia.
  replace cm with (cn + (cm - cn)) by lia.
  rewrite seq_app, map_app, concat_app.
  rewrite take_app_le; [reflexivity | ].
  rewrite length_mgf_blocks by done. fold hl. lia.
Qed.

(** X29: the mask generator produces a stream: the first [n] bytes of a
    longer mask are the mask of [n] bytes for the same seed.  This holds
    across the two counter encodings of the code (the low-byte shortcut
    below 256 iterations, the byte reversal from 256 on). *)
Theorem mgf_shorter_mask_is_prefix (h : SYMCRYPT_HASH) (pbSrc pbDst : list Z) (n : nat) :
  hash_wf h ->
  n <= length pbDst ->
  take n (SymCryptRsaPaddingMaskGeneration h pbSrc pbDst)
  = SymCryptRsaPaddingMaskGeneration h pbSrc (take n pbDst).
Proof.
  intros Hwf Hn. rewrite !mgf_generation_mask by done.
  rewrite length_take, Nat.min_l by lia. by apply mgf_mask_prefix.
Qed.

(** X29 with the two-byte demo digest: 600 mask bytes (300 iterations,
    the reversing path) cut to 100 bytes (50 iterations, the shortcut). *)
Lemma mgf_shorter_mask_is_prefix_witness :
  take 100 (SymCryptRsaPaddingMaskGeneration demo_hash [1; 2; 3]%Z (replicate 600 0%Z))
  = SymCryptRsaPaddingMaskGeneration demo_hash [1; 2; 3]%Z (take 100 (replicate 600 0%Z)).
Proof.
  apply (mgf_shorter_mask_is_prefix demo_hash [1; 2; 3]%Z (replicate 600 0%Z) 100).
  - apply demo_hash_wf.
  - vm_compute. lia.
Defined.

(** X30: the mask generator writes every byte of its destination and
    nothing else: the result has the size of the destination and does not
    depend on what the destination held. *)
Theorem mgf_overwrites_destination (h : SYMCRYPT_HASH) (pbSrc dst1 dst2 : list Z) :
  hash_wf h ->
  length dst1 = length dst2 ->
  SymCryptRsaPaddingMaskGeneration h pbSrc dst1 = SymCryptRsaPaddingMaskGeneration h pbSrc dst2
  /\ length (SymCryptRsaPaddingMaskGeneration h pbSrc dst1) = length dst1.
Proof.
  intros Hwf Hl. rewrite !mgf_generation_mask by done. split.
  - rewrite Hl. reflexivity.
  - by apply length_mgf_mask.
Qed.

(** X30 with the two-byte demo digest and two destinations of five
    bytes. *)
Lemma mgf_overwrites_destination_witness :
  SymCryptRsaPaddingMaskGeneration demo_hash [1; 2; 3]%Z (replicate 5 0%Z)
  = SymCryptRsaPaddingMaskGeneration demo_hash [1; 2; 3]%Z (replicate 5 77%Z).
Proof.
  apply (mgf_overwrites_destination demo_hash [1; 2; 3]%Z (replicate 5 0%Z) (replicate 5 77%Z)).
  - apply demo_hash_wf.
  - reflexivity.
Defined.
